(** * The generic describe-only source of aws-source

    A shallow embedding of [DescribeOnlySource] (package [sources]) and of its
    [Get], [List] and [Search] operations, followed by the properties
    of the engine: scope validation, cache integration, pagination draining
    and error handling.

    The development then covers the callers of the engine that the
    sources hold: the hand-written paginator of the capacity-provider source
    (package [ecs]), the input mappers of the launch-template-version source
    and the link extraction of the security-group source (package [ec2]).

    The Go receiver [s *DescribeOnlySource] and everything else a call can
    change are threaded through a state monad.  The state also carries a
    ghost trace of the calls made to the cache and to the callbacks of the
    source, which is what statements of the form "the callback is not invoked"
    are about. *)

From Stdlib Require Import ZArith Ascii String List Lia.
From Stdlib Require DecimalString.
From stdpp Require Import base option list strings.

Open Scope string_scope.
Open Scope Z_scope.

(** ** Outcomes and the state monad *)

(** A Go call either returns, panics (nil function value, index out of range)
    or, for the model of an unbounded loop, runs out of fuel. *)
Inductive Outcome (A : Type) : Type :=
  | Ok (a : A)
  | Panic (msg : string)
  | OutOfFuel.
Arguments Ok {A} a.
Arguments Panic {A} msg.
Arguments OutOfFuel {A}.

Definition M (S A : Type) : Type := S -> Outcome A * S.

Definition ret {S A : Type} (a : A) : M S A := fun st => (Ok a, st).

Definition bind {S A B : Type} (c : M S A) (k : A -> M S B) : M S B :=
  fun st =>
    match c st with
    | (Ok a, st') => k a st'
    | (Panic msg, st') => (Panic msg, st')
    | (OutOfFuel, st') => (OutOfFuel, st')
    end.

Definition panic {S A : Type} (msg : string) : M S A := fun st => (Panic msg, st).
Definition timeout {S A : Type} : M S A := fun st => (OutOfFuel, st).
Definition gets {S A : Type} (f : S -> A) : M S A := fun st => (Ok (f st), st).
Definition modify {S : Type} (f : S -> S) : M S unit := fun st => (Ok tt, f st).

Notation "'let*' x ':=' c 'in' k" := (bind c (fun x => k))
  (at level 10, x name, c at level 100, k at level 200).
Notation "'run' c 'in' k" := (bind c (fun _ => k))
  (at level 10, c at level 100, k at level 200).

(** [for _, x := range l { body x }] *)
Fixpoint forRange {S A : Type} (l : list A) (body : A -> M S unit) : M S unit :=
  match l with
  | [] => ret tt
  | x :: rest => bind (body x) (fun _ => forRange rest body)
  end.

(** [l[i]], which panics when [i] is out of range. *)
Definition index {S A : Type} (l : list A) (i : nat) : M S A :=
  match l !! i with
  | Some x => ret x
  | None => panic "index out of range"
  end.

(** ** The sdp data model (package [sdp-go]) *)

Module sdp.

Inductive QueryMethod : Set :=
  | QueryMethod_GET
  | QueryMethod_LIST
  | QueryMethod_SEARCH.

Inductive QueryError_ErrorType : Set :=
  | QueryError_OTHER
  | QueryError_NOTFOUND
  | QueryError_NOSCOPE
  | QueryError_TIMEOUT.

Record QueryError : Set := {
  ErrorType : QueryError_ErrorType;
  ErrorString : string;
  ErrorScope : string
}.

(** Attribute values are kept in their printed form ([fmt.Sprint]). *)
Record Item : Set := {
  Type_ : string;
  UniqueAttribute : string;
  Attributes : list (string * string);
  Scope : string
}.

Fixpoint Attributes_Get (attrs : list (string * string)) (name : string)
  : option string :=
  match attrs with
  | [] => None
  | (k, v) :: rest => if String.eqb k name then Some v else Attributes_Get rest name
  end.

(** The value of the unique attribute, or the empty string without one. *)
Definition UniqueAttributeValue (i : Item) : string :=
  match Attributes_Get (Attributes i) (UniqueAttribute i) with
  | Some v => v
  | None => EmptyString
  end.

(** [strings.Join([]string{scope, type, uniqueAttributeValue}, ".")] *)
Definition GloballyUniqueName (i : Item) : string :=
  String.concat "." [Scope i; Type_ i; UniqueAttributeValue i].

End sdp.

(** A Go [error] value: a [*sdp.QueryError], one of the two errors of package
    [context], or any other error, known by its message. *)
Inductive error : Set :=
  | QueryErr (e : sdp.QueryError)
  | context_Canceled
  | context_DeadlineExceeded
  | errors_New (msg : string).

Definition isContextError (e : error) : bool :=
  match e with
  | context_Canceled | context_DeadlineExceeded => true
  | _ => false
  end.

(** ** ARNs *)

Module arn.
Record ARN : Set := {
  Partition : string;
  Service : string;
  Region : string;
  AccountID : string;
  Resource : string
}.
End arn.

Module aws.
Record Config : Set := { Region : string }.
End aws.

(** ** The cache interface (package [sdpcache]) *)

Module sdpcache.

Record CacheKey : Set := {
  SourceName : string;
  Method : sdp.QueryMethod;
  Scope : string;
  Type_ : string;
  Query : string
}.

Definition CacheKeyFromParts (srcName : string) (method : sdp.QueryMethod)
    (scope typ query : string) : CacheKey :=
  {| SourceName := srcName; Method := method; Scope := scope;
     Type_ := typ; Query := query |}.

(** What [Lookup] returns: [(bool, CacheKey, []*sdp.Item, *sdp.QueryError)]. *)
Record LookupResult : Set := {
  cacheHit : bool;
  ck : CacheKey;
  cachedItems : list sdp.Item;
  qErr : option sdp.QueryError
}.

(** The three operations the engine uses, over any cache implementation
    [C]; durations are in nanoseconds. *)
Class Cache (Ctx C : Type) : Type := {
  NewCache : C;
  Lookup : Ctx -> string -> sdp.QueryMethod -> string -> string -> string ->
           bool -> C -> LookupResult * C;
  StoreItem : sdp.Item -> Z -> CacheKey -> C -> C;
  StoreError : error -> Z -> CacheKey -> C -> C
}.

End sdpcache.

(** ** The paginator interface *)

(** [Paginator[Output, Options]]: [HasMorePages] reads the paginator,
    [NextPage] advances it and talks to the upstream service, whose state is
    [U]. *)
Class Paginator (Ctx Output U Pg : Type) : Type := {
  HasMorePages : Pg -> bool;
  NextPage : Ctx -> Pg -> U -> (Output + error) * Pg * U
}.

(** ** The rest of package [sources] *)

(** The helpers and the constant of package [sources] that the engine uses
    and that are defined in other files of the package: the engine is
    verified for any of them. *)
Class Helpers : Type := {
  FormatScope : string -> string -> string;
  ParseARN : string -> arn.ARN + error;
  ResourceID : arn.ARN -> string;
  WrapAWSError : error -> sdp.QueryError;
  DefaultMaxResultsPerPage : Z
}.

Definition DefaultCacheDuration : Z := 1 * 3600000000000.

(** ** The source *)

Section DescribeOnly.

(** The type parameters of the Go generic ([Input], [Output],
    [ClientStruct]; [Options] only occurs in the paginator type), the
    context type, the state [U] of the upstream service that the callbacks
    act on, the paginator type and the cache implementation. *)
Context {Ctx Input Output ClientStruct U Pg C : Type}.
Context {cacheImpl : sdpcache.Cache Ctx C}.
Context {paginatorImpl : Paginator Ctx Output U Pg}.

Context {helpers : Helpers}.

(** Function-typed fields are [option]s: [None] is the nil function. *)
Record DescribeOnlySource : Type := {
  MaxResultsPerPage : Z;
  ItemType : string;
  CacheDuration : Z;
  cache : option C;
  DescribeFunc : option (Ctx -> ClientStruct -> Input -> U -> (Output + error) * U);
  InputMapperGet : option (string -> string -> U -> (Input + error) * U);
  InputMapperList : option (string -> U -> (Input + error) * U);
  InputMapperSearch :
    option (Ctx -> ClientStruct -> string -> string -> U -> (Input + error) * U);
  PaginatorBuilder : option (ClientStruct -> Input -> Pg);
  OutputMapper :
    option (Ctx -> ClientStruct -> string -> Input -> Output -> U ->
            (list sdp.Item + error) * U);
  Config : aws.Config;
  AccountID : string;
  Client : ClientStruct;
  UseListForGet : bool
}.

Definition set_cache (c : option C) (s : DescribeOnlySource) : DescribeOnlySource :=
  {| MaxResultsPerPage := MaxResultsPerPage s; ItemType := ItemType s;
     CacheDuration := CacheDuration s; cache := c;
     DescribeFunc := DescribeFunc s; InputMapperGet := InputMapperGet s;
     InputMapperList := InputMapperList s;
     InputMapperSearch := InputMapperSearch s;
     PaginatorBuilder := PaginatorBuilder s; OutputMapper := OutputMapper s;
     Config := Config s; AccountID := AccountID s; Client := Client s;
     UseListForGet := UseListForGet s |}.

Definition set_MaxResultsPerPage (n : Z) (s : DescribeOnlySource) : DescribeOnlySource :=
  {| MaxResultsPerPage := n; ItemType := ItemType s;
     CacheDuration := CacheDuration s; cache := cache s;
     DescribeFunc := DescribeFunc s; InputMapperGet := InputMapperGet s;
     InputMapperList := InputMapperList s;
     InputMapperSearch := InputMapperSearch s;
     PaginatorBuilder := PaginatorBuilder s; OutputMapper := OutputMapper s;
     Config := Config s; AccountID := AccountID s; Client := Client s;
     UseListForGet := UseListForGet s |}.

(** The calls a run makes to its collaborators, in the order made. *)
Inductive Event : Type :=
  | CacheLookup (srcName : string) (method : sdp.QueryMethod)
      (scope typ query : string) (ignoreCache : bool)
  | CacheStoreItem (item : sdp.Item) (duration : Z) (ck : sdpcache.CacheKey)
  | CacheStoreError (err : error) (duration : Z) (ck : sdpcache.CacheKey)
  | CallInputMapperGet (scope query : string)
  | CallInputMapperList (scope : string)
  | CallInputMapperSearch (scope query : string)
  | CallDescribeFunc (input : Input)
  | CallOutputMapper (scope : string) (input : Input) (output : Output)
  | CallPaginatorBuilder (input : Input)
  | CallNextPage.

Definition isCacheEvent (e : Event) : bool :=
  match e with
  | CacheLookup _ _ _ _ _ _ | CacheStoreItem _ _ _ | CacheStoreError _ _ _ => true
  | _ => false
  end.

Definition isCacheWrite (e : Event) : bool :=
  match e with
  | CacheStoreItem _ _ _ | CacheStoreError _ _ _ => true
  | _ => false
  end.

Definition isCacheLookup (e : Event) : bool :=
  match e with CacheLookup _ _ _ _ _ _ => true | _ => false end.

Definition isStoreItem (e : Event) : bool :=
  match e with CacheStoreItem _ _ _ => true | _ => false end.

Definition isStoreError (e : Event) : bool :=
  match e with CacheStoreError _ _ _ => true | _ => false end.

Definition isDescribeFunc (e : Event) : bool :=
  match e with CallDescribeFunc _ => true | _ => false end.

Definition isNextPage (e : Event) : bool :=
  match e with CallNextPage => true | _ => false end.

(** Calls that reach the upstream service. *)
Definition isUpstream (e : Event) : bool :=
  match e with
  | CallDescribeFunc _ | CallPaginatorBuilder _ | CallNextPage => true
  | _ => false
  end.

(** What a call can read and change: the receiver, the upstream service
    and the trace. *)
Record State : Type := {
  self : DescribeOnlySource;
  upstream : U;
  trace : list Event
}.

Definition log (e : Event) : M State unit :=
  modify (fun st => {| self := self st; upstream := upstream st;
                       trace := trace st ++ [e] |}).

Definition setSelf (f : DescribeOnlySource -> DescribeOnlySource) : M State unit :=
  modify (fun st => {| self := f (self st); upstream := upstream st;
                       trace := trace st |}).

(** Runs a callback on the upstream state. *)
Definition upcall {A : Type} (f : U -> A * U) : M State A :=
  fun st => let '(a, u) := f (upstream st) in
            (Ok a, {| self := self st; upstream := u; trace := trace st |}).

(** Calling a function-typed field; a nil function panics. *)
Definition callField {F A : Type} (name : string) (e : Event)
    (field : DescribeOnlySource -> option F) (app : F -> U -> A * U) : M State A :=
  let* s := gets self in
  match field s with
  | None => panic ("nil func " +:+ name)
  | Some f => run log e in upcall (app f)
  end.

Definition call_InputMapperGet (scope query : string) : M State (Input + error) :=
  callField "InputMapperGet" (CallInputMapperGet scope query) InputMapperGet
    (fun f => f scope query).

Definition call_InputMapperList (scope : string) : M State (Input + error) :=
  callField "InputMapperList" (CallInputMapperList scope) InputMapperList
    (fun f => f scope).

Definition call_InputMapperSearch (ctx : Ctx) (scope query : string)
  : M State (Input + error) :=
  let* s := gets self in
  callField "InputMapperSearch" (CallInputMapperSearch scope query) InputMapperSearch
    (fun f => f ctx (Client s) scope query).

Definition call_DescribeFunc (ctx : Ctx) (input : Input) : M State (Output + error) :=
  let* s := gets self in
  callField "DescribeFunc" (CallDescribeFunc input) DescribeFunc
    (fun f => f ctx (Client s) input).

Definition call_OutputMapper (ctx : Ctx) (scope : string) (input : Input)
    (output : Output) : M State (list sdp.Item + error) :=
  let* s := gets self in
  callField "OutputMapper" (CallOutputMapper scope input output) OutputMapper
    (fun f => f ctx (Client s) scope input output).

Definition call_PaginatorBuilder (input : Input) : M State Pg :=
  let* s := gets self in
  match PaginatorBuilder s with
  | None => panic "nil func PaginatorBuilder"
  | Some f => run log (CallPaginatorBuilder input) in ret (f (Client s) input)
  end.

Definition call_NextPage (ctx : Ctx) (paginator : Pg) : M State ((Output + error) * Pg) :=
  run log CallNextPage in
  upcall (fun u => let '(r, pg, u') := NextPage ctx paginator u in ((r, pg), u')).

(** The methods of [*sdpcache.Cache] on the field [s.cache]; on a nil cache
    [Lookup] misses and the two stores do nothing. *)
Definition cache_Lookup (ctx : Ctx) (srcName : string) (method : sdp.QueryMethod)
    (scope typ query : string) (ignoreCache : bool) : M State sdpcache.LookupResult :=
  run log (CacheLookup srcName method scope typ query ignoreCache) in
  let* s := gets self in
  match cache s with
  | None =>
      ret {| sdpcache.cacheHit := false;
             sdpcache.ck := sdpcache.CacheKeyFromParts srcName method scope typ query;
             sdpcache.cachedItems := [];
             sdpcache.qErr := None |}
  | Some c =>
      let '(r, c') := sdpcache.Lookup ctx srcName method scope typ query ignoreCache c in
      run setSelf (set_cache (Some c')) in ret r
  end.

Definition cache_StoreItem (item : sdp.Item) (duration : Z) (ck : sdpcache.CacheKey)
  : M State unit :=
  run log (CacheStoreItem item duration ck) in
  let* s := gets self in
  match cache s with
  | None => ret tt
  | Some c => setSelf (set_cache (Some (sdpcache.StoreItem item duration ck c)))
  end.

Definition cache_StoreError (err : error) (duration : Z) (ck : sdpcache.CacheKey)
  : M State unit :=
  run log (CacheStoreError err duration ck) in
  let* s := gets self in
  match cache s with
  | None => ret tt
  | Some c => setSelf (set_cache (Some (sdpcache.StoreError err duration ck c)))
  end.

(** *** Methods *)

Definition cacheDuration (s : DescribeOnlySource) : Z :=
  if CacheDuration s =? 0 then DefaultCacheDuration else CacheDuration s.

Definition ensureCache : M State unit :=
  let* s := gets self in
  match cache s with
  | None => setSelf (set_cache (Some sdpcache.NewCache))
  | Some _ => ret tt
  end.

Definition Validate : M State (option error) :=
  let* s := gets self in
  match DescribeFunc s with
  | None => ret (Some (errors_New "source describe func is nil"))
  | Some _ =>
      run (if MaxResultsPerPage s =? 0
           then setSelf (set_MaxResultsPerPage DefaultMaxResultsPerPage)
           else ret tt) in
      match InputMapperGet s with
      | None => ret (Some (errors_New "source get input mapper is nil"))
      | Some _ =>
          match OutputMapper s with
          | None => ret (Some (errors_New "source output mapper is nil"))
          | Some _ => ret None
          end
      end
  end.

Definition Paginated (s : DescribeOnlySource) : bool :=
  match PaginatorBuilder s with Some _ => true | None => false end.

Definition Type' (s : DescribeOnlySource) : string := ItemType s.

Definition Name (s : DescribeOnlySource) : string := ItemType s +:+ "-source".

Definition Scopes (s : DescribeOnlySource) : list string :=
  [FormatScope (AccountID s) (aws.Region (Config s))].

(** The error of the scope check that opens [Get], [List] and [Search]. *)
Definition scopeMismatch (scope sourceScope : string) : sdp.QueryError :=
  {| sdp.ErrorType := sdp.QueryError_NOSCOPE;
     sdp.ErrorString := "requested scope " +:+ scope +:+
                        " does not match source scope " +:+ sourceScope;
     sdp.ErrorScope := EmptyString |}.

(** The filter of [Get] under [UseListForGet]: the loop appends the first
    item whose unique attribute value is the query and breaks. *)
Fixpoint filterItems (query : string) (items : list sdp.Item) : list sdp.Item :=
  match items with
  | [] => []
  | item :: rest =>
      if String.eqb (sdp.UniqueAttributeValue item) query then [item]
      else filterItems query rest
  end.

Definition tooManyItems (items : list sdp.Item) : sdp.QueryError :=
  {| sdp.ErrorType := sdp.QueryError_OTHER;
     sdp.ErrorString := "Request returned > 1 item for a GET request. Items: " +:+
                        String.concat ", " (map sdp.GloballyUniqueName items);
     sdp.ErrorScope := EmptyString |}.

Definition notFound (s : DescribeOnlySource) (query : string) : sdp.QueryError :=
  {| sdp.ErrorType := sdp.QueryError_NOTFOUND;
     sdp.ErrorString := Type' s +:+ " " +:+ query +:+ " not found";
     sdp.ErrorScope := EmptyString |}.

(** [Get] returns an item pointer and an [error]; either may be nil. *)
Definition Get (ctx : Ctx) (scope query : string) (ignoreCache : bool)
  : M State (option sdp.Item * option error) :=
  let* s := gets self in
  let* scope0 := index (Scopes s) 0 in
  if negb (String.eqb scope scope0) then
    ret (None, Some (QueryErr (scopeMismatch scope scope0)))
  else
  let* err := Validate in
  match err with
  | Some err => ret (None, Some (QueryErr (WrapAWSError err)))
  | None =>
  run ensureCache in
  let* hit := cache_Lookup ctx (Name s) sdp.QueryMethod_GET scope (ItemType s)
                query ignoreCache in
  let ck := sdpcache.ck hit in
  match sdpcache.qErr hit with
  | Some qErr => ret (None, Some (QueryErr qErr))
  | None =>
  if sdpcache.cacheHit hit then
    match sdpcache.cachedItems hit with
    | item :: _ => ret (Some item, None)
    | [] => ret (None, None)
    end
  else
  let* input := call_InputMapperGet scope query in
  match input with
  | inr err =>
      let err := QueryErr (WrapAWSError err) in
      run cache_StoreError err (cacheDuration s) ck in
      ret (None, Some err)
  | inl input =>
  let* output := call_DescribeFunc ctx input in
  match output with
  | inr err =>
      let err := QueryErr (WrapAWSError err) in
      run cache_StoreError err (cacheDuration s) ck in
      ret (None, Some err)
  | inl output =>
  let* items := call_OutputMapper ctx scope input output in
  match items with
  | inr err =>
      let err := QueryErr (WrapAWSError err) in
      run cache_StoreError err (cacheDuration s) ck in
      ret (None, Some err)
  | inl items =>
  let items := if UseListForGet s then filterItems query items else items in
  match items with
  | _ :: _ :: _ =>
      let qErr := QueryErr (tooManyItems items) in
      run cache_StoreError qErr (cacheDuration s) ck in
      ret (None, Some qErr)
  | [] =>
      let qErr := QueryErr (notFound s query) in
      run cache_StoreError qErr (cacheDuration s) ck in
      ret (None, Some qErr)
  | [item] =>
      run cache_StoreItem item (cacheDuration s) ck in
      ret (Some item, None)
  end end end end end end.

(** The loop [for paginator.HasMorePages() { ... }] of [describe]; each
    iteration uses one unit of fuel. *)
Fixpoint describePages (fuel : nat) (ctx : Ctx) (input : Input) (scope : string)
    (paginator : Pg) (items : list sdp.Item) : M State (list sdp.Item * option error) :=
  match fuel with
  | O => timeout
  | S fuel =>
      if HasMorePages paginator then
        let* page := call_NextPage ctx paginator in
        match page with
        | (inr err, _) => ret ([], Some err)
        | (inl output, paginator) =>
            let* newItems := call_OutputMapper ctx scope input output in
            match newItems with
            | inr err => ret ([], Some err)
            | inl newItems =>
                describePages fuel ctx input scope paginator (items ++ newItems)
            end
        end
      else ret (items, None)
  end.

Definition describe (fuel : nat) (ctx : Ctx) (input : Input) (scope : string)
  : M State (list sdp.Item * option error) :=
  let* s := gets self in
  if Paginated s then
    let* paginator := call_PaginatorBuilder input in
    describePages fuel ctx input scope paginator []
  else
    let* output := call_DescribeFunc ctx input in
    match output with
    | inr err => ret ([], Some err)
    | inl output =>
        let* items := call_OutputMapper ctx scope input output in
        match items with
        | inr err => ret ([], Some err)
        | inl items => ret (items, None)
        end
    end.

Definition listUnsupported (s : DescribeOnlySource) : sdp.QueryError :=
  {| sdp.ErrorType := sdp.QueryError_NOTFOUND;
     sdp.ErrorString := "list is not supported for " +:+ ItemType s +:+ " resources";
     sdp.ErrorScope := EmptyString |}.

Definition List (fuel : nat) (ctx : Ctx) (scope : string) (ignoreCache : bool)
  : M State (list sdp.Item * option error) :=
  let* s := gets self in
  let* scope0 := index (Scopes s) 0 in
  if negb (String.eqb scope scope0) then
    ret ([], Some (QueryErr (scopeMismatch scope scope0)))
  else
  match InputMapperList s with
  | None => ret ([], Some (QueryErr (listUnsupported s)))
  | Some _ =>
  let* err := Validate in
  match err with
  | Some err => ret ([], Some (QueryErr (WrapAWSError err)))
  | None =>
  run ensureCache in
  let* hit := cache_Lookup ctx (Name s) sdp.QueryMethod_LIST scope (ItemType s)
                EmptyString ignoreCache in
  let ck := sdpcache.ck hit in
  match sdpcache.qErr hit with
  | Some qErr => ret ([], Some (QueryErr qErr))
  | None =>
  if sdpcache.cacheHit hit then ret (sdpcache.cachedItems hit, None)
  else
  let* input := call_InputMapperList scope in
  match input with
  | inr err =>
      let err := QueryErr (WrapAWSError err) in
      run cache_StoreError err (cacheDuration s) ck in
      ret ([], Some err)
  | inl input =>
  let* described := describe fuel ctx input scope in
  match described with
  | (_, Some err) =>
      let err := QueryErr (WrapAWSError err) in
      run cache_StoreError err (cacheDuration s) ck in
      ret ([], Some err)
  | (items, None) =>
      run forRange items (fun item => cache_StoreItem item (cacheDuration s) ck) in
      ret (items, None)
  end end end end end.

Definition arnScopeMismatch (arnScope scope : string) : sdp.QueryError :=
  {| sdp.ErrorType := sdp.QueryError_NOSCOPE;
     sdp.ErrorString := "ARN scope " +:+ arnScope +:+
                        " does not match request scope " +:+ scope;
     sdp.ErrorScope := scope |}.

(** [Search] returns a slice of item pointers.  In [searchARN] the one
    element is what [Get] returned, nil included, hence the [option]. *)
Definition searchARN (ctx : Ctx) (scope query : string) (ignoreCache : bool)
  : M State (list (option sdp.Item) * option error) :=
  match ParseARN query with
  | inr err => ret ([], Some (QueryErr (WrapAWSError err)))
  | inl a =>
      let arnScope := FormatScope (arn.AccountID a) (arn.Region a) in
      if negb (String.eqb arnScope scope) then
        ret ([], Some (QueryErr (arnScopeMismatch arnScope scope)))
      else
        let* got := Get ctx scope (ResourceID a) ignoreCache in
        match got with
        | (_, Some err) => ret ([], Some (QueryErr (WrapAWSError err)))
        | (item, None) => ret ([item], None)
        end
  end.

Definition searchCustom (fuel : nat) (ctx : Ctx) (scope query : string)
    (ck : sdpcache.CacheKey) : M State (list (option sdp.Item) * option error) :=
  let* s := gets self in
  let* input := call_InputMapperSearch ctx scope query in
  match input with
  | inr err => ret ([], Some (QueryErr (WrapAWSError err)))
  | inl input =>
      let* described := describe fuel ctx input scope in
      match described with
      | (_, Some err) =>
          let err := QueryErr (WrapAWSError err) in
          run cache_StoreError err (cacheDuration s) ck in
          ret ([], Some err)
      | (items, None) =>
          run forRange items (fun item => cache_StoreItem item (cacheDuration s) ck) in
          ret (map Some items, None)
      end
  end.

Definition Search (fuel : nat) (ctx : Ctx) (scope query : string) (ignoreCache : bool)
  : M State (list (option sdp.Item) * option error) :=
  let* s := gets self in
  let* scope0 := index (Scopes s) 0 in
  if negb (String.eqb scope scope0) then
    ret ([], Some (QueryErr (scopeMismatch scope scope0)))
  else
  let ck := sdpcache.CacheKeyFromParts (Name s) sdp.QueryMethod_SEARCH scope
              (ItemType s) query in
  match InputMapperSearch s with
  | None => searchARN ctx scope query ignoreCache
  | Some _ => searchCustom fuel ctx scope query ck
  end.

Definition Weight (s : DescribeOnlySource) : Z := 100.

(** *** Vocabulary of the statements *)

(** The one scope of the source, [s.Scopes()[0]]. *)
Definition sourceScope (s : DescribeOnlySource) : string :=
  FormatScope (AccountID s) (aws.Region (Config s)).

(** The cache of the source once [ensureCache] has run. *)
Definition theCache (s : DescribeOnlySource) : C :=
  match cache s with
  | Some c => c
  | None => sdpcache.NewCache
  end.

(** The source once a successful [Validate] has run. *)
Definition validated (s : DescribeOnlySource) : DescribeOnlySource :=
  if MaxResultsPerPage s =? 0 then set_MaxResultsPerPage DefaultMaxResultsPerPage s
  else s.

(** [Validate] finds nothing to complain about. *)
Definition wellFormed (s : DescribeOnlySource) : bool :=
  match DescribeFunc s, InputMapperGet s, OutputMapper s with
  | Some _, Some _, Some _ => true
  | _, _, _ => false
  end.

(** The state a validated call leaves: cache [c], upstream [u], trace [t]. *)
Definition leaves (s : DescribeOnlySource) (c : C) (u : U) (t : list Event) : State :=
  {| self := set_cache (Some c) (validated s); upstream := u; trace := t |}.

(** The cache after storing [items] one by one, as the loops of [List] and
    [searchCustom] do. *)
Definition storeItems (items : list sdp.Item) (duration : Z) (ck : sdpcache.CacheKey)
    (c : C) : C :=
  fold_left (fun c item => sdpcache.StoreItem item duration ck c) items c.

(** What a store does to the receiver: nothing when the cache is nil. *)
Definition stored (f : C -> C) (s : DescribeOnlySource) : DescribeOnlySource :=
  match cache s with
  | Some c => set_cache (Some (f c)) s
  | None => s
  end.

(** A page as the engine sees it: the output of [NextPage] and the items
    that [OutputMapper] makes of it. *)
Definition Page : Type := Output * list sdp.Item.

(** The events of fetching and mapping [pages]. *)
Definition pageEvents (scope : string) (input : Input) (pages : list Page) : list Event :=
  flat_map (fun page => [CallNextPage; CallOutputMapper scope input (fst page)]) pages.

(** [Drains s ctx scope input pg u pages u']: from upstream state [u] the
    paginator [pg] yields [pages], each fetched by [NextPage] and mapped by
    [OutputMapper] without error, then has no more pages; the upstream
    state is then [u']. *)
Inductive Drains (s : DescribeOnlySource) (ctx : Ctx) (scope : string) (input : Input)
  : Pg -> U -> list Page -> U -> Prop :=
  | Drains_done (pg : Pg) (u : U) :
      HasMorePages pg = false ->
      Drains s ctx scope input pg u [] u
  | Drains_page (pg pg' : Pg) (u u1 u2 u3 : U) (output : Output)
      (newItems : list sdp.Item) (rest : list Page) outputMapper :
      HasMorePages pg = true ->
      NextPage ctx pg u = (inl output, pg', u1) ->
      OutputMapper s = Some outputMapper ->
      outputMapper ctx (Client s) scope input output u1 = (inl newItems, u2) ->
      Drains s ctx scope input pg' u2 rest u3 ->
      Drains s ctx scope input pg u ((output, newItems) :: rest) u3.

(** [DrainFails s ctx scope input pg u pages err u' events]: the paginator
    yields [pages] without error and then the next [NextPage] or
    [OutputMapper] call fails with [err]. *)
Inductive DrainFails (s : DescribeOnlySource) (ctx : Ctx) (scope : string) (input : Input)
  : Pg -> U -> list Page -> error -> U -> list Event -> Prop :=
  | DrainFails_NextPage (pg pg' : Pg) (u u1 : U) (err : error) :
      HasMorePages pg = true ->
      NextPage ctx pg u = (inr err, pg', u1) ->
      DrainFails s ctx scope input pg u [] err u1 [CallNextPage]
  | DrainFails_OutputMapper (pg pg' : Pg) (u u1 u2 : U) (output : Output)
      (err : error) outputMapper :
      HasMorePages pg = true ->
      NextPage ctx pg u = (inl output, pg', u1) ->
      OutputMapper s = Some outputMapper ->
      outputMapper ctx (Client s) scope input output u1 = (inr err, u2) ->
      DrainFails s ctx scope input pg u [] err u2
        [CallNextPage; CallOutputMapper scope input output]
  | DrainFails_later (pg pg' : Pg) (u u1 u2 u3 : U) (output : Output)
      (newItems : list sdp.Item) (rest : list Page) (err : error)
      (events : list Event) outputMapper :
      HasMorePages pg = true ->
      NextPage ctx pg u = (inl output, pg', u1) ->
      OutputMapper s = Some outputMapper ->
      outputMapper ctx (Client s) scope input output u1 = (inl newItems, u2) ->
      DrainFails s ctx scope input pg' u2 rest err u3 events ->
      DrainFails s ctx scope input pg u ((output, newItems) :: rest) err u3
        ([CallNextPage; CallOutputMapper scope input output] ++ events).

(** The trace of a [Get] that misses the cache and whose three callbacks
    succeed, up to the point where the items are counted. *)
Definition getEvents (s : DescribeOnlySource) (scope query : string) (ignoreCache : bool)
    (input : Input) (output : Output) : list Event :=
  [CacheLookup (Name s) sdp.QueryMethod_GET scope (ItemType s) query ignoreCache;
   CallInputMapperGet scope query;
   CallDescribeFunc input;
   CallOutputMapper scope input output].

(** The trace of a [List] that misses the cache, up to [describe]. *)
Definition listEvents (s : DescribeOnlySource) (scope : string) (ignoreCache : bool)
  : list Event :=
  [CacheLookup (Name s) sdp.QueryMethod_LIST scope (ItemType s) EmptyString ignoreCache;
   CallInputMapperList scope].

(** The events of storing [items] one by one. *)
Definition storeEvents (items : list sdp.Item) (d : Z) (ck : sdpcache.CacheKey)
  : list Event :=
  map (fun item => CacheStoreItem item d ck) items.

Definition noCacheEvent (events : list Event) : Prop :=
  Forall (fun e => isCacheEvent e = false) events.

Definition noCacheLookup (events : list Event) : Prop :=
  Forall (fun e => isCacheLookup e = false) events.

Definition noCacheWrite (events : list Event) : Prop :=
  Forall (fun e => isCacheWrite e = false) events.

Definition noUpstreamCall (events : list Event) : Prop :=
  Forall (fun e => isUpstream e = false) events.

(** The state [st] with the cache of the receiver replaced. *)
Definition recache (c : option C) (st : State) : State :=
  {| self := set_cache c (self st); upstream := upstream st; trace := trace st |}.

(** [describe] only talks to the callbacks and to the paginator: a
    computation is [CallbacksOnly] when, whatever its outcome, it leaves the
    receiver alone, logs no cache event, and does the same whatever the
    cache holds. *)
Definition CallbacksOnly {A : Type} (m : M State A) : Prop :=
  forall (s : DescribeOnlySource) (u : U) (t : list Event) (o : Outcome A) (st' : State),
    m {| self := s; upstream := u; trace := t |} = (o, st') ->
    (exists (u' : U) (events : list Event),
       st' = {| self := s; upstream := u'; trace := t ++ events |} /\
       noCacheEvent events) /\
    (forall c : option C,
       m {| self := set_cache c s; upstream := u; trace := t |} = (o, recache c st')).

End DescribeOnly.


Arguments DescribeOnlySource : clear implicits.
Arguments State : clear implicits.
Arguments Event : clear implicits.
Arguments Page : clear implicits.

(** ** A cache implementation *)

Module modelcache.

(** Modelled from the spec: the result cache.  Package [sdpcache] is a
    dependency of the repository and its code is not part of the sources.
    The spec (sections 3 and 4.2) describes an entry as keyed by source
    name, method, scope, item type and query, holding either a result item
    set or a recorded error, with an expiry; a hit is never returned when
    [ignoreCache] is requested or the entry has expired.  The clock of the
    cache is part of its state and only [Tick] moves it. *)
Inductive Entry : Set :=
  | CachedItems (items : list sdp.Item) (expiry : Z)
  | CachedError (err : error) (expiry : Z).

(** The entries are kept newest first; the newest entry of a key is the
    one that counts. *)
Record ModelCache : Type := {
  now : Z;
  entries : list (sdpcache.CacheKey * Entry)
}.

Definition QueryMethod_eqb (a b : sdp.QueryMethod) : bool :=
  match a, b with
  | sdp.QueryMethod_GET, sdp.QueryMethod_GET
  | sdp.QueryMethod_LIST, sdp.QueryMethod_LIST
  | sdp.QueryMethod_SEARCH, sdp.QueryMethod_SEARCH => true
  | _, _ => false
  end.

Definition CacheKey_eqb (a b : sdpcache.CacheKey) : bool :=
  String.eqb (sdpcache.SourceName a) (sdpcache.SourceName b) &&
  QueryMethod_eqb (sdpcache.Method a) (sdpcache.Method b) &&
  String.eqb (sdpcache.Scope a) (sdpcache.Scope b) &&
  String.eqb (sdpcache.Type_ a) (sdpcache.Type_ b) &&
  String.eqb (sdpcache.Query a) (sdpcache.Query b).

Fixpoint find (ck : sdpcache.CacheKey) (l : list (sdpcache.CacheKey * Entry))
  : option Entry :=
  match l with
  | [] => None
  | (k, e) :: rest => if CacheKey_eqb ck k then Some e else find ck rest
  end.

Definition put (ck : sdpcache.CacheKey) (e : Entry)
    (l : list (sdpcache.CacheKey * Entry)) : list (sdpcache.CacheKey * Entry) :=
  (ck, e) :: l.

Definition NewCache : ModelCache := {| now := 0; entries := [] |}.

Definition Tick (dt : Z) (c : ModelCache) : ModelCache :=
  {| now := now c + dt; entries := entries c |}.

(** A stored error is handed back as a [*sdp.QueryError]. *)
Definition asQueryError (err : error) : sdp.QueryError :=
  match err with
  | QueryErr e => e
  | context_Canceled =>
      {| sdp.ErrorType := sdp.QueryError_OTHER;
         sdp.ErrorString := "context canceled"; sdp.ErrorScope := EmptyString |}
  | context_DeadlineExceeded =>
      {| sdp.ErrorType := sdp.QueryError_OTHER;
         sdp.ErrorString := "context deadline exceeded"; sdp.ErrorScope := EmptyString |}
  | errors_New msg =>
      {| sdp.ErrorType := sdp.QueryError_OTHER;
         sdp.ErrorString := msg; sdp.ErrorScope := EmptyString |}
  end.

Definition miss (ck : sdpcache.CacheKey) : sdpcache.LookupResult :=
  {| sdpcache.cacheHit := false; sdpcache.ck := ck;
     sdpcache.cachedItems := []; sdpcache.qErr := None |}.

Definition Lookup (srcName : string) (method : sdp.QueryMethod)
    (scope typ query : string) (ignoreCache : bool) (c : ModelCache)
  : sdpcache.LookupResult * ModelCache :=
  let ck := sdpcache.CacheKeyFromParts srcName method scope typ query in
  if ignoreCache then (miss ck, c)
  else
    match find ck (entries c) with
    | Some (CachedItems items expiry) =>
        if now c <? expiry then
          ({| sdpcache.cacheHit := true; sdpcache.ck := ck;
              sdpcache.cachedItems := items; sdpcache.qErr := None |}, c)
        else (miss ck, c)
    | Some (CachedError err expiry) =>
        if now c <? expiry then
          ({| sdpcache.cacheHit := true; sdpcache.ck := ck;
              sdpcache.cachedItems := []; sdpcache.qErr := Some (asQueryError err) |}, c)
        else (miss ck, c)
    | None => (miss ck, c)
    end.

(** The items of the live item set under [ck]. *)
Definition liveItems (ck : sdpcache.CacheKey) (c : ModelCache) : list sdp.Item :=
  match find ck (entries c) with
  | Some (CachedItems items expiry) => if now c <? expiry then items else []
  | _ => []
  end.

Definition StoreItem (item : sdp.Item) (duration : Z) (ck : sdpcache.CacheKey)
    (c : ModelCache) : ModelCache :=
  {| now := now c;
     entries := put ck (CachedItems (liveItems ck c ++ [item]) (now c + duration))
                  (entries c) |}.

Definition StoreError (err : error) (duration : Z) (ck : sdpcache.CacheKey)
    (c : ModelCache) : ModelCache :=
  {| now := now c;
     entries := put ck (CachedError err (now c + duration)) (entries c) |}.

End modelcache.

#[global] Instance modelCache (Ctx : Type) : sdpcache.Cache Ctx modelcache.ModelCache := {
  sdpcache.NewCache := modelcache.NewCache;
  sdpcache.Lookup := fun _ => modelcache.Lookup;
  sdpcache.StoreItem := modelcache.StoreItem;
  sdpcache.StoreError := modelcache.StoreError
}.

(** ** Helpers of package [sources] *)

Module util.

(** Cuts [s] at the first [n] occurrences of [sep]
    ([strings.SplitN(s, sep, n+1)]). *)
Fixpoint splitN (sep : Ascii.ascii) (s : string) (n : nat) {struct s} : list string :=
  match s with
  | EmptyString => [EmptyString]
  | String c rest =>
      match n with
      | O => [s]
      | S n' =>
          if Ascii.eqb c sep then EmptyString :: splitN sep rest n'
          else
            match splitN sep rest n with
            | [] => [String c EmptyString]
            | x :: xs => String c x :: xs
            end
      end
  end.

(** Modelled from the spec: [FormatScope], defined in a file of package
    [sources] that is not part of the sources.  Section 6: the scope is
    [{accountID}.{region}] for regional resources and the account id alone
    for global ones. *)
Definition FormatScope (accountID region : string) : string :=
  if String.eqb region EmptyString then accountID
  else accountID +:+ "." +:+ region.

(** Modelled from the spec: [ParseARN], defined in a file of package
    [sources] that is not part of the sources.  An ARN has the six
    colon-separated sections [arn:partition:service:region:account:resource];
    anything else is an error (section 7). *)
Definition ParseARN (arnString : string) : arn.ARN + error :=
  match splitN ":"%char arnString 5 with
  | [prefix; partition; service; region; account; resource] =>
      if String.eqb prefix "arn" then
        inl {| arn.Partition := partition; arn.Service := service;
               arn.Region := region; arn.AccountID := account;
               arn.Resource := resource |}
      else inr (errors_New "arn: invalid prefix")
  | _ => inr (errors_New "arn: not enough sections")
  end.

(** The part of [s] after the first [/] or [:], or all of [s] without one. *)
Fixpoint afterSeparator (s : string) : option string :=
  match s with
  | EmptyString => None
  | String c rest =>
      if (Ascii.eqb c "/"%char || Ascii.eqb c ":"%char)%bool then Some rest
      else afterSeparator rest
  end.

(** Modelled from the spec: [ARN.ResourceID], defined in a file of package
    [sources] that is not part of the sources.  Section 4.4 and the example
    of section 8: the resource-id portion of [resource/abc] is [abc]. *)
Definition ResourceID (a : arn.ARN) : string :=
  match afterSeparator (arn.Resource a) with
  | Some id => id
  | None => arn.Resource a
  end.

(** Modelled from the spec: [WrapAWSError], defined in a file of package
    [sources] that is not part of the sources.  Section 7: a failure that
    is not already one of the structured errors becomes an Other error. *)
Definition WrapAWSError (err : error) : sdp.QueryError :=
  modelcache.asQueryError err.

End util.

(** ** A test source *)

Module Demo.

(** The upstream service counts the calls that reach it; a paginator is the
    list of the pages it has left. *)
Definition Ctx : Type := unit.
Definition ClientT : Type := unit.
Definition Input : Type := string.
Definition Output : Type := list sdp.Item.
Definition Upstream : Type := nat.
Definition Pages : Type := list (Output + error).

#[global] Instance pages : Paginator Ctx Output Upstream Pages := {
  HasMorePages := fun pg => match pg with [] => false | _ :: _ => true end;
  NextPage := fun _ pg u =>
    match pg with
    | [] => (inr (errors_New "no more pages"), [], u)
    | page :: rest => (page, rest, S u)
    end
}.

Definition item (id : string) : sdp.Item :=
  {| sdp.Type_ := "ec2-thing"; sdp.UniqueAttribute := "id";
     sdp.Attributes := [("id", id)]; sdp.Scope := "111111111111.region" |}.

Definition Source (C : Type) : Type :=
  DescribeOnlySource Ctx Input Output ClientT Upstream Pages C.

(** A source whose [DescribeFunc] answers [response] whatever the input. *)
Definition source {C : Type} (response : Output + error)
    (listMapper : option (string -> Upstream -> (Input + error) * Upstream))
    (searchMapper : option (Ctx -> ClientT -> string -> string -> Upstream ->
                            (Input + error) * Upstream))
    (builder : option (ClientT -> Input -> Pages)) (useListForGet : bool)
  : Source C :=
  {| MaxResultsPerPage := 0; ItemType := "ec2-thing"; CacheDuration := 0;
     cache := None;
     DescribeFunc := Some (fun _ _ _ u => (response, S u));
     InputMapperGet := Some (fun _ query u => (inl query, u));
     InputMapperList := listMapper;
     InputMapperSearch := searchMapper;
     PaginatorBuilder := builder;
     OutputMapper := Some (fun _ _ _ _ output u => (inl output, u));
     Config := {| aws.Region := "region" |};
     AccountID := "111111111111";
     Client := tt;
     UseListForGet := useListForGet |}.

Definition listAll : option (string -> Upstream -> (Input + error) * Upstream) :=
  Some (fun _ u => (inl EmptyString, u)).

Definition searchByName
  : option (Ctx -> ClientT -> string -> string -> Upstream -> (Input + error) * Upstream) :=
  Some (fun _ _ _ query u => (inl query, u)).

Definition start {C : Type} (s : Source C)
  : State Ctx Input Output ClientT Upstream Pages C :=
  {| self := s; upstream := 0%nat; trace := [] |}.

Definition threePages : Pages :=
  [inl [item "a"; item "b"]; inl [item "c"; item "d"]; inl [item "e"]].

(** A cache that answers every lookup with a hit that holds no item. *)
Definition emptyHits : sdpcache.Cache Ctx unit :=
  {| sdpcache.NewCache := tt;
     sdpcache.Lookup := fun _ srcName method scope typ query _ c =>
       ({| sdpcache.cacheHit := true;
           sdpcache.ck := sdpcache.CacheKeyFromParts srcName method scope typ query;
           sdpcache.cachedItems := [];
           sdpcache.qErr := None |}, c);
     sdpcache.StoreItem := fun _ _ _ c => c;
     sdpcache.StoreError := fun _ _ _ c => c |}.

Definition ctx : Ctx := tt.

Definition scope : string := "111111111111.region".

(** [DescribeFunc] finds nothing. *)
Definition nothing {C : Type} : Source C := source (inl []) listAll None None false.

(** [DescribeFunc] fails because the context was cancelled. *)
Definition cancelled {C : Type} : Source C :=
  source (inr context_Canceled) listAll None None false.

(** No [InputMapperList]. *)
Definition unlistable {C : Type} : Source C :=
  source (inl [item "a"]) None None None false.

(** Three items, filtered by [Get] itself. *)
Definition listForGet {C : Type} : Source C :=
  source (inl [item "id-1"; item "id-2"; item "id-3"]) listAll None None true.

(** One item, found by default search. *)
Definition single {C : Type} : Source C :=
  source (inl [item "abc"]) listAll None None false.

(** Three pages of two, two and one items. *)
Definition paginated {C : Type} : Source C :=
  source (inl []) listAll None (Some (fun _ _ => threePages)) false.

(** Three pages of which the second fails. *)
Definition brokenPages : Pages :=
  [inl [item "a"; item "b"]; inr (errors_New "page 2 failed"); inl [item "e"]].

Definition broken {C : Type} : Source C :=
  source (inl []) listAll None (Some (fun _ _ => brokenPages)) false.

(** A custom search mapper. *)
Definition searchable {C : Type} : Source C :=
  source (inl [item "a"; item "b"]) listAll searchByName None false.

(** The helpers, as the spec describes them. *)
Definition helpers : Helpers :=
  {| FormatScope := util.FormatScope; ParseARN := util.ParseARN;
     ResourceID := util.ResourceID; WrapAWSError := util.WrapAWSError;
     DefaultMaxResultsPerPage := 100 |}.

End Demo.

(** * More of the code *)

(** ** More of the engine *)

Section MoreOfTheEngine.

Context {Ctx Input Output ClientStruct U Pg C : Type}.
Context {cacheImpl : sdpcache.Cache Ctx C}.
Context {paginatorImpl : Paginator Ctx Output U Pg}.
Context {helpers : Helpers}.

(** The method [Cache]: the cache of the source, initialised if need be. *)
Definition Cache : M (State Ctx Input Output ClientStruct U Pg C) (option C) :=
  run ensureCache in
  gets (fun st => cache (self st)).

(** Everything of a source but the two fields its methods write, the cache
    and [MaxResultsPerPage]. *)
Definition sameConfig (s s' : DescribeOnlySource Ctx Input Output ClientStruct U Pg C)
  : Prop :=
  ItemType s' = ItemType s /\
  CacheDuration s' = CacheDuration s /\
  DescribeFunc s' = DescribeFunc s /\
  InputMapperGet s' = InputMapperGet s /\
  InputMapperList s' = InputMapperList s /\
  InputMapperSearch s' = InputMapperSearch s /\
  PaginatorBuilder s' = PaginatorBuilder s /\
  OutputMapper s' = OutputMapper s /\
  Config s' = Config s /\
  AccountID s' = AccountID s /\
  Client s' = Client s /\
  UseListForGet s' = UseListForGet s.

(** [Keeps J P m]: started on a receiver that satisfies [J], the
    computation [m], whatever its outcome, leaves a receiver that satisfies
    [J], and every event it logs satisfies [P]. *)
Definition Keeps (J : DescribeOnlySource Ctx Input Output ClientStruct U Pg C -> Prop)
    (P : Event Input Output -> Prop) {A : Type}
    (m : M (State Ctx Input Output ClientStruct U Pg C) A) : Prop :=
  forall st o st',
    J (self st) ->
    m st = (o, st') ->
    J (self st') /\
    exists events, trace st' = (trace st ++ events)%list /\ Forall P events.

(** What a [Get] for [query] in [scope] may do on the source [s]: look the
    cache up under the GET key of the query, store for the cache duration
    of the source, and call the three callbacks of a GET. *)
Definition allowedInGet (s : DescribeOnlySource Ctx Input Output ClientStruct U Pg C)
    (scope query : string) (e : Event Input Output) : Prop :=
  match e with
  | CacheLookup srcName method sc typ q _ =>
      srcName = Name s /\ method = sdp.QueryMethod_GET /\ sc = scope /\
      typ = ItemType s /\ q = query
  | CacheStoreItem _ d _ | CacheStoreError _ d _ => d = cacheDuration s
  | CallInputMapperGet sc q => sc = scope /\ q = query
  | CallDescribeFunc _ => True
  | CallOutputMapper sc _ _ => sc = scope
  | CallInputMapperList _ | CallInputMapperSearch _ _
  | CallPaginatorBuilder _ | CallNextPage => False
  end.

(** What a [List] in [scope] may do: look the cache up under the LIST key,
    store for the cache duration, map the input, and describe, through the
    paginator when the source has one and through [DescribeFunc] when not. *)
Definition allowedInList (s : DescribeOnlySource Ctx Input Output ClientStruct U Pg C)
    (scope : string) (e : Event Input Output) : Prop :=
  match e with
  | CacheLookup srcName method sc typ q _ =>
      srcName = Name s /\ method = sdp.QueryMethod_LIST /\ sc = scope /\
      typ = ItemType s /\ q = EmptyString
  | CacheStoreItem _ d _ | CacheStoreError _ d _ => d = cacheDuration s
  | CallInputMapperList sc => sc = scope
  | CallOutputMapper sc _ _ => sc = scope
  | CallDescribeFunc _ => Paginated s = false
  | CallPaginatorBuilder _ | CallNextPage => Paginated s = true
  | CallInputMapperGet _ _ | CallInputMapperSearch _ _ => False
  end.

(** What a [Search] with a custom search mapper may do: map the query,
    describe, and store under the SEARCH key of the query. *)
Definition allowedInCustomSearch
    (s : DescribeOnlySource Ctx Input Output ClientStruct U Pg C)
    (scope query : string) (e : Event Input Output) : Prop :=
  match e with
  | CacheStoreItem _ d ck | CacheStoreError _ d ck =>
      d = cacheDuration s /\
      ck = sdpcache.CacheKeyFromParts (Name s) sdp.QueryMethod_SEARCH scope
             (ItemType s) query
  | CallInputMapperSearch sc q => sc = scope /\ q = query
  | CallOutputMapper sc _ _ => sc = scope
  | CallDescribeFunc _ => Paginated s = false
  | CallPaginatorBuilder _ | CallNextPage => Paginated s = true
  | CacheLookup _ _ _ _ _ _ | CallInputMapperGet _ _ | CallInputMapperList _ => False
  end.

(** [Returns mayTimeOut J m]: started on a receiver that satisfies [J], the
    computation [m] leaves one that satisfies [J] and does not panic; it
    does not run out of fuel either unless [mayTimeOut] is set. *)
Definition Returns (mayTimeOut : bool)
    (J : DescribeOnlySource Ctx Input Output ClientStruct U Pg C -> Prop) {A : Type}
    (m : M (State Ctx Input Output ClientStruct U Pg C) A) : Prop :=
  forall st o st',
    J (self st) ->
    m st = (o, st') ->
    J (self st') /\
    match o with
    | Ok _ => True
    | Panic _ => False
    | OutOfFuel => mayTimeOut = true
    end.

(** An invariant that is not about the cache. *)
Definition cacheBlind
    (J : DescribeOnlySource Ctx Input Output ClientStruct U Pg C -> Prop) : Prop :=
  forall c s, J s -> J (set_cache c s).

(** The error [Validate] returns on [s], if any: the checks are made in the
    order describe func, get input mapper, output mapper. *)
Definition validationError (s : DescribeOnlySource Ctx Input Output ClientStruct U Pg C)
  : option error :=
  match DescribeFunc s, InputMapperGet s, OutputMapper s with
  | None, _, _ => Some (errors_New "source describe func is nil")
  | Some _, None, _ => Some (errors_New "source get input mapper is nil")
  | Some _, Some _, None => Some (errors_New "source output mapper is nil")
  | Some _, Some _, Some _ => None
  end.

End MoreOfTheEngine.

(** ** The capacity-provider paginator (package [ecs]) *)

Module ecs.

(** The request and the response of [DescribeCapacityProviders], as the
    AWS SDK declares them. *)
Module DescribeCapacityProvidersInput.
Record t : Set := {
  CapacityProviders : list string;
  Include : list string;
  MaxResults : option Z;
  NextToken : option string
}.
End DescribeCapacityProvidersInput.

Module types.
(** A capacity provider, by the fields the source reads. *)
Record CapacityProvider : Set := {
  Name : option string;
  AutoScalingGroupArn : option string
}.
End types.

Module DescribeCapacityProvidersOutput.
Record t : Set := {
  CapacityProviders : list types.CapacityProvider;
  NextToken : option string
}.
End DescribeCapacityProvidersOutput.

Section Paginator.

(** The context type and the state of the service behind the client. *)
Context {Ctx U : Type}.

(** The one method of the interface [ECSClient] that the paginator calls;
    the request is passed by pointer. *)
Record ECSClient : Type := {
  DescribeCapacityProviders :
    Ctx -> option DescribeCapacityProvidersInput.t -> U ->
    (DescribeCapacityProvidersOutput.t + error) * U
}.

Record DescribeCapacityProvidersPaginator : Type := {
  client : ECSClient;
  params : DescribeCapacityProvidersInput.t;
  nextToken : option string;
  firstPage : bool
}.

(** [&ecs.DescribeCapacityProvidersInput{}] *)
Definition emptyInput : DescribeCapacityProvidersInput.t :=
  {| DescribeCapacityProvidersInput.CapacityProviders := [];
     DescribeCapacityProvidersInput.Include := [];
     DescribeCapacityProvidersInput.MaxResults := None;
     DescribeCapacityProvidersInput.NextToken := None |}.

Definition NewDescribeCapacityProvidersPaginator (client : ECSClient)
    (params : option DescribeCapacityProvidersInput.t)
  : DescribeCapacityProvidersPaginator :=
  let input := match params with
               | None => emptyInput
               | Some input => input
               end in
  {| client := client;
     params := input;
     firstPage := true;
     nextToken := DescribeCapacityProvidersInput.NextToken input |}.

Definition HasMorePages (p : DescribeCapacityProvidersPaginator) : bool :=
  firstPage p ||
  match nextToken p with
  | Some token => negb (Nat.eqb (String.length token) 0)
  | None => false
  end.

(** [params := *p.params; params.NextToken = p.nextToken] *)
Definition withNextToken (token : option string)
    (params : DescribeCapacityProvidersInput.t) : DescribeCapacityProvidersInput.t :=
  {| DescribeCapacityProvidersInput.CapacityProviders :=
       DescribeCapacityProvidersInput.CapacityProviders params;
     DescribeCapacityProvidersInput.Include :=
       DescribeCapacityProvidersInput.Include params;
     DescribeCapacityProvidersInput.MaxResults :=
       DescribeCapacityProvidersInput.MaxResults params;
     DescribeCapacityProvidersInput.NextToken := token |}.

(** [NextPage] returns the page or the error, and the paginator as the call
    leaves it. *)
Definition NextPage (ctx : Ctx) (p : DescribeCapacityProvidersPaginator) (u : U)
  : (DescribeCapacityProvidersOutput.t + error) * DescribeCapacityProvidersPaginator * U :=
  if negb (HasMorePages p) then
    (inr (errors_New "no more pages available"), p, u)
  else
    let request := withNextToken (nextToken p) (params p) in
    match DescribeCapacityProviders (client p) ctx (Some request) u with
    | (inr err, u') => (inr err, p, u')
    | (inl result, u') =>
        let prevToken := nextToken p in
        let newToken := DescribeCapacityProvidersOutput.NextToken result in
        let newToken :=
          match prevToken, newToken with
          | Some prev, Some next => if String.eqb prev next then None else newToken
          | _, _ => newToken
          end in
        (inl result,
         {| client := client p; params := params p; nextToken := newToken;
            firstPage := false |},
         u')
    end.

(** The token of an answer that makes the paginator go on, after a request
    that carried the token [sent]. *)
Definition continues (sent : option string) (result : DescribeCapacityProvidersOutput.t)
  : option string :=
  match DescribeCapacityProvidersOutput.NextToken result with
  | Some token =>
      if Nat.eqb (String.length token) 0 then None
      else match sent with
           | Some prev => if String.eqb prev token then None else Some token
           | None => Some token
           end
  | None => None
  end.

End Paginator.

Arguments ECSClient : clear implicits.
Arguments DescribeCapacityProvidersPaginator : clear implicits.

Section CapacityProviderSource.

Context {Ctx U C : Type}.

(** [types.CapacityProviderFieldTags] *)
Definition CapacityProviderIncludeFields : list string := ["TAGS"].

(** [NewCapacityProviderSource].  The client, which the constructor makes
    with [ecs.NewFromConfig(config)], is given; so is the output mapper,
    [capacityProviderOutputMapper], whose attributes come from
    [sources.ToAttributesCase], defined in a file of package [sources] that
    is not part of the sources. *)
Definition NewCapacityProviderSource (config : aws.Config) (accountID : string)
    (ecsClient : ECSClient Ctx U)
    (capacityProviderOutputMapper :
       Ctx -> ECSClient Ctx U -> string -> option DescribeCapacityProvidersInput.t ->
       DescribeCapacityProvidersOutput.t -> U -> (list sdp.Item + error) * U)
  : DescribeOnlySource Ctx (option DescribeCapacityProvidersInput.t)
      DescribeCapacityProvidersOutput.t (ECSClient Ctx U) U
      (DescribeCapacityProvidersPaginator Ctx U) C :=
  {| MaxResultsPerPage := 0;
     ItemType := "ecs-capacity-provider";
     CacheDuration := 0;
     cache := None;
     DescribeFunc :=
       Some (fun ctx client input u => DescribeCapacityProviders client ctx input u);
     InputMapperGet :=
       Some (fun scope query u =>
               (inl (Some {| DescribeCapacityProvidersInput.CapacityProviders := [query];
                             DescribeCapacityProvidersInput.Include :=
                               CapacityProviderIncludeFields;
                             DescribeCapacityProvidersInput.MaxResults := None;
                             DescribeCapacityProvidersInput.NextToken := None |}), u));
     InputMapperList :=
       Some (fun scope u =>
               (inl (Some {| DescribeCapacityProvidersInput.CapacityProviders := [];
                             DescribeCapacityProvidersInput.Include :=
                               CapacityProviderIncludeFields;
                             DescribeCapacityProvidersInput.MaxResults := None;
                             DescribeCapacityProvidersInput.NextToken := None |}), u));
     InputMapperSearch := None;
     PaginatorBuilder :=
       Some (fun client params => NewDescribeCapacityProvidersPaginator client params);
     OutputMapper := Some capacityProviderOutputMapper;
     Config := config;
     AccountID := accountID;
     Client := ecsClient;
     UseListForGet := false |}.

End CapacityProviderSource.

End ecs.

#[global] Instance capacityProvidersPaginator (Ctx U : Type)
  : Paginator Ctx ecs.DescribeCapacityProvidersOutput.t U
      (ecs.DescribeCapacityProvidersPaginator Ctx U) := {
  HasMorePages := ecs.HasMorePages;
  NextPage := ecs.NextPage
}.

(** ** Linked item queries (package [sdp-go]) *)

Module links.

Module Query.
Record t : Set := {
  Type_ : string;
  Method : sdp.QueryMethod;
  Query : string;
  Scope : string
}.
End Query.

Module BlastPropagation.
Record t : Set := {
  In_ : bool;
  Out : bool
}.
End BlastPropagation.

Module LinkedItemQuery.
Record t : Set := {
  Query : Query.t;
  BlastPropagation : BlastPropagation.t
}.
End LinkedItemQuery.

End links.

(** ** The launch-template-version and security-group sources (package [ec2]) *)

Module strings.

(** [strings.Split(s, sep)] for a separator of one byte: the pieces of [s]
    between the occurrences of [sep], of which there is always one more
    than there are occurrences. *)
Fixpoint Split (s : string) (sep : Ascii.ascii) : list string :=
  match s with
  | EmptyString => [EmptyString]
  | String c rest =>
      if Ascii.eqb c sep then EmptyString :: Split rest sep
      else
        match Split rest sep with
        | [] => [String c EmptyString]
        | piece :: pieces => String c piece :: pieces
        end
  end.

End strings.

Module fmt.

(** [fmt.Sprintf("%v", n)] for an [int64]: the decimal digits, after a
    minus sign when [n] is negative. *)
Definition Sprint_int64 (n : Z) : string :=
  DecimalString.NilZero.string_of_int (Z.to_int n).

End fmt.

Module ec2.

(** The request of [DescribeLaunchTemplateVersions], by the two fields
    the input mappers set; the others keep their zero value. *)
Module DescribeLaunchTemplateVersionsInput.
Record t : Set := {
  LaunchTemplateId : option string;
  Versions : list string
}.
End DescribeLaunchTemplateVersionsInput.

Definition launchTemplateVersionInputMapperGet (scope query : string)
  : DescribeLaunchTemplateVersionsInput.t + error :=
  let sections := strings.Split query "."%char in
  match sections with
  | [id; version] =>
      inl {| DescribeLaunchTemplateVersionsInput.LaunchTemplateId := Some id;
             DescribeLaunchTemplateVersionsInput.Versions := [version] |}
  | _ => inr (errors_New "input did not have 2 sections")
  end.

Definition launchTemplateVersionInputMapperList (scope : string)
  : DescribeLaunchTemplateVersionsInput.t + error :=
  inl {| DescribeLaunchTemplateVersionsInput.LaunchTemplateId := None;
         DescribeLaunchTemplateVersionsInput.Versions := ["$Latest"; "$Default"] |}.

(** The unique attribute value that [launchTemplateVersionOutputMapper]
    sets on the item of a version: [fmt.Sprintf("%v.%v", *ltv.LaunchTemplateId,
    *ltv.VersionNumber)]. *)
Definition versionIdCombo (LaunchTemplateId : string) (VersionNumber : Z) : string :=
  LaunchTemplateId +:+ "." +:+ fmt.Sprint_int64 VersionNumber.

(** The permissions of a security group (package [types] of the AWS SDK),
    by the fields the source reads. *)
Module types.
Record UserIdGroupPair : Set := {
  GroupId : option string;
  UserId : option string
}.
Record IpPermission : Set := {
  UserIdGroupPairs : list UserIdGroupPair
}.
End types.

Section SecurityGroup.

(** [sources.ParseScope], defined in a file of package [sources] that is
    not part of the sources: the account and the region of a scope, or an
    error.  The links are verified for any such function. *)
Context (ParseScope : string -> (string * string) + error).
Context {helpers : Helpers}.

Definition extractLinkedSecurityGroups (permissions : list types.IpPermission)
    (scope : string) : list links.LinkedItemQuery.t :=
  match ParseScope scope with
  | inr _ => []
  | inl (currentAccount, region) =>
      flat_map
        (fun permission =>
           flat_map
             (fun idGroup =>
                let relatedAccount :=
                  match types.UserId idGroup with
                  | Some userId => userId
                  | None => currentAccount
                  end in
                match types.GroupId idGroup with
                | Some groupId =>
                    [{| links.LinkedItemQuery.Query :=
                          {| links.Query.Type_ := "ec2-security-group";
                             links.Query.Method := sdp.QueryMethod_GET;
                             links.Query.Query := groupId;
                             links.Query.Scope := FormatScope relatedAccount region |};
                        links.LinkedItemQuery.BlastPropagation :=
                          {| links.BlastPropagation.In_ := true;
                             links.BlastPropagation.Out := true |} |}]
                | None => []
                end)
             (types.UserIdGroupPairs permission))
        permissions
  end.

(** The pairs of [permissions], in order. *)
Definition pairsOf (permissions : list types.IpPermission) : list types.UserIdGroupPair :=
  flat_map types.UserIdGroupPairs permissions.

End SecurityGroup.

End ec2.

(** The number of occurrences of the byte [c] in [s]
    ([strings.Count(s, c)]). *)
Fixpoint countByte (c : Ascii.ascii) (s : string) : nat :=
  match s with
  | EmptyString => 0%nat
  | String c' rest => ((if Ascii.eqb c' c then 1 else 0) + countByte c rest)%nat
  end.

(** ** More test sources *)

Module Examples.

(** A test source like [Demo.source], with every callback given. *)
Definition sourceWith {C : Type}
    (describeFunc : option (Demo.Ctx -> Demo.ClientT -> Demo.Input -> Demo.Upstream ->
                            (Demo.Output + error) * Demo.Upstream))
    (inputMapperGet : option (string -> string -> Demo.Upstream ->
                              (Demo.Input + error) * Demo.Upstream))
    (outputMapper : option (Demo.Ctx -> Demo.ClientT -> string -> Demo.Input ->
                            Demo.Output -> Demo.Upstream ->
                            (list sdp.Item + error) * Demo.Upstream))
  : Demo.Source C :=
  {| MaxResultsPerPage := 0; ItemType := "ec2-thing"; CacheDuration := 0;
     cache := None;
     DescribeFunc := describeFunc;
     InputMapperGet := inputMapperGet;
     InputMapperList := Demo.listAll;
     InputMapperSearch := Demo.searchByName;
     PaginatorBuilder := None;
     OutputMapper := outputMapper;
     Config := {| aws.Region := "region" |};
     AccountID := "111111111111";
     Client := tt;
     UseListForGet := false |}.

Definition describeOne
  : Demo.Ctx -> Demo.ClientT -> Demo.Input -> Demo.Upstream ->
    (Demo.Output + error) * Demo.Upstream :=
  fun _ _ _ u => (inl [Demo.item "a"], S u).

Definition mapGet : string -> string -> Demo.Upstream -> (Demo.Input + error) * Demo.Upstream :=
  fun _ query u => (inl query, u).

Definition refuseGet
  : string -> string -> Demo.Upstream -> (Demo.Input + error) * Demo.Upstream :=
  fun _ _ u => (inr (errors_New "bad query"), u).

Definition mapOutput
  : Demo.Ctx -> Demo.ClientT -> string -> Demo.Input -> Demo.Output -> Demo.Upstream ->
    (list sdp.Item + error) * Demo.Upstream :=
  fun _ _ _ _ output u => (inl output, u).

Definition refuseOutput
  : Demo.Ctx -> Demo.ClientT -> string -> Demo.Input -> Demo.Output -> Demo.Upstream ->
    (list sdp.Item + error) * Demo.Upstream :=
  fun _ _ _ _ _ u => (inr (errors_New "bad output"), u).

(** No [DescribeFunc]. *)
Definition noDescribeFunc {C : Type} : Demo.Source C :=
  sourceWith None (Some mapGet) (Some mapOutput).

(** No [OutputMapper]. *)
Definition noOutputMapper {C : Type} : Demo.Source C :=
  sourceWith (Some describeOne) (Some mapGet) None.

(** [InputMapperGet] fails. *)
Definition refusing {C : Type} : Demo.Source C :=
  sourceWith (Some describeOne) (Some refuseGet) (Some mapOutput).

(** [OutputMapper] fails. *)
Definition unmappable {C : Type} : Demo.Source C :=
  sourceWith (Some describeOne) (Some mapGet) (Some refuseOutput).

(** An item with a second attribute, to tell items of one id apart. *)
Definition tagged (id tag : string) : sdp.Item :=
  {| sdp.Type_ := "ec2-thing"; sdp.UniqueAttribute := "id";
     sdp.Attributes := [("id", id); ("tag", tag)];
     sdp.Scope := "111111111111.region" |}.

(** Three items of which the last two have the same id, filtered by [Get]
    itself. *)
Definition twins {C : Type} : Demo.Source C :=
  Demo.source (inl [Demo.item "id-1"; tagged "id-2" "first"; tagged "id-2" "second"])
    Demo.listAll None None true.

(** [DescribeFunc] finds nothing and the cache duration is negative. *)
Definition expiring {C : Type} : Demo.Source C :=
  {| MaxResultsPerPage := 0; ItemType := "ec2-thing"; CacheDuration := -1;
     cache := None;
     DescribeFunc := Some (fun _ _ _ u => (inl [], S u));
     InputMapperGet := Some (fun _ query u => (inl query, u));
     InputMapperList := Demo.listAll;
     InputMapperSearch := None;
     PaginatorBuilder := None;
     OutputMapper := Some (fun _ _ _ _ output u => (inl output, u));
     Config := {| aws.Region := "region" |};
     AccountID := "111111111111";
     Client := tt;
     UseListForGet := false |}.

(** A capacity-provider service that counts the requests it gets. *)
Definition provider (name : string) : ecs.types.CapacityProvider :=
  {| ecs.types.Name := Some name; ecs.types.AutoScalingGroupArn := None |}.

Definition page (token : string) : ecs.DescribeCapacityProvidersOutput.t :=
  {| ecs.DescribeCapacityProvidersOutput.CapacityProviders := [provider token];
     ecs.DescribeCapacityProvidersOutput.NextToken := Some token |}.

(** Every answer carries the token ["t"]. *)
Definition stuck : ecs.ECSClient unit nat :=
  {| ecs.DescribeCapacityProviders := fun _ _ u => (inl (page "t"), S u) |}.

(** The answers carry ["b"] after a request with the token ["a"], and ["a"]
    after any other. *)
Definition alternating : ecs.ECSClient unit nat :=
  {| ecs.DescribeCapacityProviders := fun _ request u =>
       match request with
       | Some request =>
           match ecs.DescribeCapacityProvidersInput.NextToken request with
           | Some token =>
               if String.eqb token "a" then (inl (page "b"), S u)
               else (inl (page "a"), S u)
           | None => (inl (page "a"), S u)
           end
       | None => (inl (page "a"), S u)
       end |}.

(** One item for each provider of the page, named after it. *)
Definition namesOnly
  : unit -> ecs.ECSClient unit nat -> string ->
    option ecs.DescribeCapacityProvidersInput.t -> ecs.DescribeCapacityProvidersOutput.t ->
    nat -> (list sdp.Item + error) * nat :=
  fun _ _ scope _ output u =>
    (inl (map (fun p =>
                 {| sdp.Type_ := "ecs-capacity-provider"; sdp.UniqueAttribute := "name";
                    sdp.Attributes :=
                      [("name", match ecs.types.Name p with
                                | Some name => name
                                | None => EmptyString
                                end)];
                    sdp.Scope := scope |})
            (ecs.DescribeCapacityProvidersOutput.CapacityProviders output)), u).

Definition capacityProviders {C : Type} (client : ecs.ECSClient unit nat)
  : DescribeOnlySource unit (option ecs.DescribeCapacityProvidersInput.t)
      ecs.DescribeCapacityProvidersOutput.t (ecs.ECSClient unit nat) nat
      (ecs.DescribeCapacityProvidersPaginator unit nat) C :=
  ecs.NewCapacityProviderSource {| aws.Region := "region" |} "111111111111" client
    namesOnly.

(** A test source with the input mappers of the launch-template-version
    source, whose service knows no version. *)
Definition launchTemplateVersions {C : Type}
  : DescribeOnlySource Demo.Ctx ec2.DescribeLaunchTemplateVersionsInput.t Demo.Output
      Demo.ClientT Demo.Upstream Demo.Pages C :=
  {| MaxResultsPerPage := 0; ItemType := "ec2-launch-template-version";
     CacheDuration := 0; cache := None;
     DescribeFunc := Some (fun _ _ _ u => (inl [], S u));
     InputMapperGet :=
       Some (fun scope query u => (ec2.launchTemplateVersionInputMapperGet scope query, u));
     InputMapperList :=
       Some (fun scope u => (ec2.launchTemplateVersionInputMapperList scope, u));
     InputMapperSearch := None;
     PaginatorBuilder := None;
     OutputMapper := Some (fun _ _ _ _ output u => (inl output, u));
     Config := {| aws.Region := "region" |};
     AccountID := "111111111111";
     Client := tt;
     UseListForGet := false |}.

End Examples.

(** * Properties of the engine *)

Section Properties.

Context {Ctx Input Output ClientStruct U Pg C : Type}.
Context {cacheImpl : sdpcache.Cache Ctx C}.
Context {paginatorImpl : Paginator Ctx Output U Pg}.

Context {helpers : Helpers}.

Local Abbreviation Source := (DescribeOnlySource Ctx Input Output ClientStruct U Pg C).
Local Abbreviation St := (State Ctx Input Output ClientStruct U Pg C).
Local Abbreviation Ev := (Event Input Output).
Local Abbreviation callbacksOnly :=
  (@CallbacksOnly Ctx Input Output ClientStruct U Pg C _).

(** ** Running the monad *)

Lemma bind_Ok {S A B : Type} (c : M S A) (k : A -> M S B) (st st' : S) (a : A) :
  c st = (Ok a, st') -> bind c k st = k a st'.
Proof. intros H. unfold bind. rewrite H. reflexivity. Qed.

Lemma String_eqb_neq_false (a b : string) : a <> b -> String.eqb a b = false.
Proof. apply String.eqb_neq. Qed.

(** C2: a request for a scope other than the one scope of the source is
    answered by [Get], [List] and [Search] with the same NOSCOPE query error,
    and the state is left as it was: the cache is not looked up, nothing is
    stored, no callback runs and the trace gains no event. *)
Theorem scope_mismatch_is_NOSCOPE_and_leaves_cache_alone
    (st : St) (fuel : nat) (ctx : Ctx) (scope query : string) (ignoreCache : bool) :
  scope <> sourceScope (self st) ->
  exists e : sdp.QueryError,
    sdp.ErrorType e = sdp.QueryError_NOSCOPE /\
    Get ctx scope query ignoreCache st = (Ok (None, Some (QueryErr e)), st) /\
    List fuel ctx scope ignoreCache st = (Ok ([], Some (QueryErr e)), st) /\
    Search fuel ctx scope query ignoreCache st = (Ok ([], Some (QueryErr e)), st).
Proof.
  intros Hne. apply String_eqb_neq_false in Hne.
  exists (scopeMismatch scope (sourceScope (self st))).
  split; [reflexivity|].
  unfold Get, List, Search, bind, gets, index, Scopes; simpl.
  unfold sourceScope in Hne. rewrite Hne. simpl.
  repeat split; reflexivity.
Qed.

(** ** The steps of a run *)

Local Abbreviation mk := (@Build_State Ctx Input Output ClientStruct U Pg C).

Lemma gets_run {A : Type} (f : St -> A) (st : St) : gets f st = (Ok (f st), st).
Proof. reflexivity. Qed.

Lemma index_Scopes_run (s : Source) (st : St) :
  index (Scopes s) 0 st = (Ok (sourceScope s), st).
Proof. reflexivity. Qed.

Lemma Validate_run (s : Source) (u : U) (t : list Ev) :
  wellFormed s = true ->
  Validate (mk s u t) = (Ok None, mk (validated s) u t).
Proof.
  unfold wellFormed, Validate, validated, bind, gets; simpl.
  destruct (DescribeFunc s); [|discriminate].
  destruct (InputMapperGet s) eqn:HG; [|discriminate].
  destruct (OutputMapper s) eqn:HO; [|discriminate].
  intros _.
  destruct (MaxResultsPerPage s =? 0); unfold setSelf, modify, ret; simpl;
    rewrite ?HG, ?HO; reflexivity.
Qed.

Lemma ensureCache_run (s : Source) (u : U) (t : list Ev) :
  ensureCache (mk s u t) = (Ok tt, mk (set_cache (Some (theCache s)) s) u t).
Proof.
  unfold ensureCache, theCache, bind, gets; simpl.
  destruct s as [? ? ? [c|] ? ? ? ? ? ? ? ? ? ?]; reflexivity.
Qed.

Lemma cache_Lookup_run (s : Source) (u : U) (t : list Ev) (ctx : Ctx) (srcName : string)
    (method : sdp.QueryMethod) (scope typ query : string) (ignoreCache : bool)
    (c c' : C) (hit : sdpcache.LookupResult) :
  cache s = Some c ->
  sdpcache.Lookup ctx srcName method scope typ query ignoreCache c = (hit, c') ->
  cache_Lookup ctx srcName method scope typ query ignoreCache (mk s u t) =
  (Ok hit, mk (set_cache (Some c') s) u
             (t ++ [CacheLookup srcName method scope typ query ignoreCache])).
Proof.
  intros Hc HL. unfold cache_Lookup, log, bind, modify, gets; simpl.
  rewrite Hc, HL. reflexivity.
Qed.

Lemma cache_StoreError_run (s : Source) (u : U) (t : list Ev) (err : error) (d : Z)
    (ck : sdpcache.CacheKey) :
  cache_StoreError err d ck (mk s u t) =
  (Ok tt, mk (stored (sdpcache.StoreError err d ck) s) u (t ++ [CacheStoreError err d ck])).
Proof.
  unfold cache_StoreError, stored, log, bind, modify, gets; simpl.
  destruct (cache s); reflexivity.
Qed.

Lemma cache_StoreItem_run (s : Source) (u : U) (t : list Ev) (item : sdp.Item) (d : Z)
    (ck : sdpcache.CacheKey) :
  cache_StoreItem item d ck (mk s u t) =
  (Ok tt, mk (stored (sdpcache.StoreItem item d ck) s) u (t ++ [CacheStoreItem item d ck])).
Proof.
  unfold cache_StoreItem, stored, log, bind, modify, gets; simpl.
  destruct (cache s); reflexivity.
Qed.

Lemma callField_run {F A : Type} (name : string) (e : Ev) (field : Source -> option F)
    (app : F -> U -> A * U) (s : Source) (u : U) (t : list Ev) (f : F) (a : A) (u' : U) :
  field s = Some f ->
  app f u = (a, u') ->
  callField name e field app (mk s u t) = (Ok a, mk s u' (t ++ [e])).
Proof.
  intros Hf Ha. unfold callField, log, upcall, bind, modify, gets; simpl.
  rewrite Hf; simpl. rewrite Ha. reflexivity.
Qed.

Lemma call_InputMapperGet_run (s : Source) (u : U) (t : list Ev) (scope query : string) f r u' :
  InputMapperGet s = Some f ->
  f scope query u = (r, u') ->
  call_InputMapperGet scope query (mk s u t) =
  (Ok r, mk s u' (t ++ [CallInputMapperGet scope query])).
Proof. intros. unfold call_InputMapperGet. erewrite callField_run; eauto. Qed.

Lemma call_InputMapperList_run (s : Source) (u : U) (t : list Ev) (scope : string) f r u' :
  InputMapperList s = Some f ->
  f scope u = (r, u') ->
  call_InputMapperList scope (mk s u t) =
  (Ok r, mk s u' (t ++ [CallInputMapperList scope])).
Proof. intros. unfold call_InputMapperList. erewrite callField_run; eauto. Qed.

Lemma call_InputMapperSearch_run (s : Source) (u : U) (t : list Ev) (ctx : Ctx)
    (scope query : string) f r u' :
  InputMapperSearch s = Some f ->
  f ctx (Client s) scope query u = (r, u') ->
  call_InputMapperSearch ctx scope query (mk s u t) =
  (Ok r, mk s u' (t ++ [CallInputMapperSearch scope query])).
Proof.
  intros. unfold call_InputMapperSearch. rewrite (bind_Ok _ _ _ _ _ (gets_run _ _)).
  erewrite callField_run; eauto.
Qed.

Lemma call_DescribeFunc_run (s : Source) (u : U) (t : list Ev) (ctx : Ctx) (input : Input)
    f r u' :
  DescribeFunc s = Some f ->
  f ctx (Client s) input u = (r, u') ->
  call_DescribeFunc ctx input (mk s u t) = (Ok r, mk s u' (t ++ [CallDescribeFunc input])).
Proof.
  intros. unfold call_DescribeFunc. rewrite (bind_Ok _ _ _ _ _ (gets_run _ _)).
  erewrite callField_run; eauto.
Qed.

Lemma call_OutputMapper_run (s : Source) (u : U) (t : list Ev) (ctx : Ctx) (scope : string)
    (input : Input) (output : Output) f r u' :
  OutputMapper s = Some f ->
  f ctx (Client s) scope input output u = (r, u') ->
  call_OutputMapper ctx scope input output (mk s u t) =
  (Ok r, mk s u' (t ++ [CallOutputMapper scope input output])).
Proof.
  intros. unfold call_OutputMapper. rewrite (bind_Ok _ _ _ _ _ (gets_run _ _)).
  erewrite callField_run; eauto.
Qed.

Lemma call_PaginatorBuilder_run (s : Source) (u : U) (t : list Ev) (input : Input) f :
  PaginatorBuilder s = Some f ->
  call_PaginatorBuilder input (mk s u t) =
  (Ok (f (Client s) input), mk s u (t ++ [CallPaginatorBuilder input])).
Proof.
  intros H. unfold call_PaginatorBuilder, log, bind, modify, gets, ret; simpl.
  rewrite H. reflexivity.
Qed.

Lemma call_NextPage_run (s : Source) (u : U) (t : list Ev) (ctx : Ctx) (pg pg' : Pg) r u' :
  NextPage ctx pg u = (r, pg', u') ->
  call_NextPage ctx pg (mk s u t) = (Ok (r, pg'), mk s u' (t ++ [CallNextPage])).
Proof.
  intros H. unfold call_NextPage, log, upcall, bind, modify; simpl.
  rewrite H. reflexivity.
Qed.

(** The fields that [Validate] and the cache operations leave alone. *)
Lemma validated_fields (s : Source) :
  cache (validated s) = cache s /\
  DescribeFunc (validated s) = DescribeFunc s /\
  InputMapperGet (validated s) = InputMapperGet s /\
  InputMapperList (validated s) = InputMapperList s /\
  OutputMapper (validated s) = OutputMapper s /\
  PaginatorBuilder (validated s) = PaginatorBuilder s /\
  Client (validated s) = Client s.
Proof. unfold validated. destruct (MaxResultsPerPage s =? 0); repeat split. Qed.

Lemma theCache_validated (s : Source) : theCache (validated s) = theCache s.
Proof. unfold theCache. destruct (validated_fields s) as [-> _]. reflexivity. Qed.

Lemma stored_set_cache (f : C -> C) (c : C) (s : Source) :
  stored f (set_cache (Some c) s) = set_cache (Some (f c)) s.
Proof. reflexivity. Qed.

Lemma wellFormed_of (s : Source) describeFunc inputMapperGet outputMapper :
  DescribeFunc s = Some describeFunc ->
  InputMapperGet s = Some inputMapperGet ->
  OutputMapper s = Some outputMapper ->
  wellFormed s = true.
Proof. intros H1 H2 H3. unfold wellFormed. rewrite H1, H2, H3. reflexivity. Qed.

(** Runs the first action of the goal with the given equation. *)
Tactic Notation "step" uconstr(E) :=
  erewrite bind_Ok; [|solve [eapply E; eauto]]; cbv beta iota.

(** The three steps that open [Get] and [List] past the scope check. *)
Lemma enter_run {A : Type} (s : Source) (u : U) (t : list Ev) (ctx : Ctx)
    (method : sdp.QueryMethod) (scope query : string) (ignoreCache : bool)
    (hit : sdpcache.LookupResult) (c1 : C)
    (onError : error -> M St A) (k : sdpcache.LookupResult -> M St A) :
  wellFormed s = true ->
  sdpcache.Lookup ctx (Name s) method scope (ItemType s) query ignoreCache (theCache s)
    = (hit, c1) ->
  (let* err := Validate in
   match err with
   | Some err => onError err
   | None =>
       run ensureCache in
       let* hit := cache_Lookup ctx (Name s) method scope (ItemType s) query ignoreCache in
       k hit
   end) (mk s u t) =
  k hit (leaves s c1 u
           (t ++ [CacheLookup (Name s) method scope (ItemType s) query ignoreCache])).
Proof.
  intros Hwf HL.
  step Validate_run.
  step ensureCache_run.
  erewrite bind_Ok;
    [|eapply cache_Lookup_run; [reflexivity|rewrite theCache_validated; exact HL]].
  reflexivity.
Qed.

Lemma leaves_fields (s : Source) (c : C) :
  let s' := set_cache (Some c) (validated s) in
  DescribeFunc s' = DescribeFunc s /\
  InputMapperGet s' = InputMapperGet s /\
  InputMapperList s' = InputMapperList s /\
  OutputMapper s' = OutputMapper s /\
  PaginatorBuilder s' = PaginatorBuilder s /\
  Client s' = Client s.
Proof.
  destruct (validated_fields s) as (_ & H1 & H2 & H3 & H4 & H5 & H6).
  cbn. auto 10.
Qed.

(** ** One run of [Get] *)

Lemma Get_miss (st : St) (ctx : Ctx) (scope query : string) (ignoreCache : bool)
    describeFunc inputMapperGet outputMapper hit c1 input u1 output u2 items u3 :
  let s := self st in
  scope = sourceScope s ->
  DescribeFunc s = Some describeFunc ->
  InputMapperGet s = Some inputMapperGet ->
  OutputMapper s = Some outputMapper ->
  sdpcache.Lookup ctx (Name s) sdp.QueryMethod_GET scope (ItemType s) query
    ignoreCache (theCache s) = (hit, c1) ->
  sdpcache.qErr hit = None ->
  sdpcache.cacheHit hit = false ->
  inputMapperGet scope query (upstream st) = (inl input, u1) ->
  describeFunc ctx (Client s) input u1 = (inl output, u2) ->
  outputMapper ctx (Client s) scope input output u2 = (inl items, u3) ->
  let found := if UseListForGet s then filterItems query items else items in
  let events := getEvents s scope query ignoreCache input output in
  let d := cacheDuration s in
  let ck := sdpcache.ck hit in
  Get ctx scope query ignoreCache st =
  match found with
  | [] =>
      let qErr := QueryErr (notFound s query) in
      (Ok (None, Some qErr),
       leaves s (sdpcache.StoreError qErr d ck c1) u3
         (trace st ++ events ++ [CacheStoreError qErr d ck]))
  | [item] =>
      (Ok (Some item, None),
       leaves s (sdpcache.StoreItem item d ck c1) u3
         (trace st ++ events ++ [CacheStoreItem item d ck]))
  | _ :: _ :: _ =>
      let qErr := QueryErr (tooManyItems found) in
      (Ok (None, Some qErr),
       leaves s (sdpcache.StoreError qErr d ck c1) u3
         (trace st ++ events ++ [CacheStoreError qErr d ck]))
  end.
Proof.
  destruct st as [s u t]; cbn [self upstream trace].
  intros Hscope HD HG HO HL Hq Hh HiG HdF HoM.
  destruct (leaves_fields s c1) as (FD & FG & _ & FO & _ & FC).
  unfold Get.
  step gets_run. step index_Scopes_run. cbn [self].
  rewrite <- Hscope, String.eqb_refl; cbn [negb].
  erewrite enter_run; [|eapply wellFormed_of; eauto|exact HL].
  rewrite Hq, Hh. unfold leaves.
  erewrite bind_Ok;
    [|eapply call_InputMapperGet_run; [rewrite FG; exact HG|exact HiG]].
  cbv beta iota.
  erewrite bind_Ok;
    [|eapply call_DescribeFunc_run; [rewrite FD; exact HD|rewrite FC; exact HdF]].
  cbv beta iota.
  erewrite bind_Ok;
    [|eapply call_OutputMapper_run; [rewrite FO; exact HO|rewrite FC; exact HoM]].
  cbv beta iota.
  unfold getEvents.
  destruct (if UseListForGet s then filterItems query items else items)
    as [|item [|item' rest]];
    (erewrite bind_Ok; [|first [eapply cache_StoreError_run|eapply cache_StoreItem_run]]);
    rewrite stored_set_cache; cbv beta iota zeta; unfold ret;
    repeat rewrite <- app_assoc; reflexivity.
Qed.

(** ** Draining a paginator *)

Lemma describePages_Drains (s : Source) (ctx : Ctx) (scope : string) (input : Input)
    (pg : Pg) (u u' : U) (pages : list (Page Output)) :
  Drains s ctx scope input pg u pages u' ->
  forall (fuel : nat) (t : list Ev) (items : list sdp.Item),
    (length pages < fuel)%nat ->
    describePages fuel ctx input scope pg items (mk s u t) =
    (Ok ((items ++ concat (map snd pages))%list, None),
     mk s u' (t ++ pageEvents scope input pages)).
Proof.
  induction 1 as [pg u Hmore|pg pg' u u1 u2 u3 output newItems rest om Hmore Hnext Hom Hmap _ IH];
    intros fuel t items Hfuel.
  - destruct fuel as [|fuel]; [cbn in Hfuel; lia|].
    cbn [describePages]. rewrite Hmore. cbn. rewrite !app_nil_r. reflexivity.
  - destruct fuel as [|fuel]; [cbn in Hfuel; lia|].
    cbn [describePages]. rewrite Hmore.
    erewrite bind_Ok; [|eapply call_NextPage_run; exact Hnext].
    cbv beta iota.
    erewrite bind_Ok; [|eapply call_OutputMapper_run; [exact Hom|exact Hmap]].
    cbv beta iota.
    rewrite IH by (cbn in Hfuel; lia).
    cbn [map snd concat pageEvents flat_map fst].
    repeat rewrite <- app_assoc. reflexivity.
Qed.

Lemma describePages_DrainFails (s : Source) (ctx : Ctx) (scope : string) (input : Input)
    (pg : Pg) (u u' : U) (pages : list (Page Output)) (err : error) (events : list Ev) :
  DrainFails s ctx scope input pg u pages err u' events ->
  forall (fuel : nat) (t : list Ev) (items : list sdp.Item),
    (length pages < fuel)%nat ->
    describePages fuel ctx input scope pg items (mk s u t) =
    (Ok ([], Some err), mk s u' (t ++ events)).
Proof.
  induction 1 as [pg pg' u u1 err Hmore Hnext
                 |pg pg' u u1 u2 output err om Hmore Hnext Hom Hmap
                 |pg pg' u u1 u2 u3 output newItems rest err events om
                    Hmore Hnext Hom Hmap _ IH];
    intros fuel t items Hfuel;
    (destruct fuel as [|fuel]; [cbn in Hfuel; lia|]);
    cbn [describePages]; rewrite Hmore;
    (erewrite bind_Ok; [|eapply call_NextPage_run; exact Hnext]);
    cbv beta iota.
  - reflexivity.
  - erewrite bind_Ok; [|eapply call_OutputMapper_run; [exact Hom|exact Hmap]].
    cbv beta iota. unfold ret. repeat rewrite <- app_assoc. reflexivity.
  - erewrite bind_Ok; [|eapply call_OutputMapper_run; [exact Hom|exact Hmap]].
    cbv beta iota.
    rewrite IH by (cbn in Hfuel; lia).
    repeat rewrite <- app_assoc. reflexivity.
Qed.

Lemma count_NextPage_pageEvents (scope : string) (input : Input) (pages : list (Page Output)) :
  length (List.filter isNextPage (pageEvents scope input pages)) = length pages.
Proof.
  induction pages as [|page rest IH]; [reflexivity|].
  cbn. f_equal. exact IH.
Qed.

(** ** One run of [describe] *)

Lemma describe_pages (s : Source) (u u' : U) (t : list Ev) (fuel : nat) (ctx : Ctx)
    (scope : string) (input : Input) (pages : list (Page Output)) builder :
  PaginatorBuilder s = Some builder ->
  Drains s ctx scope input (builder (Client s) input) u pages u' ->
  (length pages < fuel)%nat ->
  describe fuel ctx input scope (mk s u t) =
  (Ok (concat (map snd pages), None),
   mk s u' (t ++ CallPaginatorBuilder input :: pageEvents scope input pages)).
Proof.
  intros Hb Hd Hfuel. unfold describe, Paginated.
  step gets_run. cbn [self]. rewrite Hb.
  erewrite bind_Ok; [|eapply call_PaginatorBuilder_run; exact Hb].
  cbv beta. erewrite describePages_Drains by eassumption.
  repeat rewrite <- app_assoc. reflexivity.
Qed.

Lemma describe_pages_fail (s : Source) (u u' : U) (t : list Ev) (fuel : nat) (ctx : Ctx)
    (scope : string) (input : Input) (pages : list (Page Output)) (err : error)
    (events : list Ev) builder :
  PaginatorBuilder s = Some builder ->
  DrainFails s ctx scope input (builder (Client s) input) u pages err u' events ->
  (length pages < fuel)%nat ->
  describe fuel ctx input scope (mk s u t) =
  (Ok ([], Some err), mk s u' (t ++ CallPaginatorBuilder input :: events)).
Proof.
  intros Hb Hd Hfuel. unfold describe, Paginated.
  step gets_run. cbn [self]. rewrite Hb.
  erewrite bind_Ok; [|eapply call_PaginatorBuilder_run; exact Hb].
  cbv beta. erewrite describePages_DrainFails by eassumption.
  repeat rewrite <- app_assoc. reflexivity.
Qed.

Lemma describe_once_fail (s : Source) (u u' : U) (t : list Ev) (fuel : nat) (ctx : Ctx)
    (scope : string) (input : Input) (err : error) describeFunc :
  PaginatorBuilder s = None ->
  DescribeFunc s = Some describeFunc ->
  describeFunc ctx (Client s) input u = (inr err, u') ->
  describe fuel ctx input scope (mk s u t) =
  (Ok ([], Some err), mk s u' (t ++ [CallDescribeFunc input])).
Proof.
  intros Hb HD Hd. unfold describe, Paginated.
  step gets_run. cbn [self]. rewrite Hb.
  erewrite bind_Ok; [|eapply call_DescribeFunc_run; [exact HD|exact Hd]].
  reflexivity.
Qed.

Lemma describe_once (s : Source) (u u1 u2 : U) (t : list Ev) (fuel : nat) (ctx : Ctx)
    (scope : string) (input : Input) (output : Output) (items : list sdp.Item)
    describeFunc outputMapper :
  PaginatorBuilder s = None ->
  DescribeFunc s = Some describeFunc ->
  OutputMapper s = Some outputMapper ->
  describeFunc ctx (Client s) input u = (inl output, u1) ->
  outputMapper ctx (Client s) scope input output u1 = (inl items, u2) ->
  describe fuel ctx input scope (mk s u t) =
  (Ok (items, None),
   mk s u2 (t ++ [CallDescribeFunc input; CallOutputMapper scope input output])).
Proof.
  intros Hb HD HO Hd Hm. unfold describe, Paginated.
  step gets_run. cbn [self]. rewrite Hb.
  erewrite bind_Ok; [|eapply call_DescribeFunc_run; [exact HD|exact Hd]].
  cbv beta iota.
  erewrite bind_Ok; [|eapply call_OutputMapper_run; [exact HO|exact Hm]].
  cbv beta iota. unfold ret. repeat rewrite <- app_assoc. reflexivity.
Qed.

(** ** Storing a list of items *)

Lemma stored_stored (f g : C -> C) (s : Source) :
  stored g (stored f s) = stored (fun c => g (f c)) s.
Proof. unfold stored. destruct (cache s) eqn:E; cbn; rewrite ?E; reflexivity. Qed.

Lemma stored_ext (f g : C -> C) (s : Source) :
  (forall c, f c = g c) -> stored f s = stored g s.
Proof. intros H. unfold stored. destruct (cache s); [rewrite H|]; reflexivity. Qed.

Lemma stored_id (s : Source) : stored (fun c => c) s = s.
Proof. unfold stored. destruct s as [? ? ? [c|] ? ? ? ? ? ? ? ? ? ?]; reflexivity. Qed.

Lemma forRange_StoreItem (items : list sdp.Item) (d : Z) (ck : sdpcache.CacheKey)
    (s : Source) (u : U) (t : list Ev) :
  forRange items (fun item => cache_StoreItem item d ck) (mk s u t) =
  (Ok tt, mk (stored (storeItems items d ck) s) u (t ++ storeEvents items d ck)).
Proof.
  revert s t. induction items as [|item rest IH]; intros s t.
  - cbn. rewrite stored_id, app_nil_r. reflexivity.
  - cbn [forRange]. erewrite bind_Ok; [|eapply cache_StoreItem_run].
    cbv beta. rewrite IH, stored_stored. cbn [storeEvents map].
    repeat rewrite <- app_assoc. reflexivity.
Qed.

(** ** [describe] and the cache *)

Lemma call_NextPage_eq (s : Source) (u : U) (t : list Ev) (ctx : Ctx) (pg : Pg) :
  call_NextPage ctx pg (mk s u t) =
  (Ok (fst (fst (NextPage ctx pg u)), snd (fst (NextPage ctx pg u))),
   mk s (snd (NextPage ctx pg u)) (t ++ [CallNextPage])).
Proof.
  unfold call_NextPage, log, upcall, bind, modify; simpl.
  destruct (NextPage ctx pg u) as [[r pg'] u']. reflexivity.
Qed.

Lemma callField_eq {F A : Type} (name : string) (e : Ev) (field : Source -> option F)
    (app : F -> U -> A * U) (s : Source) (u : U) (t : list Ev) :
  callField name e field app (mk s u t) =
  match field s with
  | None => (Panic ("nil func " +:+ name), mk s u t)
  | Some f => (Ok (fst (app f u)), mk s (snd (app f u)) (t ++ [e]))
  end.
Proof.
  unfold callField, log, upcall, bind, modify, gets, panic; simpl.
  destruct (field s) as [f|]; [|reflexivity]. simpl.
  destruct (app f u). reflexivity.
Qed.

Lemma CallbacksOnly_ret {A : Type} (a : A) : callbacksOnly (ret a).
Proof.
  intros s u t o st' H. inversion H; subst. split; [|reflexivity].
  exists u, []. rewrite app_nil_r. split; [reflexivity|constructor].
Qed.

Lemma CallbacksOnly_timeout {A : Type} : callbacksOnly (@timeout St A).
Proof.
  intros s u t o st' H. inversion H; subst. split; [|reflexivity].
  exists u, []. rewrite app_nil_r. split; [reflexivity|constructor].
Qed.

Lemma CallbacksOnly_bind {A B : Type} (m : M St A) (k : A -> M St B) :
  callbacksOnly m -> (forall a, callbacksOnly (k a)) -> callbacksOnly (bind m k).
Proof.
  intros Hm Hk s u t o st' H. unfold bind in *.
  destruct (m (mk s u t)) as [o1 st1] eqn:E1.
  destruct (Hm _ _ _ _ _ E1) as [(u1 & ev1 & -> & Hev1) Hc1].
  assert (Hrest : forall c : option C,
            m (mk (set_cache c s) u t) = (o1, mk (set_cache c s) u1 (t ++ ev1)))
    by (intros c; rewrite Hc1; reflexivity).
  destruct o1 as [a|msg|].
  - destruct (Hk a _ _ _ _ _ H) as [(u2 & ev2 & -> & Hev2) Hc2]. split.
    + exists u2, (ev1 ++ ev2)%list. rewrite app_assoc. split; [reflexivity|].
      apply Forall_app; split; assumption.
    + intros c. rewrite Hrest. apply Hc2.
  - inversion H; subst. split; [eauto|]. intros c. rewrite Hrest. reflexivity.
  - inversion H; subst. split; [eauto|]. intros c. rewrite Hrest. reflexivity.
Qed.

(** Reading a field that the cache operations do not write. *)
Lemma CallbacksOnly_self {A B : Type} (f : Source -> A) (k : A -> M St B) :
  (forall c s, f (set_cache c s) = f s) ->
  (forall a, callbacksOnly (k a)) ->
  callbacksOnly (bind (gets self) (fun s => k (f s))).
Proof.
  intros Hf Hk s u t o st' H. unfold bind, gets in *; cbn [self] in *.
  destruct (Hk _ _ _ _ _ _ H) as [Hst Hc]. split; [exact Hst|].
  intros c. rewrite Hf. apply Hc.
Qed.

Lemma CallbacksOnly_callField {F A : Type} (name : string) (e : Ev)
    (field : Source -> option F) (app : F -> U -> A * U) :
  isCacheEvent e = false ->
  (forall c s, field (set_cache c s) = field s) ->
  callbacksOnly (callField name e field app).
Proof.
  intros He Hf s u t o st' H. rewrite callField_eq in H. split.
  - destruct (field s); inversion H; subst.
    + eexists _, [e]. split; [reflexivity|]. repeat constructor. exact He.
    + exists u, []. rewrite app_nil_r. split; [reflexivity|constructor].
  - intros c. rewrite callField_eq, Hf.
    destruct (field s); inversion H; subst; reflexivity.
Qed.

Lemma CallbacksOnly_call_OutputMapper ctx scope input output :
  callbacksOnly (call_OutputMapper ctx scope input output).
Proof.
  unfold call_OutputMapper.
  apply (CallbacksOnly_self (fun s => Client s)
           (fun cl => callField "OutputMapper" (CallOutputMapper scope input output)
                        OutputMapper (fun f => f ctx cl scope input output)));
    [reflexivity|].
  intros cl. apply CallbacksOnly_callField; reflexivity.
Qed.

Lemma CallbacksOnly_call_DescribeFunc ctx input :
  callbacksOnly (call_DescribeFunc ctx input).
Proof.
  unfold call_DescribeFunc.
  apply (CallbacksOnly_self (fun s => Client s)
           (fun cl => callField "DescribeFunc" (CallDescribeFunc input)
                        DescribeFunc (fun f => f ctx cl input)));
    [reflexivity|].
  intros cl. apply CallbacksOnly_callField; reflexivity.
Qed.

Lemma CallbacksOnly_call_NextPage ctx pg : callbacksOnly (call_NextPage ctx pg).
Proof.
  intros s u t o st' H. rewrite call_NextPage_eq in H. inversion H; subst. split.
  - eexists _, [CallNextPage]. split; [reflexivity|]. repeat constructor.
  - intros c. rewrite call_NextPage_eq. reflexivity.
Qed.

Lemma CallbacksOnly_call_PaginatorBuilder input :
  callbacksOnly (call_PaginatorBuilder input).
Proof.
  intros s u t o st' H.
  unfold call_PaginatorBuilder, log, bind, gets, modify, ret, panic in *;
    cbn [self upstream trace] in *.
  change (PaginatorBuilder (set_cache _ s)) with (PaginatorBuilder s).
  destruct (PaginatorBuilder s); inversion H; subst; split.
  - eexists _, [CallPaginatorBuilder input]. split; [reflexivity|]. repeat constructor.
  - intros c. reflexivity.
  - exists u, []. rewrite app_nil_r. split; [reflexivity|constructor].
  - intros c. reflexivity.
Qed.

Lemma CallbacksOnly_describePages fuel ctx input scope :
  forall pg items, callbacksOnly (describePages fuel ctx input scope pg items).
Proof.
  induction fuel as [|fuel IH]; intros pg items; cbn [describePages].
  - apply CallbacksOnly_timeout.
  - destruct (HasMorePages pg); [|apply CallbacksOnly_ret].
    apply CallbacksOnly_bind; [apply CallbacksOnly_call_NextPage|].
    intros [[output|err] pg']; [|apply CallbacksOnly_ret].
    apply CallbacksOnly_bind; [apply CallbacksOnly_call_OutputMapper|].
    intros [newItems|err]; [apply IH|apply CallbacksOnly_ret].
Qed.

Lemma CallbacksOnly_describe fuel ctx input scope :
  callbacksOnly (describe fuel ctx input scope).
Proof.
  unfold describe.
  apply (CallbacksOnly_self Paginated
           (fun paginated : bool =>
              if paginated then
                let* paginator := call_PaginatorBuilder input in
                describePages fuel ctx input scope paginator []
              else
                let* output := call_DescribeFunc ctx input in
                match output with
                | inr err => ret ([], Some err)
                | inl output =>
                    let* items := call_OutputMapper ctx scope input output in
                    match items with
                    | inr err => ret ([], Some err)
                    | inl items => ret (items, None)
                    end
                end)); [reflexivity|].
  intros [|].
  - apply CallbacksOnly_bind; [apply CallbacksOnly_call_PaginatorBuilder|].
    intros pg. apply CallbacksOnly_describePages.
  - apply CallbacksOnly_bind; [apply CallbacksOnly_call_DescribeFunc|].
    intros [output|err]; [|apply CallbacksOnly_ret].
    apply CallbacksOnly_bind; [apply CallbacksOnly_call_OutputMapper|].
    intros [items|err]; apply CallbacksOnly_ret.
Qed.

(** ** [Get] answered by the cache, and [Get] with a failing callback *)

Lemma Get_lookup_error (st : St) (ctx : Ctx) (scope query : string) (ignoreCache : bool)
    hit c1 e :
  let s := self st in
  scope = sourceScope s ->
  wellFormed s = true ->
  sdpcache.Lookup ctx (Name s) sdp.QueryMethod_GET scope (ItemType s) query
    ignoreCache (theCache s) = (hit, c1) ->
  sdpcache.qErr hit = Some e ->
  Get ctx scope query ignoreCache st =
  (Ok (None, Some (QueryErr e)),
   leaves s c1 (upstream st)
     (trace st ++ [CacheLookup (Name s) sdp.QueryMethod_GET scope (ItemType s)
                     query ignoreCache])).
Proof.
  destruct st as [s u t]; cbn [self upstream trace].
  intros Hscope Hwf HL Hq.
  unfold Get.
  step gets_run. step index_Scopes_run. cbn [self].
  rewrite <- Hscope, String.eqb_refl; cbn [negb].
  erewrite enter_run; [|exact Hwf|exact HL].
  rewrite Hq. reflexivity.
Qed.

Lemma Get_hit (st : St) (ctx : Ctx) (scope query : string) (ignoreCache : bool) hit c1 :
  let s := self st in
  scope = sourceScope s ->
  wellFormed s = true ->
  sdpcache.Lookup ctx (Name s) sdp.QueryMethod_GET scope (ItemType s) query
    ignoreCache (theCache s) = (hit, c1) ->
  sdpcache.qErr hit = None ->
  sdpcache.cacheHit hit = true ->
  Get ctx scope query ignoreCache st =
  (Ok (head (sdpcache.cachedItems hit), None),
   leaves s c1 (upstream st)
     (trace st ++ [CacheLookup (Name s) sdp.QueryMethod_GET scope (ItemType s)
                     query ignoreCache])).
Proof.
  destruct st as [s u t]; cbn [self upstream trace].
  intros Hscope Hwf HL Hq Hh.
  unfold Get.
  step gets_run. step index_Scopes_run. cbn [self].
  rewrite <- Hscope, String.eqb_refl; cbn [negb].
  erewrite enter_run; [|exact Hwf|exact HL].
  rewrite Hq, Hh. destruct (sdpcache.cachedItems hit); reflexivity.
Qed.

Lemma Get_DescribeFunc_error (st : St) (ctx : Ctx) (scope query : string)
    (ignoreCache : bool) describeFunc inputMapperGet outputMapper hit c1 input u1 err u2 :
  let s := self st in
  scope = sourceScope s ->
  DescribeFunc s = Some describeFunc ->
  InputMapperGet s = Some inputMapperGet ->
  OutputMapper s = Some outputMapper ->
  sdpcache.Lookup ctx (Name s) sdp.QueryMethod_GET scope (ItemType s) query
    ignoreCache (theCache s) = (hit, c1) ->
  sdpcache.qErr hit = None ->
  sdpcache.cacheHit hit = false ->
  inputMapperGet scope query (upstream st) = (inl input, u1) ->
  describeFunc ctx (Client s) input u1 = (inr err, u2) ->
  let wrapped := QueryErr (WrapAWSError err) in
  Get ctx scope query ignoreCache st =
  (Ok (None, Some wrapped),
   leaves s (sdpcache.StoreError wrapped (cacheDuration s) (sdpcache.ck hit) c1) u2
     (trace st ++
      [CacheLookup (Name s) sdp.QueryMethod_GET scope (ItemType s) query ignoreCache;
       CallInputMapperGet scope query;
       CallDescribeFunc input;
       CacheStoreError wrapped (cacheDuration s) (sdpcache.ck hit)])).
Proof.
  destruct st as [s u t]; cbn [self upstream trace].
  intros Hscope HD HG HO HL Hq Hh HiG HdF.
  destruct (leaves_fields s c1) as (FD & FG & _ & FO & _ & FC).
  unfold Get.
  step gets_run. step index_Scopes_run. cbn [self].
  rewrite <- Hscope, String.eqb_refl; cbn [negb].
  erewrite enter_run; [|eapply wellFormed_of; eauto|exact HL].
  rewrite Hq, Hh. unfold leaves.
  erewrite bind_Ok;
    [|eapply call_InputMapperGet_run; [rewrite FG; exact HG|exact HiG]].
  cbv beta iota.
  erewrite bind_Ok;
    [|eapply call_DescribeFunc_run; [rewrite FD; exact HD|rewrite FC; exact HdF]].
  cbv beta iota zeta.
  erewrite bind_Ok; [|eapply cache_StoreError_run].
  rewrite stored_set_cache. unfold ret.
  repeat rewrite <- app_assoc. reflexivity.
Qed.

(** C10 (as the code has it): when [Lookup] reports a hit with no cached
    item, [Get] returns a nil item together with the error that [Lookup]
    reports: that error when there is one, which is how a cached error
    comes back, and a nil error when there is none; nothing but the lookup
    has happened. *)
Theorem Get_hit_without_items_returns_nil_and_the_error_of_Lookup
    (st : St) (ctx : Ctx) (scope query : string) (ignoreCache : bool)
    (hit : sdpcache.LookupResult) (c1 : C) :
  let s := self st in
  scope = sourceScope s ->
  wellFormed s = true ->
  sdpcache.Lookup ctx (Name s) sdp.QueryMethod_GET scope (ItemType s) query
    ignoreCache (theCache s) = (hit, c1) ->
  sdpcache.cacheHit hit = true ->
  sdpcache.cachedItems hit = [] ->
  Get ctx scope query ignoreCache st =
  (Ok (None,
       match sdpcache.qErr hit with
       | Some qErr => Some (QueryErr qErr)
       | None => None
       end),
   leaves s c1 (upstream st)
     (trace st ++ [CacheLookup (Name s) sdp.QueryMethod_GET scope (ItemType s)
                     query ignoreCache])).
Proof.
  intros s Hscope Hwf HL Hh Hitems.
  destruct (sdpcache.qErr hit) as [qErr|] eqn:Hq.
  - exact (Get_lookup_error st ctx scope query ignoreCache hit c1 qErr Hscope Hwf HL Hq).
  - rewrite (Get_hit st ctx scope query ignoreCache hit c1 Hscope Hwf HL Hq Hh).
    rewrite Hitems. reflexivity.
Qed.

(** ** The filter of [UseListForGet] *)

Lemma filterItems_spec (query : string) (items : list sdp.Item) :
  (filterItems query items = [] /\
   forall item, In item items -> sdp.UniqueAttributeValue item <> query) \/
  (exists before item after,
     items = (before ++ item :: after)%list /\
     Forall (fun earlier => sdp.UniqueAttributeValue earlier <> query) before /\
     sdp.UniqueAttributeValue item = query /\
     filterItems query items = [item]).
Proof.
  induction items as [|item rest IH]; cbn [filterItems].
  - left. split; [reflexivity|]. intros item [].
  - destruct (String.eqb (sdp.UniqueAttributeValue item) query) eqn:E.
    + right. exists [], item, rest. apply String.eqb_eq in E.
      split; [reflexivity|]. split; [constructor|]. split; [exact E|reflexivity].
    + apply String.eqb_neq in E.
      destruct IH as [[H0 Hall]|(before & found & after & Hsplit & Hbefore & Hq & Hf)].
      * left. split; [exact H0|]. intros i [<-|Hi]; [exact E|exact (Hall i Hi)].
      * right. exists (item :: before), found, after.
        split; [rewrite Hsplit; reflexivity|].
        split; [constructor; assumption|]. split; assumption.
Qed.

(** C9: under [UseListForGet] the filter keeps at most one item, the first
    of the mapped list whose unique attribute value is the query.  So a
    [Get] that reaches the filter either stores and returns that first
    match, whatever comes after it in the list, other matches included, or
    stores and returns the NOTFOUND error because no mapped item has that
    value; the more-than-one-item error does not arise. *)
Theorem UseListForGet_returns_the_first_match_or_NOTFOUND
    (st : St) (ctx : Ctx) (scope query : string) (ignoreCache : bool)
    describeFunc inputMapperGet outputMapper hit c1 input u1 output u2 items u3 :
  let s := self st in
  UseListForGet s = true ->
  scope = sourceScope s ->
  DescribeFunc s = Some describeFunc ->
  InputMapperGet s = Some inputMapperGet ->
  OutputMapper s = Some outputMapper ->
  sdpcache.Lookup ctx (Name s) sdp.QueryMethod_GET scope (ItemType s) query
    ignoreCache (theCache s) = (hit, c1) ->
  sdpcache.qErr hit = None ->
  sdpcache.cacheHit hit = false ->
  inputMapperGet scope query (upstream st) = (inl input, u1) ->
  describeFunc ctx (Client s) input u1 = (inl output, u2) ->
  outputMapper ctx (Client s) scope input output u2 = (inl items, u3) ->
  let events := getEvents s scope query ignoreCache input output in
  let d := cacheDuration s in
  let ck := sdpcache.ck hit in
  (length (filterItems query items) <= 1)%nat /\
  ((exists before item after,
      items = (before ++ item :: after)%list /\
      Forall (fun earlier => sdp.UniqueAttributeValue earlier <> query) before /\
      sdp.UniqueAttributeValue item = query /\
      Get ctx scope query ignoreCache st =
      (Ok (Some item, None),
       leaves s (sdpcache.StoreItem item d ck c1) u3
         (trace st ++ events ++ [CacheStoreItem item d ck]))) \/
   ((forall item, In item items -> sdp.UniqueAttributeValue item <> query) /\
    sdp.ErrorType (notFound s query) = sdp.QueryError_NOTFOUND /\
    Get ctx scope query ignoreCache st =
    (Ok (None, Some (QueryErr (notFound s query))),
     leaves s (sdpcache.StoreError (QueryErr (notFound s query)) d ck c1) u3
       (trace st ++ events ++ [CacheStoreError (QueryErr (notFound s query)) d ck])))).
Proof.
  intros s Hlist Hscope HD HG HO HL Hq Hh HiG HdF HoM events d ck.
  pose proof (Get_miss st ctx scope query ignoreCache _ _ _ _ _ _ _ _ _ _ _
                Hscope HD HG HO HL Hq Hh HiG HdF HoM) as Hrun.
  cbv zeta in Hrun. fold s in Hrun. rewrite Hlist in Hrun.
  destruct (filterItems_spec query items)
    as [[H0 Hall]|(before & item & after & Hsplit & Hbefore & Hu & Hf)].
  - rewrite H0 in *. split; [cbn; lia|]. right. auto.
  - rewrite Hf in *. split; [cbn; lia|]. left. exists before, item, after. auto.
Qed.

(** ** One run of [List] *)

Lemma List_answered_by_cache (st : St) (fuel : nat) (ctx : Ctx) (scope : string)
    (ignoreCache : bool) inputMapperList hit c1 :
  let s := self st in
  scope = sourceScope s ->
  InputMapperList s = Some inputMapperList ->
  wellFormed s = true ->
  sdpcache.Lookup ctx (Name s) sdp.QueryMethod_LIST scope (ItemType s) EmptyString
    ignoreCache (theCache s) = (hit, c1) ->
  (sdpcache.qErr hit <> None \/ sdpcache.cacheHit hit = true) ->
  List fuel ctx scope ignoreCache st =
  (Ok (match sdpcache.qErr hit with
       | Some e => ([], Some (QueryErr e))
       | None => (sdpcache.cachedItems hit, None)
       end),
   leaves s c1 (upstream st)
     (trace st ++ [CacheLookup (Name s) sdp.QueryMethod_LIST scope (ItemType s)
                     EmptyString ignoreCache])).
Proof.
  destruct st as [s u t]; cbn [self upstream trace].
  intros Hscope HL Hwf Hlook Hans.
  unfold List.
  step gets_run. step index_Scopes_run. cbn [self].
  rewrite <- Hscope, String.eqb_refl; cbn [negb]. rewrite HL.
  erewrite enter_run; [|exact Hwf|exact Hlook].
  destruct (sdpcache.qErr hit) as [e|]; [reflexivity|].
  destruct Hans as [Hne|Hh]; [congruence|]. rewrite Hh. reflexivity.
Qed.

Lemma List_miss (st : St) (fuel : nat) (ctx : Ctx) (scope : string) (ignoreCache : bool)
    inputMapperList hit c1 input u1 described u2 t2 :
  let s := self st in
  scope = sourceScope s ->
  InputMapperList s = Some inputMapperList ->
  wellFormed s = true ->
  sdpcache.Lookup ctx (Name s) sdp.QueryMethod_LIST scope (ItemType s) EmptyString
    ignoreCache (theCache s) = (hit, c1) ->
  sdpcache.qErr hit = None ->
  sdpcache.cacheHit hit = false ->
  inputMapperList scope (upstream st) = (inl input, u1) ->
  describe fuel ctx input scope
    (leaves s c1 u1 (trace st ++ listEvents s scope ignoreCache))
    = (Ok described, leaves s c1 u2 t2) ->
  let d := cacheDuration s in
  let ck := sdpcache.ck hit in
  List fuel ctx scope ignoreCache st =
  match described with
  | (_, Some err) =>
      let wrapped := QueryErr (WrapAWSError err) in
      (Ok ([], Some wrapped),
       leaves s (sdpcache.StoreError wrapped d ck c1) u2
         (t2 ++ [CacheStoreError wrapped d ck]))
  | (items, None) =>
      (Ok (items, None),
       leaves s (storeItems items d ck c1) u2 (t2 ++ storeEvents items d ck))
  end.
Proof.
  destruct st as [s u t]; cbn [self upstream trace].
  intros Hscope HL Hwf Hlook Hq Hh Him Hd.
  destruct (leaves_fields s c1) as (_ & _ & FL & _).
  unfold List.
  step gets_run. step index_Scopes_run. cbn [self].
  rewrite <- Hscope, String.eqb_refl; cbn [negb]. rewrite HL.
  erewrite enter_run; [|exact Hwf|exact Hlook].
  rewrite Hq, Hh. unfold leaves in *.
  erewrite bind_Ok;
    [|eapply call_InputMapperList_run; [rewrite FL; exact HL|exact Him]].
  cbv beta iota.
  unfold listEvents in Hd. rewrite <- app_assoc. cbn [app].
  erewrite bind_Ok; [|exact Hd].
  cbv beta iota zeta. destruct described as [items [err|]].
  - erewrite bind_Ok; [|eapply cache_StoreError_run]. reflexivity.
  - erewrite bind_Ok; [|eapply forRange_StoreItem]. reflexivity.
Qed.

(** C6 (as the code has it): on a source without [InputMapperList], [List]
    fails before the cache is looked up and before any callback runs; the
    error is a NOTFOUND query error whose message says that list is not
    supported for the item type of the source. *)
Theorem List_without_InputMapperList_fails_fast
    (st : St) (fuel : nat) (ctx : Ctx) (scope : string) (ignoreCache : bool) :
  let s := self st in
  scope = sourceScope s ->
  InputMapperList s = None ->
  exists e : sdp.QueryError,
    List fuel ctx scope ignoreCache st = (Ok ([], Some (QueryErr e)), st) /\
    sdp.ErrorType e = sdp.QueryError_NOTFOUND /\
    sdp.ErrorString e = "list is not supported for " +:+ ItemType s +:+ " resources".
Proof.
  destruct st as [s u t]; cbn [self].
  intros Hscope HL. exists (listUnsupported s).
  split; [|split; reflexivity].
  unfold List.
  step gets_run. step index_Scopes_run. cbn [self].
  rewrite <- Hscope, String.eqb_refl; cbn [negb]. rewrite HL. reflexivity.
Qed.

(** ** Pagination *)

Lemma Drains_leaves (s : Source) (c : C) ctx scope input pg u pages u' :
  Drains s ctx scope input pg u pages u' ->
  Drains (set_cache (Some c) (validated s)) ctx scope input pg u pages u'.
Proof.
  destruct (leaves_fields s c) as (_ & _ & _ & FO & _ & FC).
  induction 1; econstructor; eauto.
  - rewrite FO. eassumption.
  - rewrite FC. eassumption.
Qed.

Lemma DrainFails_leaves (s : Source) (c : C) ctx scope input pg u pages err u' events :
  DrainFails s ctx scope input pg u pages err u' events ->
  DrainFails (set_cache (Some c) (validated s)) ctx scope input pg u pages err u' events.
Proof.
  destruct (leaves_fields s c) as (_ & _ & _ & FO & _ & FC).
  induction 1.
  - econstructor 1; eauto.
  - econstructor 2; eauto; [rewrite FO|rewrite FC]; eassumption.
  - econstructor 3; eauto; [rewrite FO|rewrite FC]; eassumption.
Qed.

Lemma DrainFails_noCacheEvent (s : Source) ctx scope input pg u pages err u' events :
  DrainFails s ctx scope input pg u pages err u' events -> noCacheEvent events.
Proof. induction 1; repeat constructor. assumption. Qed.

(** C4: on a cache miss of [List] with a paginated source, [describe]
    fetches pages while [HasMorePages] holds.  When every [NextPage] and
    [OutputMapper] call succeeds, [describe] and [List] return the items of
    the pages concatenated in page order, [NextPage] having run once per
    page, and [List] stores them.  When a [NextPage] or [OutputMapper] call
    fails after any number of good pages, [describe] returns the error with
    no item, and [List] returns the wrapped error with no item and stores
    that error and none of the items mapped so far. *)
Theorem paginated_List_drains_every_page_or_fails_whole
    (st : St) (fuel : nat) (ctx : Ctx) (scope : string) (ignoreCache : bool)
    builder inputMapperList hit c1 input u1 (pages : list (Page Output)) :
  let s := self st in
  scope = sourceScope s ->
  InputMapperList s = Some inputMapperList ->
  wellFormed s = true ->
  PaginatorBuilder s = Some builder ->
  sdpcache.Lookup ctx (Name s) sdp.QueryMethod_LIST scope (ItemType s) EmptyString
    ignoreCache (theCache s) = (hit, c1) ->
  sdpcache.qErr hit = None ->
  sdpcache.cacheHit hit = false ->
  inputMapperList scope (upstream st) = (inl input, u1) ->
  (length pages < fuel)%nat ->
  let paginator := builder (Client s) input in
  let t1 := (trace st ++ listEvents s scope ignoreCache)%list in
  let d := cacheDuration s in
  let ck := sdpcache.ck hit in
  (forall u2,
     Drains s ctx scope input paginator u1 pages u2 ->
     let items := concat (map snd pages) in
     let t2 := (t1 ++ CallPaginatorBuilder input :: pageEvents scope input pages)%list in
     describe fuel ctx input scope (leaves s c1 u1 t1)
       = (Ok (items, None), leaves s c1 u2 t2) /\
     List fuel ctx scope ignoreCache st
       = (Ok (items, None),
          leaves s (storeItems items d ck c1) u2 (t2 ++ storeEvents items d ck)) /\
     length (List.filter isNextPage
               (CallPaginatorBuilder input :: pageEvents scope input pages))
       = length pages) /\
  (forall err u2 events,
     DrainFails s ctx scope input paginator u1 pages err u2 events ->
     let wrapped := QueryErr (WrapAWSError err) in
     let t2 := (t1 ++ CallPaginatorBuilder input :: events)%list in
     describe fuel ctx input scope (leaves s c1 u1 t1)
       = (Ok ([], Some err), leaves s c1 u2 t2) /\
     List fuel ctx scope ignoreCache st
       = (Ok ([], Some wrapped),
          leaves s (sdpcache.StoreError wrapped d ck c1) u2
            (t2 ++ [CacheStoreError wrapped d ck])) /\
     noCacheEvent events).
Proof.
  intros s Hscope HL Hwf Hb Hlook Hq Hh Him Hfuel paginator t1 d ck.
  destruct (leaves_fields s c1) as (_ & _ & _ & _ & FP & FC).
  split.
  - intros u2 Hd items t2.
    assert (Hdesc : describe fuel ctx input scope (leaves s c1 u1 t1)
                    = (Ok (items, None), leaves s c1 u2 t2)).
    { unfold leaves. eapply describe_pages;
        [rewrite FP; exact Hb|rewrite FC; apply Drains_leaves; exact Hd|exact Hfuel]. }
    split; [exact Hdesc|]. split.
    + rewrite (List_miss st fuel ctx scope ignoreCache _ _ _ _ _ _ _ _
                 Hscope HL Hwf Hlook Hq Hh Him Hdesc).
      reflexivity.
    + cbn [List.filter isNextPage]. apply count_NextPage_pageEvents.
  - intros err u2 events Hd wrapped t2.
    assert (Hdesc : describe fuel ctx input scope (leaves s c1 u1 t1)
                    = (Ok ([], Some err), leaves s c1 u2 t2)).
    { unfold leaves. eapply describe_pages_fail;
        [rewrite FP; exact Hb|rewrite FC; apply DrainFails_leaves; exact Hd|exact Hfuel]. }
    split; [exact Hdesc|]. split.
    + rewrite (List_miss st fuel ctx scope ignoreCache _ _ _ _ _ _ _ _
                 Hscope HL Hwf Hlook Hq Hh Him Hdesc).
      reflexivity.
    + eapply DrainFails_noCacheEvent; exact Hd.
Qed.

(** ** [Search] *)

Lemma Search_enter (st : St) (fuel : nat) (ctx : Ctx) (scope query : string)
    (ignoreCache : bool) :
  let s := self st in
  scope = sourceScope s ->
  Search fuel ctx scope query ignoreCache st =
  match InputMapperSearch s with
  | None => searchARN ctx scope query ignoreCache st
  | Some _ =>
      searchCustom fuel ctx scope query
        (sdpcache.CacheKeyFromParts (Name s) sdp.QueryMethod_SEARCH scope (ItemType s) query)
        st
  end.
Proof.
  destruct st as [s u t]; cbn [self]. intros Hscope.
  unfold Search.
  step gets_run. step index_Scopes_run. cbn [self].
  rewrite <- Hscope, String.eqb_refl; cbn [negb].
  destruct (InputMapperSearch s); reflexivity.
Qed.

(** C3: on a source without [InputMapperSearch], [Search] parses the query
    as an ARN.  A query that does not parse gives the wrapped parse error as
    an ordinary result (no panic) and [Get] is not called; an ARN whose
    account and region form another scope than the requested one gives a
    NOSCOPE error and [Get] is not called; otherwise [Search] calls [Get]
    with the resource id of the ARN and returns the one-element list of the
    item [Get] returned, or the wrapped error of [Get]. *)
Theorem default_Search_parses_the_ARN_and_delegates_to_Get
    (st : St) (fuel : nat) (ctx : Ctx) (scope query : string) (ignoreCache : bool) :
  let s := self st in
  scope = sourceScope s ->
  InputMapperSearch s = None ->
  (forall err,
     ParseARN query = inr err ->
     Search fuel ctx scope query ignoreCache st
       = (Ok ([], Some (QueryErr (WrapAWSError err))), st)) /\
  (forall a,
     ParseARN query = inl a ->
     FormatScope (arn.AccountID a) (arn.Region a) <> scope ->
     exists e : sdp.QueryError,
       sdp.ErrorType e = sdp.QueryError_NOSCOPE /\
       Search fuel ctx scope query ignoreCache st = (Ok ([], Some (QueryErr e)), st)) /\
  (forall a,
     ParseARN query = inl a ->
     FormatScope (arn.AccountID a) (arn.Region a) = scope ->
     (forall item st',
        Get ctx scope (ResourceID a) ignoreCache st = (Ok (item, None), st') ->
        Search fuel ctx scope query ignoreCache st = (Ok ([item], None), st')) /\
     (forall item err st',
        Get ctx scope (ResourceID a) ignoreCache st = (Ok (item, Some err), st') ->
        Search fuel ctx scope query ignoreCache st
          = (Ok ([], Some (QueryErr (WrapAWSError err))), st'))).
Proof.
  intros s Hscope Hnone.
  pose proof (Search_enter st fuel ctx scope query ignoreCache Hscope) as HS.
  cbv zeta in HS. fold s in HS. rewrite Hnone in HS.
  split; [|split].
  - intros err Hp. rewrite HS. unfold searchARN. rewrite Hp. reflexivity.
  - intros a Hp Hne. apply String_eqb_neq_false in Hne.
    exists (arnScopeMismatch (FormatScope (arn.AccountID a) (arn.Region a)) scope).
    split; [reflexivity|].
    rewrite HS. unfold searchARN. rewrite Hp, Hne. reflexivity.
  - intros a Hp Heq. split.
    + intros item st' HG. rewrite HS. unfold searchARN.
      rewrite Hp, Heq, String.eqb_refl; cbn [negb].
      erewrite bind_Ok; [|exact HG]. reflexivity.
    + intros item err st' HG. rewrite HS. unfold searchARN.
      rewrite Hp, Heq, String.eqb_refl; cbn [negb].
      erewrite bind_Ok; [|exact HG]. reflexivity.
Qed.

Lemma searchCustom_mapper_error (s : Source) (u u1 : U) (t : list Ev) (fuel : nat)
    (ctx : Ctx) (scope query : string) (ck : sdpcache.CacheKey) inputMapperSearch err :
  InputMapperSearch s = Some inputMapperSearch ->
  inputMapperSearch ctx (Client s) scope query u = (inr err, u1) ->
  searchCustom fuel ctx scope query ck (mk s u t) =
  (Ok ([], Some (QueryErr (WrapAWSError err))),
   mk s u1 (t ++ [CallInputMapperSearch scope query])).
Proof.
  intros Hm He. unfold searchCustom.
  step gets_run.
  erewrite bind_Ok; [|eapply call_InputMapperSearch_run; [exact Hm|exact He]].
  reflexivity.
Qed.

Lemma searchCustom_described (s : Source) (u u1 u2 : U) (t t2 : list Ev) (fuel : nat)
    (ctx : Ctx) (scope query : string) (ck : sdpcache.CacheKey)
    inputMapperSearch input described :
  InputMapperSearch s = Some inputMapperSearch ->
  inputMapperSearch ctx (Client s) scope query u = (inl input, u1) ->
  describe fuel ctx input scope (mk s u1 (t ++ [CallInputMapperSearch scope query]))
    = (Ok described, mk s u2 t2) ->
  let d := cacheDuration s in
  searchCustom fuel ctx scope query ck (mk s u t) =
  match described with
  | (_, Some err) =>
      let wrapped := QueryErr (WrapAWSError err) in
      (Ok ([], Some wrapped),
       mk (stored (sdpcache.StoreError wrapped d ck) s) u2
          (t2 ++ [CacheStoreError wrapped d ck]))
  | (items, None) =>
      (Ok (map Some items, None),
       mk (stored (storeItems items d ck) s) u2 (t2 ++ storeEvents items d ck))
  end.
Proof.
  intros Hm He Hd. unfold searchCustom.
  step gets_run. cbn [self].
  erewrite bind_Ok; [|eapply call_InputMapperSearch_run; [exact Hm|exact He]].
  cbv beta iota.
  erewrite bind_Ok; [|exact Hd].
  cbv beta iota zeta. destruct described as [items [err|]].
  - erewrite bind_Ok; [|eapply cache_StoreError_run]. reflexivity.
  - erewrite bind_Ok; [|eapply forRange_StoreItem]. reflexivity.
Qed.

Lemma noCacheEvent_noCacheLookup (events : list Ev) :
  noCacheEvent events -> noCacheLookup events.
Proof.
  intros H. eapply Forall_impl; [exact H|].
  intros [] He; try reflexivity; discriminate He.
Qed.

Lemma noCacheLookup_storeEvents (items : list sdp.Item) (d : Z) (ck : sdpcache.CacheKey) :
  noCacheLookup (storeEvents items d ck : list Ev).
Proof. induction items; constructor; [reflexivity|assumption]. Qed.

Lemma searchCustom_shape (s : Source) (u : U) (t : list Ev) (fuel : nat) (ctx : Ctx)
    (scope query : string) (ck : sdpcache.CacheKey) inputMapperSearch o st' :
  InputMapperSearch s = Some inputMapperSearch ->
  searchCustom fuel ctx scope query ck (mk s u t) = (o, st') ->
  (exists events,
     trace st' = (t ++ CallInputMapperSearch scope query :: events)%list /\
     noCacheLookup events) /\
  (forall c, fst (searchCustom fuel ctx scope query ck (mk (set_cache c s) u t)) = o).
Proof.
  intros Hm Hrun.
  destruct (inputMapperSearch ctx (Client s) scope query u) as [[input|err] u1] eqn:He.
  - destruct (describe fuel ctx input scope
                (mk s u1 (t ++ [CallInputMapperSearch scope query]))) as [o1 st1] eqn:Hd.
    destruct (CallbacksOnly_describe _ _ _ _ _ _ _ _ _ Hd)
      as [(u2 & events & -> & Hev) Hre].
    destruct o1 as [described|msg|].
    + rewrite (searchCustom_described s u u1 u2 t _ fuel ctx scope query ck _ _ _ Hm He Hd)
        in Hrun.
      split.
      * destruct described as [items [err|]]; inversion Hrun; subst; cbn [trace].
        -- exists (events ++ [CacheStoreError (QueryErr (WrapAWSError err))
                               (cacheDuration s) ck])%list.
           split; [repeat rewrite <- app_assoc; reflexivity|].
           apply Forall_app. split; [apply noCacheEvent_noCacheLookup; exact Hev|].
           repeat constructor.
        -- exists (events ++ storeEvents items (cacheDuration s) ck)%list.
           split; [repeat rewrite <- app_assoc; reflexivity|].
           apply Forall_app. split; [apply noCacheEvent_noCacheLookup; exact Hev|].
           apply noCacheLookup_storeEvents.
      * intros c.
        erewrite (searchCustom_described (set_cache c s) u u1 u2 t _ fuel ctx scope query ck
                    _ _ _ Hm He (Hre c)).
        change (cacheDuration (set_cache c s)) with (cacheDuration s).
        destruct described as [items [err|]]; inversion Hrun; reflexivity.
    + unfold searchCustom in *.
      rewrite (bind_Ok _ _ _ _ _ (gets_run _ _)) in Hrun. cbv beta in Hrun.
      erewrite bind_Ok in Hrun; [|eapply call_InputMapperSearch_run; [exact Hm|exact He]].
      cbv beta iota in Hrun. unfold bind at 1 in Hrun. rewrite Hd in Hrun.
      inversion Hrun; subst. split.
      * exists events. split; [repeat rewrite <- app_assoc; reflexivity|].
        apply noCacheEvent_noCacheLookup; exact Hev.
      * intros c. rewrite (bind_Ok _ _ _ _ _ (gets_run _ _)). cbv beta.
        erewrite bind_Ok; [|eapply call_InputMapperSearch_run; [exact Hm|exact He]].
        cbv beta iota. unfold bind at 1. rewrite (Hre c). reflexivity.
    + unfold searchCustom in *.
      rewrite (bind_Ok _ _ _ _ _ (gets_run _ _)) in Hrun. cbv beta in Hrun.
      erewrite bind_Ok in Hrun; [|eapply call_InputMapperSearch_run; [exact Hm|exact He]].
      cbv beta iota in Hrun. unfold bind at 1 in Hrun. rewrite Hd in Hrun.
      inversion Hrun; subst. split.
      * exists events. split; [repeat rewrite <- app_assoc; reflexivity|].
        apply noCacheEvent_noCacheLookup; exact Hev.
      * intros c. rewrite (bind_Ok _ _ _ _ _ (gets_run _ _)). cbv beta.
        erewrite bind_Ok; [|eapply call_InputMapperSearch_run; [exact Hm|exact He]].
        cbv beta iota. unfold bind at 1. rewrite (Hre c). reflexivity.
  - rewrite (searchCustom_mapper_error s u u1 t fuel ctx scope query ck _ _ Hm He) in Hrun.
    inversion Hrun; subst. split.
    + exists []. split; [reflexivity|constructor].
    + intros c.
      rewrite (searchCustom_mapper_error (set_cache c s) u u1 t fuel ctx scope query ck
                 _ _ Hm He).
      reflexivity.
Qed.

(** C8: on a source with an [InputMapperSearch], [Search] never looks the
    cache up: whatever the outcome, the first event of the call is the call
    of [InputMapperSearch] and no later event is a lookup, and the outcome
    is the same whatever the cache holds.  An error of [InputMapperSearch]
    is returned wrapped, with nothing stored.  Otherwise [describe] runs:
    its items are returned and stored one by one under the key made of the
    source name, SEARCH, the scope, the item type and the query, and its
    error is returned wrapped and stored under that key. *)
Theorem custom_Search_never_reads_the_cache
    (st : St) (fuel : nat) (ctx : Ctx) (scope query : string) (ignoreCache : bool)
    inputMapperSearch :
  let s := self st in
  scope = sourceScope s ->
  InputMapperSearch s = Some inputMapperSearch ->
  let ck := sdpcache.CacheKeyFromParts (Name s) sdp.QueryMethod_SEARCH scope
              (ItemType s) query in
  let d := cacheDuration s in
  let t1 := (trace st ++ [CallInputMapperSearch scope query])%list in
  (forall o st',
     Search fuel ctx scope query ignoreCache st = (o, st') ->
     exists events,
       trace st' = (trace st ++ CallInputMapperSearch scope query :: events)%list /\
       noCacheLookup events) /\
  (forall c,
     fst (Search fuel ctx scope query ignoreCache (recache c st))
     = fst (Search fuel ctx scope query ignoreCache st)) /\
  (forall err u1,
     inputMapperSearch ctx (Client s) scope query (upstream st) = (inr err, u1) ->
     Search fuel ctx scope query ignoreCache st
     = (Ok ([], Some (QueryErr (WrapAWSError err))), mk s u1 t1)) /\
  (forall input u1 items u2 t2,
     inputMapperSearch ctx (Client s) scope query (upstream st) = (inl input, u1) ->
     describe fuel ctx input scope (mk s u1 t1) = (Ok (items, None), mk s u2 t2) ->
     Search fuel ctx scope query ignoreCache st
     = (Ok (map Some items, None),
        mk (stored (storeItems items d ck) s) u2 (t2 ++ storeEvents items d ck))) /\
  (forall input u1 items err u2 t2,
     inputMapperSearch ctx (Client s) scope query (upstream st) = (inl input, u1) ->
     describe fuel ctx input scope (mk s u1 t1) = (Ok (items, Some err), mk s u2 t2) ->
     let wrapped := QueryErr (WrapAWSError err) in
     Search fuel ctx scope query ignoreCache st
     = (Ok ([], Some wrapped),
        mk (stored (sdpcache.StoreError wrapped d ck) s) u2
           (t2 ++ [CacheStoreError wrapped d ck]))).
Proof.
  destruct st as [s u t]; cbn [self upstream trace].
  intros Hscope Hm.
  pose proof (Search_enter (mk s u t) fuel ctx scope query ignoreCache Hscope) as HS.
  cbv zeta in HS; cbn [self] in HS. rewrite Hm in HS.
  split; [|split; [|split; [|split]]].
  - intros o st' Hrun. rewrite HS in Hrun.
    exact (proj1 (searchCustom_shape _ _ _ _ _ _ _ _ _ _ _ Hm Hrun)).
  - intros c. unfold recache; cbn [self upstream trace].
    rewrite (Search_enter (mk (set_cache c s) u t) fuel ctx scope query ignoreCache Hscope).
    cbn [self]. change (InputMapperSearch (set_cache c s)) with (InputMapperSearch s).
    rewrite Hm, HS.
    destruct (searchCustom fuel ctx scope query
                (sdpcache.CacheKeyFromParts (Name s) sdp.QueryMethod_SEARCH scope
                   (ItemType s) query) (mk s u t)) as [o st'] eqn:Hrun.
    exact (proj2 (searchCustom_shape _ _ _ _ _ _ _ _ _ _ _ Hm Hrun) c).
  - intros err u1 He. rewrite HS.
    eapply searchCustom_mapper_error; eassumption.
  - intros input u1 items u2 t2 He Hd. rewrite HS.
    erewrite searchCustom_described by eassumption. reflexivity.
  - intros input u1 items err u2 t2 He Hd. rewrite HS.
    erewrite searchCustom_described by eassumption. reflexivity.
Qed.

(** ** A failing upstream call *)

(** C5 (as the code has it): when [DescribeFunc] returns an error, a context
    cancellation error among others, [Get], an unpaginated [List] and an
    unpaginated custom [Search] return that error wrapped, store no item,
    and store the wrapped error once under the key of the call. *)
Theorem upstream_error_is_returned_wrapped_and_stored
    (st : St) (fuel : nat) (ctx : Ctx) (scope query : string) (ignoreCache : bool)
    describeFunc outputMapper inputMapperGet (err : error) :
  let s := self st in
  scope = sourceScope s ->
  DescribeFunc s = Some describeFunc ->
  InputMapperGet s = Some inputMapperGet ->
  OutputMapper s = Some outputMapper ->
  let wrapped := QueryErr (WrapAWSError err) in
  let d := cacheDuration s in
  (forall hit c1 input u1 u2,
     sdpcache.Lookup ctx (Name s) sdp.QueryMethod_GET scope (ItemType s) query
       ignoreCache (theCache s) = (hit, c1) ->
     sdpcache.qErr hit = None ->
     sdpcache.cacheHit hit = false ->
     inputMapperGet scope query (upstream st) = (inl input, u1) ->
     describeFunc ctx (Client s) input u1 = (inr err, u2) ->
     Get ctx scope query ignoreCache st =
     (Ok (None, Some wrapped),
      leaves s (sdpcache.StoreError wrapped d (sdpcache.ck hit) c1) u2
        (trace st ++
         [CacheLookup (Name s) sdp.QueryMethod_GET scope (ItemType s) query ignoreCache;
          CallInputMapperGet scope query;
          CallDescribeFunc input;
          CacheStoreError wrapped d (sdpcache.ck hit)]))) /\
  (forall inputMapperList hit c1 input u1 u2,
     InputMapperList s = Some inputMapperList ->
     PaginatorBuilder s = None ->
     sdpcache.Lookup ctx (Name s) sdp.QueryMethod_LIST scope (ItemType s) EmptyString
       ignoreCache (theCache s) = (hit, c1) ->
     sdpcache.qErr hit = None ->
     sdpcache.cacheHit hit = false ->
     inputMapperList scope (upstream st) = (inl input, u1) ->
     describeFunc ctx (Client s) input u1 = (inr err, u2) ->
     List fuel ctx scope ignoreCache st =
     (Ok ([], Some wrapped),
      leaves s (sdpcache.StoreError wrapped d (sdpcache.ck hit) c1) u2
        (trace st ++ listEvents s scope ignoreCache ++
         [CallDescribeFunc input; CacheStoreError wrapped d (sdpcache.ck hit)]))) /\
  (forall inputMapperSearch input u1 u2,
     InputMapperSearch s = Some inputMapperSearch ->
     PaginatorBuilder s = None ->
     inputMapperSearch ctx (Client s) scope query (upstream st) = (inl input, u1) ->
     describeFunc ctx (Client s) input u1 = (inr err, u2) ->
     let ck := sdpcache.CacheKeyFromParts (Name s) sdp.QueryMethod_SEARCH scope
                 (ItemType s) query in
     Search fuel ctx scope query ignoreCache st =
     (Ok ([], Some wrapped),
      mk (stored (sdpcache.StoreError wrapped d ck) s) u2
        (trace st ++
         [CallInputMapperSearch scope query; CallDescribeFunc input;
          CacheStoreError wrapped d ck]))).
Proof.
  destruct st as [s u t]; cbn [self upstream trace].
  intros Hscope HD HG HO.
  pose proof (wellFormed_of s _ _ _ HD HG HO) as Hwf.
  split; [|split].
  - intros hit c1 input u1 u2 HL Hq Hh Hi Hd.
    exact (Get_DescribeFunc_error (mk s u t) ctx scope query ignoreCache _ _ _ _ _ _ _ _ _
             Hscope HD HG HO HL Hq Hh Hi Hd).
  - intros inputMapperList hit c1 input u1 u2 HL Hb Hlook Hq Hh Hi Hd.
    destruct (leaves_fields s c1) as (FD & _ & _ & _ & FP & FC).
    erewrite (List_miss (mk s u t) fuel ctx scope ignoreCache _ _ _ _ _ _ _ _
                Hscope HL Hwf Hlook Hq Hh Hi).
    2:{ unfold leaves. cbn [self upstream trace]. eapply describe_once_fail;
          [rewrite FP; exact Hb|rewrite FD; exact HD|rewrite FC; exact Hd]. }
    cbv beta iota zeta. cbn [self trace]. repeat rewrite <- app_assoc. reflexivity.
  - intros inputMapperSearch input u1 u2 Hm Hb Hi Hd.
    pose proof (Search_enter (mk s u t) fuel ctx scope query ignoreCache Hscope) as HS.
    cbv zeta in HS; cbn [self] in HS. rewrite Hm in HS. rewrite HS.
    erewrite searchCustom_described; [|exact Hm|exact Hi|].
    2:{ eapply describe_once_fail; [exact Hb|exact HD|exact Hd]. }
    cbv beta iota zeta. repeat rewrite <- app_assoc. reflexivity.
Qed.

(** ** A second call on the state the first one left *)

Lemma validated_config (s : Source) :
  ItemType (validated s) = ItemType s /\
  AccountID (validated s) = AccountID s /\
  Config (validated s) = Config s /\
  CacheDuration (validated s) = CacheDuration s /\
  UseListForGet (validated s) = UseListForGet s /\
  InputMapperSearch (validated s) = InputMapperSearch s.
Proof. unfold validated. destruct (MaxResultsPerPage s =? 0); repeat split. Qed.

Lemma validated_idem (s : Source) : validated (validated s) = validated s.
Proof.
  unfold validated. destruct (MaxResultsPerPage s =? 0) eqn:E; cbn.
  - destruct (DefaultMaxResultsPerPage =? 0); reflexivity.
  - rewrite E. reflexivity.
Qed.

Lemma validated_set_cache (c : option C) (s : Source) :
  validated (set_cache c s) = set_cache c (validated s).
Proof.
  unfold validated. cbn [MaxResultsPerPage set_cache].
  destruct (MaxResultsPerPage s =? 0); reflexivity.
Qed.

(** The source a validated call leaves behaves like the one it found. *)
Lemma left_source (s : Source) (c : C) :
  let s' := set_cache (Some c) (validated s) in
  sourceScope s' = sourceScope s /\
  Name s' = Name s /\
  ItemType s' = ItemType s /\
  cacheDuration s' = cacheDuration s /\
  wellFormed s' = wellFormed s /\
  theCache s' = c /\
  validated s' = s'.
Proof.
  destruct (validated_config s) as (HT & HA & HC & HD & _ & _).
  destruct (validated_fields s) as (_ & FD & FG & _ & FO & _ & _).
  cbv zeta. unfold sourceScope, Name, cacheDuration, wellFormed, theCache.
  cbn [ItemType AccountID Config CacheDuration DescribeFunc InputMapperGet OutputMapper
       cache set_cache].
  rewrite HT, HA, HC, HD, FD, FG, FO.
  repeat split.
  rewrite validated_set_cache, validated_idem. reflexivity.
Qed.

Lemma leaves_left (s : Source) (c c' : C) (u : U) (t : list Ev) :
  leaves (set_cache (Some c) (validated s)) c' u t = leaves s c' u t.
Proof.
  unfold leaves. rewrite validated_set_cache, validated_idem. reflexivity.
Qed.

Lemma Validate_run_fail (s : Source) (u : U) (t : list Ev) :
  wellFormed s = false ->
  exists err s', Validate (mk s u t) = (Ok (Some err), mk s' u t).
Proof.
  unfold wellFormed, Validate, bind, gets; cbn [self].
  destruct (DescribeFunc s); [|intros _; eexists _, _; reflexivity].
  destruct (MaxResultsPerPage s =? 0); unfold setSelf, modify, ret; cbn;
    (destruct (InputMapperGet s); [|intros _; eexists _, _; reflexivity]);
    (destruct (OutputMapper s); [discriminate|intros _; eexists _, _; reflexivity]).
Qed.

(** [List] up to [describe], whatever [describe] does then. *)
Lemma List_miss_bind (st : St) (fuel : nat) (ctx : Ctx) (scope : string)
    (ignoreCache : bool) inputMapperList hit c1 input u1 :
  let s := self st in
  scope = sourceScope s ->
  InputMapperList s = Some inputMapperList ->
  wellFormed s = true ->
  sdpcache.Lookup ctx (Name s) sdp.QueryMethod_LIST scope (ItemType s) EmptyString
    ignoreCache (theCache s) = (hit, c1) ->
  sdpcache.qErr hit = None ->
  sdpcache.cacheHit hit = false ->
  inputMapperList scope (upstream st) = (inl input, u1) ->
  List fuel ctx scope ignoreCache st =
  bind (describe fuel ctx input scope)
    (fun described =>
       match described with
       | (_, Some err) =>
           let err := QueryErr (WrapAWSError err) in
           run cache_StoreError err (cacheDuration s) (sdpcache.ck hit) in
           ret ([], Some err)
       | (items, None) =>
           run forRange items
                 (fun item => cache_StoreItem item (cacheDuration s) (sdpcache.ck hit)) in
           ret (items, None)
       end)
    (leaves s c1 u1 (trace st ++ listEvents s scope ignoreCache)).
Proof.
  destruct st as [s u t]; cbn [self upstream trace].
  intros Hscope HL Hwf Hlook Hq Hh Him.
  destruct (leaves_fields s c1) as (_ & _ & FL & _).
  unfold List.
  step gets_run. step index_Scopes_run. cbn [self].
  rewrite <- Hscope, String.eqb_refl; cbn [negb]. rewrite HL.
  erewrite enter_run; [|exact Hwf|exact Hlook].
  rewrite Hq, Hh. unfold leaves in *.
  erewrite bind_Ok;
    [|eapply call_InputMapperList_run; [rewrite FL; exact HL|exact Him]].
  cbv beta iota.
  unfold listEvents. rewrite <- app_assoc. reflexivity.
Qed.

Lemma List_mapper_error (st : St) (fuel : nat) (ctx : Ctx) (scope : string)
    (ignoreCache : bool) inputMapperList hit c1 err u1 :
  let s := self st in
  scope = sourceScope s ->
  InputMapperList s = Some inputMapperList ->
  wellFormed s = true ->
  sdpcache.Lookup ctx (Name s) sdp.QueryMethod_LIST scope (ItemType s) EmptyString
    ignoreCache (theCache s) = (hit, c1) ->
  sdpcache.qErr hit = None ->
  sdpcache.cacheHit hit = false ->
  inputMapperList scope (upstream st) = (inr err, u1) ->
  exists e st', List fuel ctx scope ignoreCache st = (Ok ([], Some e), st').
Proof.
  destruct st as [s u t]; cbn [self upstream trace].
  intros Hscope HL Hwf Hlook Hq Hh Him.
  destruct (leaves_fields s c1) as (_ & _ & FL & _).
  unfold List.
  step gets_run. step index_Scopes_run. cbn [self].
  rewrite <- Hscope, String.eqb_refl; cbn [negb]. rewrite HL.
  erewrite enter_run; [|exact Hwf|exact Hlook].
  rewrite Hq, Hh. unfold leaves in *.
  erewrite bind_Ok;
    [|eapply call_InputMapperList_run; [rewrite FL; exact HL|exact Him]].
  cbv beta iota zeta.
  erewrite bind_Ok; [|eapply cache_StoreError_run].
  eexists _, _. reflexivity.
Qed.

Lemma List_invalid (st : St) (fuel : nat) (ctx : Ctx) (scope : string)
    (ignoreCache : bool) :
  let s := self st in
  scope = sourceScope s ->
  InputMapperList s = None \/ wellFormed s = false ->
  exists e st', List fuel ctx scope ignoreCache st = (Ok ([], Some e), st').
Proof.
  destruct st as [s u t]; cbn [self].
  intros Hscope Hbad.
  unfold List.
  step gets_run. step index_Scopes_run. cbn [self].
  rewrite <- Hscope, String.eqb_refl; cbn [negb].
  destruct (InputMapperList s) as [f|]; [|eexists _, _; reflexivity].
  destruct Hbad as [Hbad|Hbad]; [discriminate|].
  destruct (Validate_run_fail s u t Hbad) as (err & s' & HV).
  erewrite bind_Ok; [|exact HV]. eexists _, _; reflexivity.
Qed.

End Properties.

(** * Properties that depend on what the cache retains *)

Section WithModelCache.

Context {Ctx Input Output ClientStruct U Pg : Type}.
Context {paginatorImpl : Paginator Ctx Output U Pg}.
Context {helpers : Helpers}.

Local Abbreviation MC := modelcache.ModelCache.
Local Abbreviation Source := (DescribeOnlySource Ctx Input Output ClientStruct U Pg MC).
Local Abbreviation St := (State Ctx Input Output ClientStruct U Pg MC).
Local Abbreviation Ev := (Event Input Output).
Local Abbreviation mk := (@Build_State Ctx Input Output ClientStruct U Pg MC).
Local Abbreviation key := sdpcache.CacheKeyFromParts.
Local Abbreviation storeAll := (storeItems (Ctx:=Ctx) (C:=MC)).

Lemma CacheKey_eqb_refl (ck : sdpcache.CacheKey) : modelcache.CacheKey_eqb ck ck = true.
Proof.
  unfold modelcache.CacheKey_eqb. rewrite !String.eqb_refl.
  destruct (sdpcache.Method ck); reflexivity.
Qed.

Lemma model_find_put (ck : sdpcache.CacheKey) (e : modelcache.Entry)
    (l : list (sdpcache.CacheKey * modelcache.Entry)) :
  modelcache.find ck (modelcache.put ck e l) = Some e.
Proof. cbn. rewrite CacheKey_eqb_refl. reflexivity. Qed.

Lemma model_Lookup_unchanged n m sc ty q ic (c : MC) :
  snd (modelcache.Lookup n m sc ty q ic c) = c.
Proof.
  unfold modelcache.Lookup. destruct ic; [reflexivity|].
  destruct (modelcache.find (key n m sc ty q) (modelcache.entries c)) as [[items exp|err exp]|];
    try reflexivity; destruct (modelcache.now c <? exp); reflexivity.
Qed.

Lemma model_Lookup_ck n m sc ty q ic (c : MC) :
  sdpcache.ck (fst (modelcache.Lookup n m sc ty q ic c)) = key n m sc ty q.
Proof.
  unfold modelcache.Lookup. destruct ic; [reflexivity|].
  destruct (modelcache.find (key n m sc ty q) (modelcache.entries c)) as [[items exp|err exp]|];
    try reflexivity; destruct (modelcache.now c <? exp); reflexivity.
Qed.

Lemma model_Lookup_miss n m sc ty q ic (c : MC) :
  sdpcache.cacheHit (fst (modelcache.Lookup n m sc ty q ic c)) = false ->
  modelcache.Lookup n m sc ty q ic c = (modelcache.miss (key n m sc ty q), c).
Proof.
  unfold modelcache.Lookup. destruct ic; [reflexivity|].
  destruct (modelcache.find (key n m sc ty q) (modelcache.entries c)) as [[items exp|err exp]|];
    try reflexivity; destruct (modelcache.now c <? exp); try reflexivity;
    cbn; discriminate.
Qed.

Lemma model_Lookup_miss_liveItems n m sc ty q (c : MC) :
  sdpcache.cacheHit (fst (modelcache.Lookup n m sc ty q false c)) = false ->
  modelcache.liveItems (key n m sc ty q) c = [].
Proof.
  unfold modelcache.Lookup, modelcache.liveItems.
  destruct (modelcache.find (key n m sc ty q) (modelcache.entries c)) as [[items exp|err exp]|];
    try reflexivity.
  destruct (modelcache.now c <? exp); [cbn; discriminate|reflexivity].
Qed.

Lemma model_Lookup_StoreError n m sc ty q (err : error) (d : Z) (c : MC) :
  0 < d ->
  let c' := modelcache.StoreError err d (key n m sc ty q) c in
  modelcache.Lookup n m sc ty q false c' =
  ({| sdpcache.cacheHit := true; sdpcache.ck := key n m sc ty q;
      sdpcache.cachedItems := []; sdpcache.qErr := Some (modelcache.asQueryError err) |},
   c').
Proof.
  intros Hd. cbv zeta. unfold modelcache.Lookup, modelcache.StoreError.
  cbn [modelcache.entries modelcache.now].
  rewrite model_find_put.
  replace (modelcache.now c <? modelcache.now c + d) with true
    by (symmetry; apply Z.ltb_lt; lia).
  reflexivity.
Qed.

Lemma model_storeItems_cons (item : sdp.Item) (rest : list sdp.Item) (d : Z)
    (ck : sdpcache.CacheKey) (c : MC) :
  storeAll (item :: rest) d ck c = storeAll rest d ck (modelcache.StoreItem item d ck c).
Proof. reflexivity. Qed.

Lemma model_storeItems_more (d : Z) (ck : sdpcache.CacheKey) (items : list sdp.Item) :
  0 < d ->
  forall (c : MC) (acc : list sdp.Item),
    modelcache.find ck (modelcache.entries c) = Some (modelcache.CachedItems acc (modelcache.now c + d)) ->
    modelcache.find ck (modelcache.entries (storeAll items d ck c))
      = Some (modelcache.CachedItems (acc ++ items) (modelcache.now c + d)) /\
    modelcache.now (storeAll items d ck c) = modelcache.now c.
Proof.
  intros Hd. induction items as [|item rest IH]; intros c acc Hc.
  - cbn. rewrite app_nil_r. split; [exact Hc|reflexivity].
  - rewrite model_storeItems_cons.
    set (c1 := modelcache.StoreItem item d ck c).
    assert (Hlive : modelcache.liveItems ck c = acc).
    { unfold modelcache.liveItems. rewrite Hc.
      replace (modelcache.now c <? modelcache.now c + d) with true
        by (symmetry; apply Z.ltb_lt; lia).
      reflexivity. }
    assert (Hc1 : modelcache.find ck (modelcache.entries c1)
                  = Some (modelcache.CachedItems (acc ++ [item]) (modelcache.now c1 + d))).
    { unfold c1, modelcache.StoreItem. cbn [modelcache.entries modelcache.now].
      rewrite model_find_put, Hlive. reflexivity. }
    destruct (IH c1 (acc ++ [item])%list Hc1) as [HE HN].
    rewrite HE, HN. rewrite <- app_assoc. split; reflexivity.
Qed.

Lemma model_storeItems (items : list sdp.Item) (d : Z) (ck : sdpcache.CacheKey) (c : MC) :
  0 < d ->
  items <> [] ->
  modelcache.find ck (modelcache.entries (storeAll items d ck c))
    = Some (modelcache.CachedItems (modelcache.liveItems ck c ++ items)
              (modelcache.now c + d)) /\
  modelcache.now (storeAll items d ck c) = modelcache.now c.
Proof.
  intros Hd Hne. destruct items as [|item rest]; [congruence|].
  rewrite model_storeItems_cons.
  set (c1 := modelcache.StoreItem item d ck c).
  assert (Hc1 : modelcache.find ck (modelcache.entries c1)
                = Some (modelcache.CachedItems (modelcache.liveItems ck c ++ [item])
                          (modelcache.now c1 + d)))
    by (unfold c1, modelcache.StoreItem; cbn [modelcache.entries modelcache.now];
        apply model_find_put).
  destruct (model_storeItems_more d ck rest Hd c1 _ Hc1) as [HE HN].
  rewrite HE, HN. rewrite <- app_assoc. split; reflexivity.
Qed.

Lemma model_Lookup_storeItems n m sc ty q (items : list sdp.Item) (d : Z) (c : MC) :
  0 < d ->
  items <> [] ->
  modelcache.liveItems (key n m sc ty q) c = [] ->
  let c' := storeAll items d (key n m sc ty q) c in
  modelcache.Lookup n m sc ty q false c' =
  ({| sdpcache.cacheHit := true; sdpcache.ck := key n m sc ty q;
      sdpcache.cachedItems := items; sdpcache.qErr := None |}, c').
Proof.
  intros Hd Hne Hlive. cbv zeta.
  destruct (model_storeItems items d (key n m sc ty q) c Hd Hne) as [HE HN].
  unfold modelcache.Lookup. rewrite HE, HN, Hlive.
  replace (modelcache.now c <? modelcache.now c + d) with true
    by (symmetry; apply Z.ltb_lt; lia).
  reflexivity.
Qed.

Lemma cacheDuration_pos (s : Source) : 0 <= CacheDuration s -> 0 < cacheDuration s.
Proof.
  intros H. unfold cacheDuration, DefaultCacheDuration.
  destruct (CacheDuration s =? 0) eqn:E; [lia|]. apply Z.eqb_neq in E. lia.
Qed.

(** C1 (as the code has it): a [Get] that misses the cache and whose
    callbacks yield no item (after the filter of [UseListForGet], when set)
    returns a NOTFOUND query error; one that yields more than one item
    returns an OTHER query error whose message lists the globally unique
    names of all the items found.  Either way the error is stored under the
    key of the query, whatever the cache duration.  When the cache duration
    of the source is not negative, a second [Get] for the same query with
    [ignoreCache = false], run on the state the first one left, returns the
    same error after a single cache lookup: no callback runs and the
    upstream state is untouched. *)
Theorem Get_without_exactly_one_item_returns_and_caches_an_error
    (st : St) (ctx : Ctx) (scope query : string) (ignoreCache : bool)
    describeFunc inputMapperGet outputMapper input u1 output u2 items u3 :
  let s := self st in
  scope = sourceScope s ->
  DescribeFunc s = Some describeFunc ->
  InputMapperGet s = Some inputMapperGet ->
  OutputMapper s = Some outputMapper ->
  sdpcache.cacheHit
    (fst (sdpcache.Lookup ctx (Name s) sdp.QueryMethod_GET scope (ItemType s) query
            ignoreCache (theCache s))) = false ->
  inputMapperGet scope query (upstream st) = (inl input, u1) ->
  describeFunc ctx (Client s) input u1 = (inl output, u2) ->
  outputMapper ctx (Client s) scope input output u2 = (inl items, u3) ->
  let found := if UseListForGet s then filterItems query items else items in
  length found <> 1%nat ->
  let ck := key (Name s) sdp.QueryMethod_GET scope (ItemType s) query in
  let d := cacheDuration s in
  exists (e : sdp.QueryError) (st1 : St),
    Get ctx scope query ignoreCache st = (Ok (None, Some (QueryErr e)), st1) /\
    (found = [] -> sdp.ErrorType e = sdp.QueryError_NOTFOUND) /\
    ((1 < length found)%nat ->
     sdp.ErrorType e = sdp.QueryError_OTHER /\
     sdp.ErrorString e =
       "Request returned > 1 item for a GET request. Items: " +:+
       String.concat ", " (map sdp.GloballyUniqueName found)) /\
    trace st1 = (trace st ++ getEvents s scope query ignoreCache input output ++
                 [CacheStoreError (QueryErr e) d ck])%list /\
    (0 <= CacheDuration s ->
     Get ctx scope query false st1 =
     (Ok (None, Some (QueryErr e)),
      mk (self st1) (upstream st1)
         (trace st1 ++ [CacheLookup (Name s) sdp.QueryMethod_GET scope (ItemType s)
                          query false]))).
Proof.
  intros s Hscope HD HG HO Hmiss HiG HdF HoM found Hlen ck d.
  pose proof (model_Lookup_miss _ _ _ _ _ _ _ Hmiss) as HL.
  pose proof (Get_miss st ctx scope query ignoreCache _ _ _ _ _ _ _ _ _ _ _
                Hscope HD HG HO HL eq_refl eq_refl HiG HdF HoM) as Hrun.
  cbv zeta in Hrun. fold s found d in Hrun.
  cbn [sdpcache.ck modelcache.miss] in Hrun. fold ck in Hrun.
  set (e := match found with [] => notFound s query | _ => tooManyItems found end).
  set (c' := modelcache.StoreError (QueryErr e) d ck (theCache s)).
  set (t1 := (trace st ++ getEvents s scope query ignoreCache input output ++
              [CacheStoreError (QueryErr e) d ck])%list).
  assert (Hfirst : Get ctx scope query ignoreCache st
                   = (Ok (None, Some (QueryErr e)), leaves s c' u3 t1)).
  { rewrite Hrun. unfold e, c', t1.
    destruct found as [|item [|item' rest]]; [reflexivity|cbn in Hlen; congruence|reflexivity]. }
  exists e, (leaves s c' u3 t1).
  split; [exact Hfirst|]. split; [|split; [|split]].
  - intros H0. unfold e. rewrite H0. reflexivity.
  - intros Hmany. unfold e.
    destruct found as [|item [|item' rest]]; [cbn in Hmany; lia|cbn in Hmany; lia|].
    split; reflexivity.
  - reflexivity.
  - intros Hdur. pose proof (cacheDuration_pos s Hdur) as Hd.
    destruct (left_source s c') as (LS & LN & LT & _ & LW & LC & _).
    cbv zeta in LS, LN, LT, LW, LC.
    rewrite (Get_lookup_error (leaves s c' u3 t1) ctx scope query false
               {| sdpcache.cacheHit := true; sdpcache.ck := ck;
                  sdpcache.cachedItems := []; sdpcache.qErr := Some e |} c' e).
    + unfold leaves. cbn [self upstream trace].
      rewrite LN, LT, validated_set_cache, validated_idem. reflexivity.
    + unfold leaves; cbn [self]. rewrite LS. exact Hscope.
    + unfold leaves; cbn [self]. rewrite LW. eapply wellFormed_of; eassumption.
    + unfold leaves; cbn [self]. rewrite LN, LT, LC.
      exact (model_Lookup_StoreError _ _ _ _ _ (QueryErr e) d (theCache s) Hd).
    + reflexivity.
Qed.

(** A [List] on the state a validated call left, when the cache then
    answers with [items]. *)
Lemma List_again (s : Source) (c : MC) (u : U) (t : list Ev) (fuel : nat) (ctx : Ctx)
    (scope : string) (items : list sdp.Item) inputMapperList :
  scope = sourceScope s ->
  InputMapperList s = Some inputMapperList ->
  wellFormed s = true ->
  modelcache.Lookup (Name s) sdp.QueryMethod_LIST scope (ItemType s) EmptyString false c
    = ({| sdpcache.cacheHit := true;
          sdpcache.ck := key (Name s) sdp.QueryMethod_LIST scope (ItemType s) EmptyString;
          sdpcache.cachedItems := items; sdpcache.qErr := None |}, c) ->
  let st1 := leaves s c u t in
  List fuel ctx scope false st1 =
  (Ok (items, None),
   mk (self st1) (upstream st1)
      (trace st1 ++ [CacheLookup (Name s) sdp.QueryMethod_LIST scope (ItemType s)
                       EmptyString false])).
Proof.
  intros Hscope HL Hwf Hlook st1.
  destruct (left_source s c) as (LS & LN & LT & _ & LW & LC & _).
  destruct (leaves_fields s c) as (_ & _ & FL & _).
  cbv zeta in LS, LN, LT, LW, LC, FL.
  rewrite (List_answered_by_cache st1 fuel ctx scope false inputMapperList
             {| sdpcache.cacheHit := true;
                sdpcache.ck := key (Name s) sdp.QueryMethod_LIST scope (ItemType s)
                                 EmptyString;
                sdpcache.cachedItems := items; sdpcache.qErr := None |} c).
  - cbn [sdpcache.qErr sdpcache.cachedItems].
    unfold st1, leaves. cbn [self upstream trace].
    rewrite LN, LT, validated_set_cache, validated_idem. reflexivity.
  - unfold st1, leaves; cbn [self]. rewrite LS. exact Hscope.
  - unfold st1, leaves; cbn [self]. rewrite FL. exact HL.
  - unfold st1, leaves; cbn [self]. rewrite LW. exact Hwf.
  - unfold st1, leaves; cbn [self]. rewrite LN, LT, LC. exact Hlook.
  - right. reflexivity.
Qed.

(** C7 (as the code has it): when a [List] with [ignoreCache = false]
    returns at least one item, a second [List] for the same scope with
    [ignoreCache = false], run on the state the first one left (so with no
    expiry in between), returns the same items after a single cache lookup:
    neither [DescribeFunc] nor the paginator runs and the upstream state is
    untouched. *)
Theorem List_twice_is_served_by_the_cache
    (st st1 : St) (fuel fuel' : nat) (ctx : Ctx) (scope : string) (items : list sdp.Item) :
  let s := self st in
  scope = sourceScope s ->
  0 <= CacheDuration s ->
  List fuel ctx scope false st = (Ok (items, None), st1) ->
  items <> [] ->
  List fuel' ctx scope false st1 =
  (Ok (items, None),
   mk (self st1) (upstream st1)
      (trace st1 ++ [CacheLookup (Name s) sdp.QueryMethod_LIST scope (ItemType s)
                       EmptyString false])).
Proof.
  destruct st as [s u t]; cbn [self].
  intros Hscope Hdur Hrun Hne.
  pose proof (cacheDuration_pos s Hdur) as Hd.
  destruct (InputMapperList s) as [inputMapperList|] eqn:HL.
  2:{ destruct (List_invalid (mk s u t) fuel ctx scope false Hscope (or_introl HL))
        as (e & st' & Hbad).
      rewrite Hbad in Hrun. congruence. }
  destruct (wellFormed s) eqn:Hwf.
  2:{ destruct (List_invalid (mk s u t) fuel ctx scope false Hscope (or_intror Hwf))
        as (e & st' & Hbad).
      rewrite Hbad in Hrun. congruence. }
  set (ck := key (Name s) sdp.QueryMethod_LIST scope (ItemType s) EmptyString).
  destruct (modelcache.Lookup (Name s) sdp.QueryMethod_LIST scope (ItemType s)
              EmptyString false (theCache s)) as [hit c1] eqn:Hlook.
  pose proof (model_Lookup_unchanged (Name s) sdp.QueryMethod_LIST scope (ItemType s)
                EmptyString false (theCache s)) as Hsame.
  rewrite Hlook in Hsame; cbn [snd] in Hsame; subst c1.
  destruct (sdpcache.cacheHit hit) eqn:Hh.
  - (* the first call was answered by the cache *)
    rewrite (List_answered_by_cache (cacheImpl:=modelCache Ctx) (mk s u t) fuel ctx scope false _ hit (theCache s)
               Hscope HL Hwf Hlook (or_intror Hh)) in Hrun.
    cbn [self upstream trace] in Hrun.
    pose proof (model_Lookup_ck (Name s) sdp.QueryMethod_LIST scope (ItemType s)
                  EmptyString false (theCache s)) as Hck.
    rewrite Hlook in Hck; cbn [fst] in Hck.
    destruct (sdpcache.qErr hit) eqn:Hq; [congruence|].
    assert (Hshape : hit = {| sdpcache.cacheHit := true; sdpcache.ck := ck;
                              sdpcache.cachedItems := items; sdpcache.qErr := None |}).
    { destruct hit as [h k its q]; cbn in Hh, Hq, Hck, Hrun.
      subst h k q. inversion Hrun; subst. reflexivity. }
    rewrite Hshape in Hrun, Hlook. cbn [sdpcache.cachedItems] in Hrun.
    inversion Hrun; subst st1. clear Hrun.
    exact (List_again s (theCache s) u _ fuel' ctx scope items _ Hscope HL Hwf Hlook).
  - (* the first call missed the cache *)
    assert (Hmiss : sdpcache.cacheHit
                      (fst (modelcache.Lookup (Name s) sdp.QueryMethod_LIST scope
                              (ItemType s) EmptyString false (theCache s))) = false)
      by (rewrite Hlook; exact Hh).
    pose proof (model_Lookup_miss _ _ _ _ _ _ _ Hmiss) as Hlook'.
    pose proof (model_Lookup_miss_liveItems _ _ _ _ _ _ Hmiss) as Hlive.
    fold ck in Hlook', Hlive.
    destruct (inputMapperList scope u) as [[input|err] u1] eqn:Him.
    2:{ destruct (List_mapper_error (cacheImpl:=modelCache Ctx) (mk s u t) fuel ctx scope false _ _ _ _ _
                    Hscope HL Hwf Hlook' eq_refl eq_refl Him) as (e & st' & Hbad).
        rewrite Hbad in Hrun. congruence. }
    rewrite (List_miss_bind (cacheImpl:=modelCache Ctx) (mk s u t) fuel ctx scope false _ _ _ _ _
               Hscope HL Hwf Hlook' eq_refl eq_refl Him) in Hrun.
    cbn [self upstream trace sdpcache.ck modelcache.miss] in Hrun.
    unfold bind at 1 in Hrun.
    destruct (describe fuel ctx input scope
                (leaves s (theCache s) u1 (t ++ listEvents s scope false)))
      as [o st2] eqn:Hdesc.
    unfold leaves in Hdesc.
    destruct (CallbacksOnly_describe _ _ _ _ _ _ _ _ _ Hdesc)
      as [(u2 & events & -> & _) _].
    destruct o as [[its [err|]]| |]; cbv beta iota zeta in Hrun.
    + erewrite bind_Ok in Hrun; [|eapply cache_StoreError_run].
      unfold ret in Hrun. congruence.
    + erewrite bind_Ok in Hrun; [|eapply forRange_StoreItem].
      unfold ret in Hrun. inversion Hrun; subst its st1. clear Hrun.
      rewrite stored_set_cache.
      apply (List_again s (storeAll items (cacheDuration s) ck (theCache s)) u2 _
               fuel' ctx scope items inputMapperList Hscope HL Hwf).
      exact (model_Lookup_storeItems _ _ _ _ _ items (cacheDuration s) (theCache s)
               Hd Hne Hlive).
    + congruence.
    + congruence.
Qed.

End WithModelCache.

(** * The engine on the test source *)

Section OnTheTestSource.

Local Abbreviation MC := modelcache.ModelCache.
Local Abbreviation St C :=
  (State Demo.Ctx Demo.Input Demo.Output Demo.ClientT Demo.Upstream Demo.Pages C).
Local Existing Instance Demo.helpers.

Lemma scope_mismatch_witness :
  exists e : sdp.QueryError,
    sdp.ErrorType e = sdp.QueryError_NOSCOPE /\
    Get Demo.ctx "222222222222.region" "x" false (Demo.start (C:=MC) Demo.nothing)
      = (Ok (None, Some (QueryErr e)), Demo.start Demo.nothing) /\
    List 1 Demo.ctx "222222222222.region" false (Demo.start (C:=MC) Demo.nothing)
      = (Ok ([], Some (QueryErr e)), Demo.start Demo.nothing) /\
    Search 1 Demo.ctx "222222222222.region" "x" false (Demo.start (C:=MC) Demo.nothing)
      = (Ok ([], Some (QueryErr e)), Demo.start Demo.nothing).
Proof.
  apply (scope_mismatch_is_NOSCOPE_and_leaves_cache_alone
           (Demo.start (C:=MC) Demo.nothing) 1 Demo.ctx "222222222222.region" "x" false).
  vm_compute. discriminate.
Defined.

Lemma Get_zero_or_many_items_witness :
  (exists (e : sdp.QueryError) (st1 : St MC),
     Get Demo.ctx Demo.scope "x" false (Demo.start Demo.nothing)
       = (Ok (None, Some (QueryErr e)), st1) /\
     sdp.ErrorType e = sdp.QueryError_NOTFOUND /\
     fst (Get Demo.ctx Demo.scope "x" false st1) = Ok (None, Some (QueryErr e)) /\
     upstream (snd (Get Demo.ctx Demo.scope "x" false st1)) = upstream st1) /\
  (exists (e : sdp.QueryError) (st1 : St MC),
     Get Demo.ctx Demo.scope "x" false (Demo.start Demo.searchable)
       = (Ok (None, Some (QueryErr e)), st1) /\
     sdp.ErrorType e = sdp.QueryError_OTHER /\
     sdp.ErrorString e =
       "Request returned > 1 item for a GET request. Items: 111111111111.region.ec2-thing.a, 111111111111.region.ec2-thing.b" /\
     fst (Get Demo.ctx Demo.scope "x" false st1) = Ok (None, Some (QueryErr e)) /\
     upstream (snd (Get Demo.ctx Demo.scope "x" false st1)) = upstream st1).
Proof.
  assert (Hdur0 : 0 <= CacheDuration (self (Demo.start (C:=MC) Demo.nothing)))
    by (cbn; lia).
  assert (Hdur2 : 0 <= CacheDuration (self (Demo.start (C:=MC) Demo.searchable)))
    by (cbn; lia).
  assert (Hlen0 : length (@nil sdp.Item) <> 1%nat) by (cbn; lia).
  assert (Hlen2 : length [Demo.item "a"; Demo.item "b"] <> 1%nat) by (cbn; lia).
  assert (Hmany : (1 < length [Demo.item "a"; Demo.item "b"])%nat) by (cbn; lia).
  split.
  - destruct (Get_without_exactly_one_item_returns_and_caches_an_error
                (helpers:=Demo.helpers)
                (Demo.start (C:=MC) Demo.nothing) Demo.ctx Demo.scope "x" false
                (fun _ _ _ u => (inl [], S u))
                (fun _ query u => (inl query, u))
                (fun _ _ _ _ output u => (inl output, u))
                "x" 0%nat [] 1%nat [] 1%nat
                eq_refl eq_refl eq_refl eq_refl eq_refl eq_refl eq_refl eq_refl Hlen0)
      as (e & st1 & Hfirst & Hnone & _ & _ & Hsecond).
    exists e, st1. split; [exact Hfirst|]. split; [apply Hnone; reflexivity|].
    rewrite (Hsecond Hdur0). split; reflexivity.
  - destruct (Get_without_exactly_one_item_returns_and_caches_an_error
                (helpers:=Demo.helpers)
                (Demo.start (C:=MC) Demo.searchable) Demo.ctx Demo.scope "x" false
                (fun _ _ _ u => (inl [Demo.item "a"; Demo.item "b"], S u))
                (fun _ query u => (inl query, u))
                (fun _ _ _ _ output u => (inl output, u))
                "x" 0%nat [Demo.item "a"; Demo.item "b"] 1%nat
                [Demo.item "a"; Demo.item "b"] 1%nat
                eq_refl eq_refl eq_refl eq_refl eq_refl eq_refl eq_refl eq_refl Hlen2)
      as (e & st1 & Hfirst & _ & Hother & _ & Hsecond).
    destruct (Hother Hmany) as [Hkind Hmsg].
    exists e, st1. split; [exact Hfirst|]. split; [exact Hkind|].
    split; [rewrite Hmsg; reflexivity|].
    rewrite (Hsecond Hdur2). split; reflexivity.
Defined.

Lemma Get_hit_without_items_witness :
  let st1 : St MC := snd (Get Demo.ctx Demo.scope "x" false (Demo.start Demo.nothing)) in
  fst (Get Demo.ctx Demo.scope "x" false st1)
    = Ok (None, Some (QueryErr (notFound (Demo.nothing (C:=MC)) "x"))) /\
  Get (cacheImpl:=Demo.emptyHits) Demo.ctx Demo.scope "x" false (Demo.start Demo.nothing)
    = (Ok (None, None),
       leaves Demo.nothing tt 0%nat
         [CacheLookup "ec2-thing-source" sdp.QueryMethod_GET Demo.scope "ec2-thing" "x"
            false]).
Proof.
  intros st1. split.
  - assert (Hscope : Demo.scope = sourceScope (self st1)) by (vm_compute; reflexivity).
    assert (Hwf : wellFormed (self st1) = true) by (vm_compute; reflexivity).
    assert (HL : sdpcache.Lookup Demo.ctx (Name (self st1)) sdp.QueryMethod_GET Demo.scope
                   (ItemType (self st1)) "x" false (theCache (self st1))
                 = ({| sdpcache.cacheHit := true;
                       sdpcache.ck := sdpcache.CacheKeyFromParts "ec2-thing-source"
                                        sdp.QueryMethod_GET Demo.scope "ec2-thing" "x";
                       sdpcache.cachedItems := [];
                       sdpcache.qErr := Some (notFound (Demo.nothing (C:=MC)) "x") |},
                    theCache (self st1)))
      by (vm_compute; reflexivity).
    rewrite (Get_hit_without_items_returns_nil_and_the_error_of_Lookup
               (cacheImpl:=modelCache Demo.Ctx) (helpers:=Demo.helpers)
               st1 Demo.ctx Demo.scope "x" false _ _ Hscope Hwf HL eq_refl eq_refl).
    reflexivity.
  - apply (Get_hit_without_items_returns_nil_and_the_error_of_Lookup
             (cacheImpl:=Demo.emptyHits)
             (Demo.start Demo.nothing) Demo.ctx Demo.scope "x" false
             {| sdpcache.cacheHit := true;
                sdpcache.ck := sdpcache.CacheKeyFromParts "ec2-thing-source"
                                 sdp.QueryMethod_GET Demo.scope "ec2-thing" "x";
                sdpcache.cachedItems := [];
                sdpcache.qErr := None |} tt);
      reflexivity.
Defined.

Lemma UseListForGet_witness :
  fst (Get Demo.ctx Demo.scope "id-2" false (Demo.start (C:=MC) Examples.twins))
  = Ok (Some (Examples.tagged "id-2" "first"), None).
Proof.
  destruct (UseListForGet_returns_the_first_match_or_NOTFOUND
              (cacheImpl:=modelCache Demo.Ctx) (helpers:=Demo.helpers)
              (Demo.start (C:=MC) Examples.twins) Demo.ctx Demo.scope "id-2" false
              (fun _ _ _ u =>
                 (inl [Demo.item "id-1"; Examples.tagged "id-2" "first";
                       Examples.tagged "id-2" "second"], S u))
              (fun _ query u => (inl query, u))
              (fun _ _ _ _ output u => (inl output, u))
              (modelcache.miss (sdpcache.CacheKeyFromParts "ec2-thing-source"
                                  sdp.QueryMethod_GET Demo.scope "ec2-thing" "id-2"))
              modelcache.NewCache
              "id-2" 0%nat
              [Demo.item "id-1"; Examples.tagged "id-2" "first";
               Examples.tagged "id-2" "second"] 1%nat
              [Demo.item "id-1"; Examples.tagged "id-2" "first";
               Examples.tagged "id-2" "second"] 1%nat
              eq_refl eq_refl eq_refl eq_refl eq_refl eq_refl eq_refl eq_refl eq_refl
              eq_refl eq_refl)
    as [_ [(before & found & after & Hsplit & Hbefore & Hfound & Hrun)|(Hnone & _)]].
  - rewrite Hrun. cbn [fst].
    destruct before as [|b0 [|b1 [|b2 rest]]]; cbn [app] in Hsplit.
    + injection Hsplit as <- _. vm_compute in Hfound. discriminate Hfound.
    + injection Hsplit as _ <- _. reflexivity.
    + injection Hsplit as _ <- _ _.
      inversion Hbefore as [|? ? _ Hrest]. inversion Hrest as [|? ? Hfirst _].
      exfalso. apply Hfirst. reflexivity.
    + injection Hsplit as _ _ _ Hempty. destruct rest; discriminate Hempty.
  - exfalso. apply (Hnone (Examples.tagged "id-2" "first")); [|reflexivity].
    right. left. reflexivity.
Defined.

Lemma default_Search_witness :
  let st : St MC := Demo.start Demo.single in
  Search 1 Demo.ctx Demo.scope "arn:aws:service:region:111111111111:resource/abc" false st
    = (Ok ([Some (Demo.item "abc")], None),
       snd (Get Demo.ctx Demo.scope "abc" false st)) /\
  (exists e : sdp.QueryError,
     sdp.ErrorType e = sdp.QueryError_NOSCOPE /\
     Search 1 Demo.ctx Demo.scope "arn:aws:service:region:222222222222:resource/abc"
       false st = (Ok ([], Some (QueryErr e)), st)) /\
  Search 1 Demo.ctx Demo.scope "not an arn" false st
    = (Ok ([], Some (QueryErr (WrapAWSError (errors_New "arn: not enough sections")))), st).
Proof.
  intros st.
  destruct (default_Search_parses_the_ARN_and_delegates_to_Get (helpers:=Demo.helpers)
              st 1 Demo.ctx Demo.scope
              "arn:aws:service:region:111111111111:resource/abc" false
              eq_refl eq_refl) as (_ & _ & Hget).
  destruct (default_Search_parses_the_ARN_and_delegates_to_Get (helpers:=Demo.helpers)
              st 1 Demo.ctx Demo.scope
              "arn:aws:service:region:222222222222:resource/abc" false
              eq_refl eq_refl) as (_ & Hscope & _).
  destruct (default_Search_parses_the_ARN_and_delegates_to_Get (helpers:=Demo.helpers)
              st 1 Demo.ctx Demo.scope
              "not an arn" false eq_refl eq_refl) as (Hparse & _ & _).
  assert (HG : Get Demo.ctx Demo.scope "abc" false st
               = (Ok (Some (Demo.item "abc"), None),
                  snd (Get Demo.ctx Demo.scope "abc" false st)))
    by (lazy; reflexivity).
  destruct (Hget {| arn.Partition := "aws"; arn.Service := "service";
                    arn.Region := "region"; arn.AccountID := "111111111111";
                    arn.Resource := "resource/abc" |} eq_refl eq_refl) as [Hitem _].
  split; [exact (Hitem _ _ HG)|]. split.
  - apply (Hscope {| arn.Partition := "aws"; arn.Service := "service";
                     arn.Region := "region"; arn.AccountID := "222222222222";
                     arn.Resource := "resource/abc" |} eq_refl).
    cbn. intros H. discriminate H.
  - apply Hparse. reflexivity.
Defined.

Lemma paginated_List_witness :
  let st : St MC := Demo.start Demo.paginated in
  let items := [Demo.item "a"; Demo.item "b"; Demo.item "c"; Demo.item "d"; Demo.item "e"] in
  fst (List 4 Demo.ctx Demo.scope false st) = Ok (items, None) /\
  length (List.filter isNextPage (trace (snd (List 4 Demo.ctx Demo.scope false st)))) = 3%nat /\
  fst (List 4 Demo.ctx Demo.scope false (Demo.start (C:=MC) Demo.broken))
    = Ok ([], Some (QueryErr (WrapAWSError (errors_New "page 2 failed")))).
Proof.
  intros st items.
  destruct (paginated_List_drains_every_page_or_fails_whole (helpers:=Demo.helpers) st 4 Demo.ctx Demo.scope false
              (fun _ _ => Demo.threePages) (fun _ u => (inl EmptyString, u))
              (modelcache.miss (sdpcache.CacheKeyFromParts "ec2-thing-source"
                                  sdp.QueryMethod_LIST Demo.scope "ec2-thing" EmptyString))
              modelcache.NewCache EmptyString 0%nat
              [([Demo.item "a"; Demo.item "b"], [Demo.item "a"; Demo.item "b"]);
               ([Demo.item "c"; Demo.item "d"], [Demo.item "c"; Demo.item "d"]);
               ([Demo.item "e"], [Demo.item "e"])])
    as [Hall _]; try reflexivity; [cbn; lia|].
  destruct (Hall 3%nat) as (_ & HList & _);
    [repeat (econstructor; try reflexivity)|].
  destruct (paginated_List_drains_every_page_or_fails_whole (helpers:=Demo.helpers)
              (Demo.start (C:=MC) Demo.broken) 4 Demo.ctx Demo.scope false
              (fun _ _ => Demo.brokenPages) (fun _ u => (inl EmptyString, u))
              (modelcache.miss (sdpcache.CacheKeyFromParts "ec2-thing-source"
                                  sdp.QueryMethod_LIST Demo.scope "ec2-thing" EmptyString))
              modelcache.NewCache EmptyString 0%nat
              [([Demo.item "a"; Demo.item "b"], [Demo.item "a"; Demo.item "b"])])
    as [_ Hfail]; try reflexivity; [cbn; lia|].
  destruct (Hfail (errors_New "page 2 failed") 2%nat
              [CallNextPage;
               CallOutputMapper Demo.scope EmptyString [Demo.item "a"; Demo.item "b"];
               CallNextPage]) as (_ & HBroken & _).
  { eapply (DrainFails_later _ _ _ _ _ _ _ _ _ _ _ _ _ _ [CallNextPage]);
      try reflexivity.
    eapply DrainFails_NextPage; reflexivity. }
  rewrite HList, HBroken. repeat split; reflexivity.
Defined.

Lemma noCacheWrite_forallb {Input Output : Type} (events : list (Event Input Output)) :
  noCacheWrite events -> forallb (fun e => negb (isCacheWrite e)) events = true.
Proof.
  induction 1 as [|e rest He _ IH]; [reflexivity|].
  cbn. rewrite He, IH. reflexivity.
Qed.

Lemma noUpstreamCall_forallb {Input Output : Type} (events : list (Event Input Output)) :
  noUpstreamCall events -> forallb (fun e => negb (isUpstream e)) events = true.
Proof.
  induction 1 as [|e rest He _ IH]; [reflexivity|].
  cbn. rewrite He, IH. reflexivity.
Qed.

(** C1, as stated, fails: on a source whose cache duration is negative the
    stored error has expired at once, and the [Get] repeated on the state
    the first one left calls [DescribeFunc] a second time. *)
Lemma Get_error_with_negative_CacheDuration_is_fetched_again :
  let r1 := Get Demo.ctx Demo.scope "x" false (Demo.start (C:=MC) Examples.expiring) in
  let r2 := Get Demo.ctx Demo.scope "x" false (snd r1) in
  fst r1 = Ok (None, Some (QueryErr (notFound (Examples.expiring (C:=MC)) "x"))) /\
  sdp.ErrorType (notFound (Examples.expiring (C:=MC)) "x") = sdp.QueryError_NOTFOUND /\
  In (CallDescribeFunc "x") (drop (length (trace (snd r1))) (trace (snd r2))) /\
  upstream (snd r1) = 1%nat /\
  upstream (snd r2) = 2%nat.
Proof.
  vm_compute. repeat split. right. right. left. reflexivity.
Qed.

(** C10, as stated, fails: after a [Get] that found nothing, the lookup of
    the repeated [Get] reports a hit with no cached item, and the repeated
    [Get] returns the cached error, not a nil error. *)
Lemma Get_hit_without_items_can_return_an_error :
  let st1 : St MC := snd (Get Demo.ctx Demo.scope "x" false (Demo.start Demo.nothing)) in
  let hit := fst (sdpcache.Lookup Demo.ctx (Name (self st1)) sdp.QueryMethod_GET
                    Demo.scope (ItemType (self st1)) "x" false (theCache (self st1))) in
  sdpcache.cacheHit hit = true /\
  sdpcache.cachedItems hit = [] /\
  fst (Get Demo.ctx Demo.scope "x" false st1) <> Ok (None, None).
Proof.
  vm_compute. repeat split. intros H. discriminate H.
Qed.

(** C5, as stated, fails: [DescribeFunc] of the test source returns
    [context.Canceled], and the [Get] that receives it writes to the cache. *)
Lemma cancelled_Get_writes_the_cache :
  ~ noCacheWrite
      (trace (snd (Get Demo.ctx Demo.scope "x" false (Demo.start (C:=MC) Demo.cancelled)))).
Proof.
  intros H. apply noCacheWrite_forallb in H. vm_compute in H. discriminate H.
Qed.

Lemma cancelled_Get_witness :
  let wrapped := QueryErr (WrapAWSError context_Canceled) in
  let ck := sdpcache.CacheKeyFromParts "ec2-thing-source" sdp.QueryMethod_GET
              Demo.scope "ec2-thing" "x" in
  let r := Get Demo.ctx Demo.scope "x" false (Demo.start (C:=MC) Demo.cancelled) in
  fst r = Ok (None, Some wrapped) /\
  trace (snd r) =
    [CacheLookup "ec2-thing-source" sdp.QueryMethod_GET Demo.scope "ec2-thing" "x" false;
     CallInputMapperGet Demo.scope "x";
     CallDescribeFunc "x";
     CacheStoreError wrapped 3600000000000 ck].
Proof.
  intros wrapped ck r.
  destruct (upstream_error_is_returned_wrapped_and_stored (helpers:=Demo.helpers)
              (Demo.start (C:=MC) Demo.cancelled) 1 Demo.ctx Demo.scope "x" false
              (fun _ _ _ u => (inr context_Canceled, S u))
              (fun _ _ _ _ output u => (inl output, u))
              (fun _ query u => (inl query, u))
              context_Canceled eq_refl eq_refl eq_refl eq_refl) as (HGet & _ & _).
  unfold r.
  rewrite (HGet (modelcache.miss ck) modelcache.NewCache "x" 0%nat 1%nat
             eq_refl eq_refl eq_refl eq_refl eq_refl).
  split; reflexivity.
Defined.

(** C6, as stated, fails: the error of [List] on a source without
    [InputMapperList] has the kind NOTFOUND, the kind of a [Get] that finds
    nothing, and not a kind of its own. *)
Lemma List_unsupported_is_not_a_kind_of_its_own :
  ~ exists e : sdp.QueryError,
      fst (List 1 Demo.ctx Demo.scope false (Demo.start (C:=MC) Demo.unlistable))
        = Ok ([], Some (QueryErr e)) /\
      sdp.ErrorType e <> sdp.QueryError_NOTFOUND.
Proof.
  intros (e & Hrun & Hkind). vm_compute in Hrun.
  inversion Hrun; subst e. apply Hkind. reflexivity.
Qed.

Lemma List_unsupported_witness :
  exists e : sdp.QueryError,
    List 1 Demo.ctx Demo.scope false (Demo.start (C:=MC) Demo.unlistable)
      = (Ok ([], Some (QueryErr e)), Demo.start Demo.unlistable) /\
    sdp.ErrorType e = sdp.QueryError_NOTFOUND /\
    sdp.ErrorString e = "list is not supported for ec2-thing resources".
Proof.
  apply (List_without_InputMapperList_fails_fast (helpers:=Demo.helpers)
           (Demo.start (C:=MC) Demo.unlistable) 1 Demo.ctx Demo.scope false);
    reflexivity.
Defined.

(** C7, as stated, fails: a first [List] that finds nothing stores nothing,
    and the second [List] calls [DescribeFunc] again. *)
Lemma empty_List_is_fetched_again :
  let r1 := List 1 Demo.ctx Demo.scope false (Demo.start (C:=MC) Demo.nothing) in
  let r2 := List 1 Demo.ctx Demo.scope false (snd r1) in
  fst r1 = Ok ([], None) /\
  ~ (fst r2 = fst r1 /\
     noUpstreamCall (drop (length (trace (snd r1))) (trace (snd r2)))).
Proof.
  split; [reflexivity|].
  intros [_ H]. apply noUpstreamCall_forallb in H. vm_compute in H. discriminate H.
Qed.

Lemma List_twice_witness :
  let st1 := snd (List 1 Demo.ctx Demo.scope false (Demo.start (C:=MC) Demo.single)) in
  List 1 Demo.ctx Demo.scope false st1 =
  (Ok ([Demo.item "abc"], None),
   {| self := self st1; upstream := upstream st1;
      trace := trace st1 ++
               [CacheLookup "ec2-thing-source" sdp.QueryMethod_LIST Demo.scope "ec2-thing"
                  EmptyString false] |}).
Proof.
  intros st1.
  assert (Hdur : 0 <= CacheDuration (self (Demo.start (C:=MC) Demo.single)))
    by (cbn; lia).
  assert (Hfirst : List 1 Demo.ctx Demo.scope false (Demo.start (C:=MC) Demo.single)
                   = (Ok ([Demo.item "abc"], None), st1))
    by (lazy; reflexivity).
  assert (Hne : [Demo.item "abc"] <> []) by (intros H; discriminate H).
  exact (List_twice_is_served_by_the_cache (helpers:=Demo.helpers)
           (Demo.start (C:=MC) Demo.single) st1 1 1 Demo.ctx Demo.scope [Demo.item "abc"]
           eq_refl Hdur Hfirst Hne).
Defined.

Lemma custom_Search_witness :
  let st : St MC := Demo.start Demo.searchable in
  let items := [Demo.item "a"; Demo.item "b"] in
  fst (Search 1 Demo.ctx Demo.scope "a" false st) = Ok (map Some items, None) /\
  exists events,
    trace (snd (Search 1 Demo.ctx Demo.scope "a" false st))
      = (trace st ++ CallInputMapperSearch Demo.scope "a" :: events)%list /\
    noCacheLookup events.
Proof.
  intros st items.
  destruct (custom_Search_never_reads_the_cache (helpers:=Demo.helpers)
              st 1 Demo.ctx Demo.scope "a" false
              (fun _ _ _ query u => (inl query, u)) eq_refl eq_refl)
    as (Hshape & _ & _ & Hitems & _).
  assert (Hd : describe 1 Demo.ctx "a" Demo.scope
                 {| self := self st; upstream := 0%nat;
                    trace := trace st ++ [CallInputMapperSearch Demo.scope "a"] |}
               = (Ok (items, None),
                  {| self := self st; upstream := 1%nat;
                     trace := [CallInputMapperSearch Demo.scope "a";
                               CallDescribeFunc "a";
                               CallOutputMapper Demo.scope "a" items] |}))
    by (lazy; reflexivity).
  split.
  - rewrite (Hitems "a" 0%nat items 1%nat _ eq_refl Hd). reflexivity.
  - apply (Hshape (fst (Search 1 Demo.ctx Demo.scope "a" false st))).
    apply surjective_pairing.
Defined.

End OnTheTestSource.
(** * More properties of the engine *)

Section Frames.

Context {Ctx Input Output ClientStruct U Pg C : Type}.
Context {cacheImpl : sdpcache.Cache Ctx C}.
Context {paginatorImpl : Paginator Ctx Output U Pg}.
Context {helpers : Helpers}.

Local Abbreviation Source := (DescribeOnlySource Ctx Input Output ClientStruct U Pg C).
Local Abbreviation St := (State Ctx Input Output ClientStruct U Pg C).
Local Abbreviation Ev := (Event Input Output).
Local Abbreviation mk := (@Build_State Ctx Input Output ClientStruct U Pg C).

Implicit Types (J : Source -> Prop) (P : Ev -> Prop).

Lemma Keeps_ret J P {A : Type} (a : A) : Keeps J P (ret a).
Proof.
  intros st o st' HJ Hrun. inversion Hrun; subst.
  split; [exact HJ|]. exists []. rewrite app_nil_r. split; [reflexivity|constructor].
Qed.

Lemma Keeps_panic J P {A : Type} (msg : string) : Keeps J P (@panic St A msg).
Proof.
  intros st o st' HJ Hrun. inversion Hrun; subst.
  split; [exact HJ|]. exists []. rewrite app_nil_r. split; [reflexivity|constructor].
Qed.

Lemma Keeps_timeout J P {A : Type} : Keeps J P (@timeout St A).
Proof.
  intros st o st' HJ Hrun. inversion Hrun; subst.
  split; [exact HJ|]. exists []. rewrite app_nil_r. split; [reflexivity|constructor].
Qed.

Lemma Keeps_bind J P {A B : Type} (m : M St A) (k : A -> M St B) :
  Keeps J P m -> (forall a, Keeps J P (k a)) -> Keeps J P (bind m k).
Proof.
  intros Hm Hk st o st' HJ Hrun. unfold bind in Hrun.
  destruct (m st) as [om st1] eqn:Hm1.
  destruct (Hm _ _ _ HJ Hm1) as (HJ1 & ev1 & Ht1 & HP1).
  destruct om as [a| |].
  - destruct (Hk a _ _ _ HJ1 Hrun) as (HJ2 & ev2 & Ht2 & HP2).
    split; [exact HJ2|]. exists (ev1 ++ ev2)%list.
    rewrite Ht2, Ht1, app_assoc. split; [reflexivity|].
    apply Forall_app. split; assumption.
  - inversion Hrun; subst. split; [exact HJ1|]. exists ev1. split; assumption.
  - inversion Hrun; subst. split; [exact HJ1|]. exists ev1. split; assumption.
Qed.

(** Reading the receiver: what follows may rely on [J]. *)
Lemma Keeps_self J P {A : Type} (k : Source -> M St A) :
  (forall s, J s -> Keeps J P (k s)) -> Keeps J P (bind (gets self) k).
Proof.
  intros Hk st o st' HJ Hrun. unfold bind, gets in Hrun.
  exact (Hk _ HJ _ _ _ HJ Hrun).
Qed.

Lemma Keeps_log J P (e : Ev) : P e -> Keeps J P (log e).
Proof.
  intros He st o st' HJ Hrun. inversion Hrun; subst. cbn.
  split; [exact HJ|]. exists [e]. split; [reflexivity|]. repeat constructor. exact He.
Qed.

Lemma Keeps_setSelf J P (f : Source -> Source) :
  (forall s, J s -> J (f s)) -> Keeps J P (setSelf f).
Proof.
  intros Hf st o st' HJ Hrun. inversion Hrun; subst. cbn.
  split; [apply Hf; exact HJ|]. exists []. rewrite app_nil_r.
  split; [reflexivity|constructor].
Qed.

Lemma Keeps_upcall J P {A : Type} (f : U -> A * U) : Keeps J P (upcall f).
Proof.
  intros st o st' HJ Hrun. unfold upcall in Hrun.
  destruct (f (upstream st)) as [a u]. inversion Hrun; subst. cbn.
  split; [exact HJ|]. exists []. rewrite app_nil_r. split; [reflexivity|constructor].
Qed.

Lemma Keeps_index J P {A : Type} (l : list A) (i : nat) : Keeps J P (index l i).
Proof. unfold index. destruct (l !! i); [apply Keeps_ret|apply Keeps_panic]. Qed.

Lemma Keeps_callField J P {F A : Type} (name : string) (e : Ev)
    (field : Source -> option F) (app : F -> U -> A * U) :
  P e -> Keeps J P (callField name e field app).
Proof.
  intros He. unfold callField. apply Keeps_self. intros s _.
  destruct (field s); [|apply Keeps_panic].
  apply Keeps_bind; [apply Keeps_log; exact He|intros _; apply Keeps_upcall].
Qed.

Lemma Keeps_cache_Lookup J P ctx srcName method scope typ query ignoreCache :
  cacheBlind J ->
  P (CacheLookup srcName method scope typ query ignoreCache) ->
  Keeps J P (cache_Lookup ctx srcName method scope typ query ignoreCache).
Proof.
  intros HJ He. unfold cache_Lookup.
  apply Keeps_bind; [apply Keeps_log; exact He|intros _].
  apply Keeps_self. intros s _. destruct (cache s) as [c|]; [|apply Keeps_ret].
  destruct (sdpcache.Lookup ctx srcName method scope typ query ignoreCache c) as [r c'].
  apply Keeps_bind; [apply Keeps_setSelf; intros; apply HJ; assumption|intros _; apply Keeps_ret].
Qed.

Lemma Keeps_cache_StoreItem J P item d ck :
  cacheBlind J -> P (CacheStoreItem item d ck) -> Keeps J P (cache_StoreItem item d ck).
Proof.
  intros HJ He. unfold cache_StoreItem.
  apply Keeps_bind; [apply Keeps_log; exact He|intros _].
  apply Keeps_self. intros s _. destruct (cache s) as [c|]; [|apply Keeps_ret].
  apply Keeps_setSelf; intros; apply HJ; assumption.
Qed.

Lemma Keeps_cache_StoreError J P err d ck :
  cacheBlind J -> P (CacheStoreError err d ck) -> Keeps J P (cache_StoreError err d ck).
Proof.
  intros HJ He. unfold cache_StoreError.
  apply Keeps_bind; [apply Keeps_log; exact He|intros _].
  apply Keeps_self. intros s _. destruct (cache s) as [c|]; [|apply Keeps_ret].
  apply Keeps_setSelf; intros; apply HJ; assumption.
Qed.

Lemma Keeps_ensureCache J P : cacheBlind J -> Keeps J P ensureCache.
Proof.
  intros HJ. unfold ensureCache. apply Keeps_self. intros s _.
  destruct (cache s); [apply Keeps_ret|].
  apply Keeps_setSelf; intros; apply HJ; assumption.
Qed.

Lemma Keeps_Validate J P :
  (forall n s, J s -> J (set_MaxResultsPerPage n s)) -> Keeps J P Validate.
Proof.
  intros HJ. unfold Validate. apply Keeps_self. intros s _.
  destruct (DescribeFunc s); [|apply Keeps_ret].
  apply Keeps_bind.
  - destruct (MaxResultsPerPage s =? 0); [|apply Keeps_ret].
    apply Keeps_setSelf; intros; apply HJ; assumption.
  - intros _. destruct (InputMapperGet s); [|apply Keeps_ret].
    destruct (OutputMapper s); apply Keeps_ret.
Qed.

Lemma Keeps_forRange J P {A : Type} (l : list A) (body : A -> M St unit) :
  (forall a, Keeps J P (body a)) -> Keeps J P (forRange l body).
Proof.
  intros Hb. induction l as [|a rest IH]; cbn [forRange]; [apply Keeps_ret|].
  apply Keeps_bind; [apply Hb|intros _; exact IH].
Qed.

Lemma sameConfig_refl (s : Source) : sameConfig s s.
Proof. repeat split. Qed.

Lemma sameConfig_set_cache (s0 : Source) : cacheBlind (sameConfig s0).
Proof. intros c s H. exact H. Qed.

Lemma sameConfig_set_MaxResultsPerPage (s0 : Source) n s :
  sameConfig s0 s -> sameConfig s0 (set_MaxResultsPerPage n s).
Proof. intros H. exact H. Qed.

Lemma sameConfig_derived (s0 s : Source) :
  sameConfig s0 s ->
  Name s = Name s0 /\ cacheDuration s = cacheDuration s0 /\ Paginated s = Paginated s0 /\
  sourceScope s = sourceScope s0.
Proof.
  intros (HT & HD & _ & _ & _ & _ & HP & _ & HC & HA & _).
  unfold Name, cacheDuration, Paginated, sourceScope.
  rewrite HT, HD, HP, HC, HA. repeat split.
Qed.

Lemma Keeps_describePages J P fuel ctx input scope :
  P CallNextPage ->
  (forall output, P (CallOutputMapper scope input output)) ->
  forall pg items, Keeps J P (describePages fuel ctx input scope pg items).
Proof.
  intros HN HO. induction fuel as [|fuel IH]; intros pg items; cbn [describePages].
  - apply Keeps_timeout.
  - destruct (HasMorePages pg); [|apply Keeps_ret].
    apply Keeps_bind.
    + unfold call_NextPage. apply Keeps_bind; [apply Keeps_log; exact HN|intros _].
      apply Keeps_upcall.
    + intros [[output|err] pg']; [|apply Keeps_ret].
      apply Keeps_bind.
      * unfold call_OutputMapper. apply Keeps_self. intros s _.
        apply Keeps_callField. apply HO.
      * intros [newItems|err]; [apply IH|apply Keeps_ret].
Qed.

Lemma Keeps_describe J P (paginated : bool) fuel ctx input scope :
  (forall s, J s -> Paginated s = paginated) ->
  (paginated = true -> P CallNextPage /\ P (CallPaginatorBuilder input)) ->
  (paginated = false -> P (CallDescribeFunc input)) ->
  (forall output, P (CallOutputMapper scope input output)) ->
  Keeps J P (describe fuel ctx input scope).
Proof.
  intros HJ HPg HD HO. unfold describe. apply Keeps_self. intros s Hs.
  rewrite (HJ s Hs). destruct paginated.
  - destruct (HPg eq_refl) as [HN HB].
    apply Keeps_bind.
    + unfold call_PaginatorBuilder. apply Keeps_self. intros s1 _.
      destruct (PaginatorBuilder s1); [|apply Keeps_panic].
      apply Keeps_bind; [apply Keeps_log; exact HB|intros _; apply Keeps_ret].
    + intros pg. apply Keeps_describePages; assumption.
  - apply Keeps_bind.
    + unfold call_DescribeFunc. apply Keeps_self. intros s1 _.
      apply Keeps_callField. apply HD. reflexivity.
    + intros [output|err]; [|apply Keeps_ret].
      apply Keeps_bind.
      * unfold call_OutputMapper. apply Keeps_self. intros s1 _.
        apply Keeps_callField. apply HO.
      * intros [items|err]; apply Keeps_ret.
Qed.

Lemma Keeps_Get (s0 : Source) ctx scope query ignoreCache :
  Keeps (sameConfig s0) (allowedInGet s0 scope query) (Get ctx scope query ignoreCache).
Proof.
  pose proof (sameConfig_set_cache s0) as HC.
  unfold Get. apply Keeps_self. intros s Hs.
  destruct (sameConfig_derived _ _ Hs) as (HN & HD & _ & _).
  destruct Hs as (HT & _).
  apply Keeps_bind; [apply Keeps_index|intros scope0].
  destruct (negb (String.eqb scope scope0)); [apply Keeps_ret|].
  apply Keeps_bind; [apply Keeps_Validate; intros; assumption|intros [err|]];
    [apply Keeps_ret|].
  apply Keeps_bind; [apply Keeps_ensureCache; exact HC|intros _].
  apply Keeps_bind.
  { apply Keeps_cache_Lookup; [exact HC|]. cbn. rewrite HN, HT. repeat split. }
  intros hit. destruct (sdpcache.qErr hit); [apply Keeps_ret|].
  destruct (sdpcache.cacheHit hit).
  { destruct (sdpcache.cachedItems hit); apply Keeps_ret. }
  assert (Hstore : forall err, Keeps (sameConfig s0) (allowedInGet s0 scope query)
                     (run cache_StoreError err (cacheDuration s) (sdpcache.ck hit) in
                      ret (@None sdp.Item, Some err))).
  { intros err. apply Keeps_bind; [|intros _; apply Keeps_ret].
    apply Keeps_cache_StoreError; [exact HC|]. cbn. exact HD. }
  apply Keeps_bind.
  { unfold call_InputMapperGet. apply Keeps_callField. cbn. split; reflexivity. }
  intros [input|err]; [|apply Hstore].
  apply Keeps_bind.
  { unfold call_DescribeFunc. apply Keeps_self. intros s1 _.
    apply Keeps_callField. exact I. }
  intros [output|err]; [|apply Hstore].
  apply Keeps_bind.
  { unfold call_OutputMapper. apply Keeps_self. intros s1 _.
    apply Keeps_callField. reflexivity. }
  intros [items|err]; [|apply Hstore].
  cbv zeta.
  destruct (if UseListForGet s then filterItems query items else items)
    as [|item [|item' rest]]; [apply Hstore| |apply Hstore].
  apply Keeps_bind; [|intros _; apply Keeps_ret].
  apply Keeps_cache_StoreItem; [exact HC|]. cbn. exact HD.
Qed.

Lemma Keeps_List (s0 : Source) fuel ctx scope ignoreCache :
  Keeps (sameConfig s0) (allowedInList s0 scope) (List fuel ctx scope ignoreCache).
Proof.
  pose proof (sameConfig_set_cache s0) as HC.
  unfold List. apply Keeps_self. intros s Hs.
  destruct (sameConfig_derived _ _ Hs) as (HN & HD & _ & _).
  destruct Hs as (HT & _).
  apply Keeps_bind; [apply Keeps_index|intros scope0].
  destruct (negb (String.eqb scope scope0)); [apply Keeps_ret|].
  destruct (InputMapperList s); [|apply Keeps_ret].
  apply Keeps_bind; [apply Keeps_Validate; intros; assumption|intros [err|]];
    [apply Keeps_ret|].
  apply Keeps_bind; [apply Keeps_ensureCache; exact HC|intros _].
  apply Keeps_bind.
  { apply Keeps_cache_Lookup; [exact HC|]. cbn. rewrite HN, HT. repeat split. }
  intros hit. destruct (sdpcache.qErr hit); [apply Keeps_ret|].
  destruct (sdpcache.cacheHit hit); [apply Keeps_ret|].
  assert (Hstore : forall err, Keeps (sameConfig s0) (allowedInList s0 scope)
                     (run cache_StoreError err (cacheDuration s) (sdpcache.ck hit) in
                      ret (@nil sdp.Item, Some err))).
  { intros err. apply Keeps_bind; [|intros _; apply Keeps_ret].
    apply Keeps_cache_StoreError; [exact HC|]. cbn. exact HD. }
  apply Keeps_bind.
  { unfold call_InputMapperList. apply Keeps_callField. reflexivity. }
  intros [input|err]; [|apply Hstore].
  apply Keeps_bind.
  { apply (Keeps_describe _ _ (Paginated s0)); cbn; auto.
    intros s1 Hs1. apply (sameConfig_derived _ _ Hs1). }
  intros [items [err|]]; [apply Hstore|].
  apply Keeps_bind; [|intros _; apply Keeps_ret].
  apply Keeps_forRange. intros item.
  apply Keeps_cache_StoreItem; [exact HC|]. cbn. exact HD.
Qed.

(** A custom search never runs [Validate]: it leaves the page size alone
    as well. *)
Lemma Keeps_searchCustom (s0 : Source) fuel ctx scope query :
  let J := fun s => sameConfig s0 s /\ MaxResultsPerPage s = MaxResultsPerPage s0 in
  Keeps J (allowedInCustomSearch s0 scope query)
    (searchCustom fuel ctx scope query
       (sdpcache.CacheKeyFromParts (Name s0) sdp.QueryMethod_SEARCH scope (ItemType s0)
          query)).
Proof.
  intros J.
  assert (HC : cacheBlind J) by (intros c s H; exact H).
  unfold searchCustom. apply Keeps_self. intros s [Hs _].
  destruct (sameConfig_derived _ _ Hs) as (HN & HD & _ & _).
  apply Keeps_bind.
  { unfold call_InputMapperSearch. apply Keeps_self. intros s1 _.
    apply Keeps_callField. cbn. split; reflexivity. }
  intros [input|err]; [|apply Keeps_ret].
  apply Keeps_bind.
  { apply (Keeps_describe _ _ (Paginated s0)); cbn; auto.
    intros s1 [Hs1 _]. apply (sameConfig_derived _ _ Hs1). }
  intros [items [err|]].
  - apply Keeps_bind; [|intros _; apply Keeps_ret].
    apply Keeps_cache_StoreError; [exact HC|]. cbn. split; [exact HD|reflexivity].
  - apply Keeps_bind; [|intros _; apply Keeps_ret].
    apply Keeps_forRange. intros item.
    apply Keeps_cache_StoreItem; [exact HC|]. cbn. split; [exact HD|reflexivity].
Qed.

Lemma Keeps_searchARN (s0 : Source) ctx scope query ignoreCache :
  Keeps (sameConfig s0)
    (fun e => exists a, ParseARN query = inl a /\ allowedInGet s0 scope (ResourceID a) e)
    (searchARN ctx scope query ignoreCache).
Proof.
  unfold searchARN. destruct (ParseARN query) as [a|err] eqn:E; [|apply Keeps_ret].
  destruct (negb _); [apply Keeps_ret|].
  apply Keeps_bind.
  - intros st o st' HJ Hrun.
    destruct (Keeps_Get s0 ctx scope (ResourceID a) ignoreCache st o st' HJ Hrun)
      as (HJ' & events & Ht & HP).
    split; [exact HJ'|]. exists events. split; [exact Ht|].
    eapply Forall_impl; [exact HP|]. intros e He. exists a. split; [reflexivity|exact He].
  - intros [item [err|]]; apply Keeps_ret.
Qed.

(** X1: whatever the callbacks and the cache do, and whether it returns or
    panics, [Get] changes nothing of the source but its cache and its page
    size, looks the cache up only under the GET key of the query, stores
    only for the cache duration of the source, and calls no callback but
    [InputMapperGet], [DescribeFunc] and [OutputMapper]: the paginator is
    never used, on a paginated source either. *)
Theorem Get_never_lists_nor_paginates
    (st st' : St) (ctx : Ctx) (scope query : string) (ignoreCache : bool)
    (o : Outcome (option sdp.Item * option error)) :
  Get ctx scope query ignoreCache st = (o, st') ->
  sameConfig (self st) (self st') /\
  exists events : list Ev,
    trace st' = (trace st ++ events)%list /\
    Forall (allowedInGet (self st) scope query) events.
Proof.
  intros Hrun.
  exact (Keeps_Get (self st) ctx scope query ignoreCache st o st'
           (sameConfig_refl _) Hrun).
Qed.

(** X2: whatever the callbacks and the cache do, [List] changes nothing of
    the source but its cache and its page size, looks the cache up only
    under the LIST key of the scope, stores only for the cache duration,
    never calls [InputMapperGet] or [InputMapperSearch], never calls
    [DescribeFunc] on a paginated source and never builds or advances a
    paginator on an unpaginated one. *)
Theorem List_describes_one_way_only
    (st st' : St) (fuel : nat) (ctx : Ctx) (scope : string) (ignoreCache : bool)
    (o : Outcome (list sdp.Item * option error)) :
  List fuel ctx scope ignoreCache st = (o, st') ->
  sameConfig (self st) (self st') /\
  exists events : list Ev,
    trace st' = (trace st ++ events)%list /\
    Forall (allowedInList (self st) scope) events.
Proof.
  intros Hrun.
  exact (Keeps_List (self st) fuel ctx scope ignoreCache st o st'
           (sameConfig_refl _) Hrun).
Qed.

(** X3: [Search] changes nothing of the source but its cache and its page
    size.  With a custom search mapper it does not even change the page
    size ([Validate] is not run), never looks the cache up, and stores only
    under the SEARCH key of the query for the cache duration of the source;
    without one, it does what a [Get] for the resource id of the ARN may do,
    and nothing at all when the query is no ARN. *)
Theorem Search_stays_within_its_method
    (st st' : St) (fuel : nat) (ctx : Ctx) (scope query : string) (ignoreCache : bool)
    (o : Outcome (list (option sdp.Item) * option error)) :
  Search fuel ctx scope query ignoreCache st = (o, st') ->
  let s := self st in
  sameConfig s (self st') /\
  exists events : list Ev,
    trace st' = (trace st ++ events)%list /\
    match InputMapperSearch s with
    | Some _ =>
        MaxResultsPerPage (self st') = MaxResultsPerPage s /\
        Forall (allowedInCustomSearch s scope query) events
    | None =>
        match ParseARN query with
        | inl a => Forall (allowedInGet s scope (ResourceID a)) events
        | inr _ => events = []
        end
    end.
Proof.
  destruct st as [s u t]. cbn [self trace]. intros Hrun. cbv zeta.
  unfold Search in Hrun.
  erewrite bind_Ok in Hrun; [|apply gets_run].
  erewrite bind_Ok in Hrun; [|apply index_Scopes_run].
  cbn [self] in Hrun.
  destruct (negb (String.eqb scope (sourceScope s))).
  { inversion Hrun; subst. split; [apply sameConfig_refl|].
    exists []. cbn [trace]. rewrite app_nil_r. split; [reflexivity|].
    destruct (InputMapperSearch s); [split; [reflexivity|constructor]|].
    destruct (ParseARN query); [constructor|reflexivity]. }
  destruct (InputMapperSearch s) as [f|] eqn:HS.
  - destruct (Keeps_searchCustom s fuel ctx scope query (mk s u t) o st'
                (conj (sameConfig_refl _) eq_refl) Hrun)
      as ([HJ HM] & events & Ht & HP).
    split; [exact HJ|]. exists events. cbn [trace] in Ht. auto.
  - destruct (Keeps_searchARN s ctx scope query ignoreCache (mk s u t) o st'
                (sameConfig_refl _) Hrun) as (HJ & events & Ht & HP).
    split; [exact HJ|]. exists events. cbn [trace] in Ht. split; [exact Ht|].
    destruct (ParseARN query) as [a|err] eqn:E.
    + eapply Forall_impl; [exact HP|]. intros e (a' & Ha & He).
      inversion Ha; subst a'. exact He.
    + destruct events as [|e rest]; [reflexivity|].
      inversion HP as [|? ? (a' & Ha & _) _]. discriminate Ha.
Qed.

End Frames.

Section MoreRuns.

Context {Ctx Input Output ClientStruct U Pg C : Type}.
Context {cacheImpl : sdpcache.Cache Ctx C}.
Context {paginatorImpl : Paginator Ctx Output U Pg}.
Context {helpers : Helpers}.

Local Abbreviation Source := (DescribeOnlySource Ctx Input Output ClientStruct U Pg C).
Local Abbreviation St := (State Ctx Input Output ClientStruct U Pg C).
Local Abbreviation Ev := (Event Input Output).
Local Abbreviation mk := (@Build_State Ctx Input Output ClientStruct U Pg C).

Tactic Notation "step" uconstr(E) :=
  erewrite bind_Ok; [|solve [eapply E; eauto]]; cbv beta iota.

(** The source [Validate] leaves: the page size is defaulted after the
    check of [DescribeFunc] and before the two others. *)
Lemma Validate_eq (s : Source) (u : U) (t : list Ev) :
  Validate (mk s u t) =
  (Ok (validationError s),
   mk (match DescribeFunc s with Some _ => validated s | None => s end) u t).
Proof.
  unfold Validate, validationError, validated, bind, gets; cbn [self].
  destruct (DescribeFunc s); [|reflexivity].
  destruct (MaxResultsPerPage s =? 0); unfold setSelf, modify, ret; cbn;
    destruct (InputMapperGet s); try reflexivity;
    destruct (OutputMapper s); reflexivity.
Qed.

Lemma validationError_wellFormed (s : Source) :
  validationError s = None <-> wellFormed s = true.
Proof.
  unfold validationError, wellFormed.
  destruct (DescribeFunc s), (InputMapperGet s), (OutputMapper s);
    split; intros H; try reflexivity; discriminate H.
Qed.

Lemma sameConfig_validated (s : Source) : sameConfig s (validated s).
Proof. unfold validated. destruct (MaxResultsPerPage s =? 0); repeat split. Qed.

(** X4: [Validate] reports the first missing callback, in the order
    describe func, get input mapper, output mapper, and succeeds exactly
    when the three are set.  Failing or not, it touches neither the cache,
    the upstream service nor any other field than the page size, which it
    changes only from zero to the default and only when [DescribeFunc] is
    set; a second [Validate] returns the same and changes nothing. *)
Theorem Validate_only_defaults_the_page_size (s : Source) (u : U) (t : list Ev) :
  exists s' : Source,
    Validate (mk s u t) = (Ok (validationError s), mk s' u t) /\
    (validationError s = None <-> wellFormed s = true) /\
    sameConfig s s' /\
    cache s' = cache s /\
    (MaxResultsPerPage s <> 0 \/ DescribeFunc s = None -> s' = s) /\
    (MaxResultsPerPage s = 0 -> DescribeFunc s <> None ->
     MaxResultsPerPage s' = DefaultMaxResultsPerPage) /\
    Validate (mk s' u t) = (Ok (validationError s), mk s' u t).
Proof.
  exists (match DescribeFunc s with Some _ => validated s | None => s end).
  split; [apply Validate_eq|]. split; [apply validationError_wellFormed|].
  destruct (validated_fields s) as (HC & HD & HG & _ & HO & _).
  destruct (DescribeFunc s) as [f|] eqn:E.
  - split; [apply sameConfig_validated|]. split; [exact HC|]. split; [|split].
    + intros [Hn|Hn]; [|discriminate Hn].
      unfold validated. apply Z.eqb_neq in Hn. rewrite Hn. reflexivity.
    + intros H0 _. unfold validated. rewrite H0. reflexivity.
    + rewrite Validate_eq. unfold validationError.
      rewrite HD, HG, HO, E, validated_idem. reflexivity.
  - split; [apply sameConfig_refl|]. split; [reflexivity|]. split; [|split].
    + reflexivity.
    + intros _ H. congruence.
    + rewrite Validate_eq, E. reflexivity.
Qed.

Lemma Get_invalid (s : Source) (u : U) (t : list Ev) (ctx : Ctx) (scope query : string)
    (ignoreCache : bool) (err : error) :
  scope = sourceScope s ->
  validationError s = Some err ->
  Get ctx scope query ignoreCache (mk s u t) =
  (Ok (None, Some (QueryErr (WrapAWSError err))),
   mk (match DescribeFunc s with Some _ => validated s | None => s end) u t).
Proof.
  intros Hscope Herr. unfold Get.
  step gets_run. step index_Scopes_run. cbn [self].
  rewrite <- Hscope, String.eqb_refl; cbn [negb].
  erewrite bind_Ok; [|apply Validate_eq]. rewrite Herr. reflexivity.
Qed.

(** X5: on a source that [Validate] rejects, [Get], [List] (of a source with
    a list mapper) and the default [Search] return the error of [Validate]
    wrapped by [WrapAWSError] (twice by [Search], which wraps what [Get]
    returns), and they do so before the cache is created or looked up and
    before any callback runs: no event is logged, nothing is stored, the
    upstream service is not reached. *)
Theorem misconfigured_source_fails_before_cache_and_upstream
    (st : St) (fuel : nat) (ctx : Ctx) (scope query : string) (ignoreCache : bool)
    (err : error) :
  let s := self st in
  scope = sourceScope s ->
  validationError s = Some err ->
  exists s' : Source,
    let st' := mk s' (upstream st) (trace st) in
    let wrapped := QueryErr (WrapAWSError err) in
    sameConfig s s' /\
    cache s' = cache s /\
    Get ctx scope query ignoreCache st = (Ok (None, Some wrapped), st') /\
    (InputMapperList s <> None ->
     List fuel ctx scope ignoreCache st = (Ok ([], Some wrapped), st')) /\
    (InputMapperSearch s = None ->
     forall a,
       ParseARN query = inl a ->
       FormatScope (arn.AccountID a) (arn.Region a) = scope ->
       Search fuel ctx scope query ignoreCache st
       = (Ok ([], Some (QueryErr (WrapAWSError wrapped))), st')).
Proof.
  destruct st as [s u t]; cbn [self upstream trace].
  intros Hscope Herr.
  exists (match DescribeFunc s with Some _ => validated s | None => s end).
  cbv zeta.
  split; [destruct (DescribeFunc s); [apply sameConfig_validated|apply sameConfig_refl]|].
  split.
  { destruct (validated_fields s) as (HC & _). destruct (DescribeFunc s); [exact HC|reflexivity]. }
  split; [apply Get_invalid; assumption|]. split.
  - intros HL. unfold List.
    step gets_run. step index_Scopes_run. cbn [self].
    rewrite <- Hscope, String.eqb_refl; cbn [negb].
    destruct (InputMapperList s); [|congruence].
    erewrite bind_Ok; [|apply Validate_eq]. rewrite Herr. reflexivity.
  - intros HS a Ha Hsc.
    rewrite (Search_enter (mk s u t) fuel ctx scope query ignoreCache Hscope).
    cbn [self]. rewrite HS. unfold searchARN. rewrite Ha, Hsc, String.eqb_refl.
    cbn [negb].
    erewrite bind_Ok;
      [|exact (Get_invalid s u t ctx scope (ResourceID a) ignoreCache err Hscope Herr)].
    reflexivity.
Qed.

(** X6: a [Search] with a custom search mapper does not run [Validate].  On
    an unpaginated source whose [DescribeFunc] is nil it calls the nil
    function and panics once the search mapper has returned an input, and on
    one whose [OutputMapper] is nil it panics once [DescribeFunc] has
    answered, where [Get] returns the error of [Validate] and calls
    nothing. *)
Theorem custom_Search_on_a_misconfigured_source_panics
    (st : St) (fuel : nat) (ctx : Ctx) (scope query : string) (ignoreCache : bool)
    inputMapperSearch (input : Input) (u1 : U) :
  let s := self st in
  scope = sourceScope s ->
  InputMapperSearch s = Some inputMapperSearch ->
  PaginatorBuilder s = None ->
  inputMapperSearch ctx (Client s) scope query (upstream st) = (inl input, u1) ->
  let t1 := (trace st ++ [CallInputMapperSearch scope query])%list in
  (DescribeFunc s = None ->
   (exists msg, Search fuel ctx scope query ignoreCache st = (Panic msg, mk s u1 t1)) /\
   exists e, Get ctx scope query ignoreCache st = (Ok (None, Some e), st)) /\
  (forall describeFunc output u2,
     DescribeFunc s = Some describeFunc ->
     describeFunc ctx (Client s) input u1 = (inl output, u2) ->
     OutputMapper s = None ->
     (exists msg,
        Search fuel ctx scope query ignoreCache st
        = (Panic msg, mk s u2 (t1 ++ [CallDescribeFunc input]))) /\
     exists e st',
       Get ctx scope query ignoreCache st = (Ok (None, Some e), st') /\
       trace st' = trace st /\ upstream st' = upstream st).
Proof.
  destruct st as [s u t]; cbn [self upstream trace].
  intros Hscope HS HP Him. cbv zeta.
  assert (Hsearch : Search fuel ctx scope query ignoreCache (mk s u t) =
      bind (describe fuel ctx input scope)
        (fun described =>
           match described with
           | (_, Some err) =>
               let err := QueryErr (WrapAWSError err) in
               run cache_StoreError err (cacheDuration s)
                     (sdpcache.CacheKeyFromParts (Name s) sdp.QueryMethod_SEARCH scope
                        (ItemType s) query) in
               ret ([], Some err)
           | (items, None) =>
               run forRange items
                     (fun item => cache_StoreItem item (cacheDuration s)
                        (sdpcache.CacheKeyFromParts (Name s) sdp.QueryMethod_SEARCH scope
                           (ItemType s) query)) in
               ret (map Some items, None)
           end)
        (mk s u1 (t ++ [CallInputMapperSearch scope query]))).
  { rewrite (Search_enter (mk s u t) fuel ctx scope query ignoreCache Hscope).
    cbn [self]. rewrite HS. unfold searchCustom.
    step gets_run. cbn [self].
    erewrite bind_Ok; [|eapply call_InputMapperSearch_run; [exact HS|exact Him]].
    reflexivity. }
  split.
  - intros HD. split.
    + eexists. rewrite Hsearch. unfold describe.
      unfold bind at 1. unfold bind at 1. rewrite gets_run. cbn [self].
      unfold Paginated. rewrite HP.
      unfold bind at 1. unfold call_DescribeFunc. unfold bind at 1.
      rewrite gets_run. cbn [self]. rewrite callField_eq, HD. reflexivity.
    + eexists. rewrite (Get_invalid s u t ctx scope query ignoreCache
                          (errors_New "source describe func is nil") Hscope).
      * rewrite HD. reflexivity.
      * unfold validationError. rewrite HD. reflexivity.
  - intros describeFunc output u2 HD HdF HO. split.
    + eexists. rewrite Hsearch. unfold describe.
      unfold bind at 1. unfold bind at 1. rewrite gets_run. cbn [self].
      unfold Paginated. rewrite HP.
      unfold bind at 1.
      erewrite call_DescribeFunc_run; [|exact HD|exact HdF].
      unfold bind at 1. unfold call_OutputMapper. unfold bind at 1.
      rewrite gets_run. cbn [self]. rewrite callField_eq, HO. reflexivity.
    + assert (HV : exists err, validationError s = Some err).
      { unfold validationError. rewrite HD, HO.
        destruct (InputMapperGet s); eexists; reflexivity. }
      destruct HV as [err HV].
      eexists _, _. split; [apply (Get_invalid s u t ctx scope query ignoreCache err Hscope HV)|].
      split; reflexivity.
Qed.

(** [Get] when [InputMapperGet] fails. *)
Lemma Get_InputMapperGet_error (st : St) (ctx : Ctx) (scope query : string)
    (ignoreCache : bool) inputMapperGet hit c1 err u1 :
  let s := self st in
  scope = sourceScope s ->
  wellFormed s = true ->
  InputMapperGet s = Some inputMapperGet ->
  sdpcache.Lookup ctx (Name s) sdp.QueryMethod_GET scope (ItemType s) query
    ignoreCache (theCache s) = (hit, c1) ->
  sdpcache.qErr hit = None ->
  sdpcache.cacheHit hit = false ->
  inputMapperGet scope query (upstream st) = (inr err, u1) ->
  let wrapped := QueryErr (WrapAWSError err) in
  Get ctx scope query ignoreCache st =
  (Ok (None, Some wrapped),
   leaves s (sdpcache.StoreError wrapped (cacheDuration s) (sdpcache.ck hit) c1) u1
     (trace st ++
      [CacheLookup (Name s) sdp.QueryMethod_GET scope (ItemType s) query ignoreCache;
       CallInputMapperGet scope query;
       CacheStoreError wrapped (cacheDuration s) (sdpcache.ck hit)])).
Proof.
  destruct st as [s u t]; cbn [self upstream trace].
  intros Hscope Hwf HG HL Hq Hh HiG. cbv zeta.
  destruct (leaves_fields s c1) as (FD & FG & _ & FO & _ & FC).
  unfold Get.
  step gets_run. step index_Scopes_run. cbn [self].
  rewrite <- Hscope, String.eqb_refl; cbn [negb].
  erewrite enter_run; [|exact Hwf|exact HL].
  rewrite Hq, Hh. unfold leaves.
  erewrite bind_Ok;
    [|eapply call_InputMapperGet_run; [rewrite FG; exact HG|exact HiG]].
  cbv beta iota zeta.
  erewrite bind_Ok; [|eapply cache_StoreError_run].
  rewrite stored_set_cache. unfold ret.
  repeat rewrite <- app_assoc. reflexivity.
Qed.

(** [Get] when [OutputMapper] fails. *)
Lemma Get_OutputMapper_error (st : St) (ctx : Ctx) (scope query : string)
    (ignoreCache : bool) describeFunc inputMapperGet outputMapper hit c1
    input u1 output u2 err u3 :
  let s := self st in
  scope = sourceScope s ->
  DescribeFunc s = Some describeFunc ->
  InputMapperGet s = Some inputMapperGet ->
  OutputMapper s = Some outputMapper ->
  sdpcache.Lookup ctx (Name s) sdp.QueryMethod_GET scope (ItemType s) query
    ignoreCache (theCache s) = (hit, c1) ->
  sdpcache.qErr hit = None ->
  sdpcache.cacheHit hit = false ->
  inputMapperGet scope query (upstream st) = (inl input, u1) ->
  describeFunc ctx (Client s) input u1 = (inl output, u2) ->
  outputMapper ctx (Client s) scope input output u2 = (inr err, u3) ->
  let wrapped := QueryErr (WrapAWSError err) in
  Get ctx scope query ignoreCache st =
  (Ok (None, Some wrapped),
   leaves s (sdpcache.StoreError wrapped (cacheDuration s) (sdpcache.ck hit) c1) u3
     (trace st ++
      [CacheLookup (Name s) sdp.QueryMethod_GET scope (ItemType s) query ignoreCache;
       CallInputMapperGet scope query; CallDescribeFunc input;
       CallOutputMapper scope input output;
       CacheStoreError wrapped (cacheDuration s) (sdpcache.ck hit)])).
Proof.
  destruct st as [s u t]; cbn [self upstream trace].
  intros Hscope HD HG HO HL Hq Hh HiG HdF HoM. cbv zeta.
  destruct (leaves_fields s c1) as (FD & FG & _ & FO & _ & FC).
  unfold Get.
  step gets_run. step index_Scopes_run. cbn [self].
  rewrite <- Hscope, String.eqb_refl; cbn [negb].
  erewrite enter_run; [|eapply wellFormed_of; eauto|exact HL].
  rewrite Hq, Hh. unfold leaves.
  erewrite bind_Ok;
    [|eapply call_InputMapperGet_run; [rewrite FG; exact HG|exact HiG]].
  cbv beta iota.
  erewrite bind_Ok;
    [|eapply call_DescribeFunc_run; [rewrite FD; exact HD|rewrite FC; exact HdF]].
  cbv beta iota.
  erewrite bind_Ok;
    [|eapply call_OutputMapper_run; [rewrite FO; exact HO|rewrite FC; exact HoM]].
  cbv beta iota zeta.
  erewrite bind_Ok; [|eapply cache_StoreError_run].
  rewrite stored_set_cache. unfold ret.
  repeat rewrite <- app_assoc. reflexivity.
Qed.

(** X7: when the cache misses and [InputMapperGet] fails, [Get] returns the
    error wrapped by [WrapAWSError] and stores it under the key of the
    lookup; [DescribeFunc] is not called.  When [InputMapperGet] and
    [DescribeFunc] succeed and [OutputMapper] fails, [Get] does the same
    with the error of [OutputMapper]. *)
Theorem Get_mapper_error_is_returned_wrapped_and_stored
    (st : St) (ctx : Ctx) (scope query : string) (ignoreCache : bool)
    describeFunc inputMapperGet outputMapper hit c1 :
  let s := self st in
  scope = sourceScope s ->
  DescribeFunc s = Some describeFunc ->
  InputMapperGet s = Some inputMapperGet ->
  OutputMapper s = Some outputMapper ->
  sdpcache.Lookup ctx (Name s) sdp.QueryMethod_GET scope (ItemType s) query
    ignoreCache (theCache s) = (hit, c1) ->
  sdpcache.qErr hit = None ->
  sdpcache.cacheHit hit = false ->
  let d := cacheDuration s in
  let ck := sdpcache.ck hit in
  let lookup := CacheLookup (Name s) sdp.QueryMethod_GET scope (ItemType s) query
                  ignoreCache in
  (forall err u1,
     inputMapperGet scope query (upstream st) = (inr err, u1) ->
     let wrapped := QueryErr (WrapAWSError err) in
     Get ctx scope query ignoreCache st =
     (Ok (None, Some wrapped),
      leaves s (sdpcache.StoreError wrapped d ck c1) u1
        (trace st ++ [lookup; CallInputMapperGet scope query;
                      CacheStoreError wrapped d ck]))) /\
  (forall input u1 output u2 err u3,
     inputMapperGet scope query (upstream st) = (inl input, u1) ->
     describeFunc ctx (Client s) input u1 = (inl output, u2) ->
     outputMapper ctx (Client s) scope input output u2 = (inr err, u3) ->
     let wrapped := QueryErr (WrapAWSError err) in
     Get ctx scope query ignoreCache st =
     (Ok (None, Some wrapped),
      leaves s (sdpcache.StoreError wrapped d ck c1) u3
        (trace st ++ [lookup; CallInputMapperGet scope query; CallDescribeFunc input;
                      CallOutputMapper scope input output;
                      CacheStoreError wrapped d ck]))).
Proof.
  intros s Hscope HD HG HO HL Hq Hh d ck lookup. split.
  - intros err u1 HiG.
    exact (Get_InputMapperGet_error st ctx scope query ignoreCache inputMapperGet hit c1
             err u1 Hscope (wellFormed_of s _ _ _ HD HG HO) HG HL Hq Hh HiG).
  - intros input u1 output u2 err u3 HiG HdF HoM.
    exact (Get_OutputMapper_error st ctx scope query ignoreCache describeFunc
             inputMapperGet outputMapper hit c1 input u1 output u2 err u3
             Hscope HD HG HO HL Hq Hh HiG HdF HoM).
Qed.

(** X8: on a source without paginator, a [List] that misses the cache calls
    [InputMapperList], [DescribeFunc] and [OutputMapper] once each, in that
    order, returns the items of [OutputMapper] in their order, and stores
    them one by one, in that order, under the key of the lookup. *)
Theorem unpaginated_List_returns_and_stores_what_OutputMapper_made
    (st : St) (fuel : nat) (ctx : Ctx) (scope : string) (ignoreCache : bool)
    describeFunc inputMapperGet inputMapperList outputMapper hit c1
    input u1 output u2 items u3 :
  let s := self st in
  scope = sourceScope s ->
  PaginatorBuilder s = None ->
  DescribeFunc s = Some describeFunc ->
  InputMapperGet s = Some inputMapperGet ->
  InputMapperList s = Some inputMapperList ->
  OutputMapper s = Some outputMapper ->
  sdpcache.Lookup ctx (Name s) sdp.QueryMethod_LIST scope (ItemType s) EmptyString
    ignoreCache (theCache s) = (hit, c1) ->
  sdpcache.qErr hit = None ->
  sdpcache.cacheHit hit = false ->
  inputMapperList scope (upstream st) = (inl input, u1) ->
  describeFunc ctx (Client s) input u1 = (inl output, u2) ->
  outputMapper ctx (Client s) scope input output u2 = (inl items, u3) ->
  let d := cacheDuration s in
  let ck := sdpcache.ck hit in
  List fuel ctx scope ignoreCache st =
  (Ok (items, None),
   leaves s (storeItems items d ck c1) u3
     (trace st ++ listEvents s scope ignoreCache ++
      [CallDescribeFunc input; CallOutputMapper scope input output] ++
      storeEvents items d ck)).
Proof.
  destruct st as [s u t]; cbn [self upstream trace].
  intros Hscope HP HD HG HL HO Hlook Hq Hh Him HdF HoM. cbv zeta.
  destruct (leaves_fields s c1) as (FD & FG & _ & FO & FP & FC).
  cbv zeta in FD, FG, FO, FP, FC.
  assert (Hwf : wellFormed s = true) by (eapply wellFormed_of; eauto).
  rewrite (List_miss (mk s u t) fuel ctx scope ignoreCache inputMapperList hit c1
             input u1 (items, None) u3
             ((t ++ listEvents s scope ignoreCache) ++
              [CallDescribeFunc input; CallOutputMapper scope input output])
             Hscope HL Hwf Hlook Hq Hh Him).
  - cbn [self upstream trace]. repeat rewrite <- app_assoc. reflexivity.
  - cbn [self upstream trace]. unfold leaves.
    eapply describe_once.
    + rewrite FP. exact HP.
    + rewrite FD. exact HD.
    + rewrite FO. exact HO.
    + rewrite FC. exact HdF.
    + rewrite FC. exact HoM.
Qed.

(** [List] when the list mapper fails. *)
Lemma List_mapper_error_run (st : St) (fuel : nat) (ctx : Ctx) (scope : string)
    (ignoreCache : bool) inputMapperList hit c1 err u1 :
  let s := self st in
  scope = sourceScope s ->
  InputMapperList s = Some inputMapperList ->
  wellFormed s = true ->
  sdpcache.Lookup ctx (Name s) sdp.QueryMethod_LIST scope (ItemType s) EmptyString
    ignoreCache (theCache s) = (hit, c1) ->
  sdpcache.qErr hit = None ->
  sdpcache.cacheHit hit = false ->
  inputMapperList scope (upstream st) = (inr err, u1) ->
  let wrapped := QueryErr (WrapAWSError err) in
  List fuel ctx scope ignoreCache st =
  (Ok ([], Some wrapped),
   leaves s (sdpcache.StoreError wrapped (cacheDuration s) (sdpcache.ck hit) c1) u1
     (trace st ++ listEvents s scope ignoreCache ++
      [CacheStoreError wrapped (cacheDuration s) (sdpcache.ck hit)])).
Proof.
  destruct st as [s u t]; cbn [self upstream trace].
  intros Hscope HL Hwf Hlook Hq Hh Him.
  destruct (leaves_fields s c1) as (_ & _ & FL & _).
  unfold List.
  step gets_run. step index_Scopes_run. cbn [self].
  rewrite <- Hscope, String.eqb_refl; cbn [negb]. rewrite HL.
  erewrite enter_run; [|exact Hwf|exact Hlook].
  rewrite Hq, Hh. unfold leaves in *.
  erewrite bind_Ok;
    [|eapply call_InputMapperList_run; [rewrite FL; exact HL|exact Him]].
  cbv beta iota zeta.
  erewrite bind_Ok; [|eapply cache_StoreError_run].
  rewrite stored_set_cache. unfold ret, listEvents.
  repeat rewrite <- app_assoc. reflexivity.
Qed.

(** X9: [Cache] never returns nil and never replaces a cache: it returns
    the cache of the source when there is one, and a new one, which it
    installs, when there is none; a second call returns the same cache and
    changes nothing.  Nothing is logged and no other field is written. *)
Theorem Cache_creates_the_cache_once (s : Source) (u : U) (t : list Ev) :
  let c := match cache s with Some c => c | None => sdpcache.NewCache end in
  let st' := mk (set_cache (Some c) s) u t in
  Cache (mk s u t) = (Ok (Some c), st') /\
  Cache st' = (Ok (Some c), st') /\
  sameConfig s (self st') /\
  MaxResultsPerPage (self st') = MaxResultsPerPage s /\
  (cache s <> None -> self st' = s).
Proof.
  cbv zeta. unfold Cache, ensureCache, bind, gets, setSelf, modify, ret. cbn [self].
  destruct s as [m it cd c df img iml ims pb om cfg acc cl ulg]; cbn.
  destruct c as [c|]; cbn; repeat split; intros H; congruence.
Qed.

End MoreRuns.

Section MoreWithModelCache.

Context {Ctx Input Output ClientStruct U Pg : Type}.
Context {paginatorImpl : Paginator Ctx Output U Pg}.
Context {helpers : Helpers}.

Local Abbreviation MC := modelcache.ModelCache.
Local Abbreviation Source := (DescribeOnlySource Ctx Input Output ClientStruct U Pg MC).
Local Abbreviation St := (State Ctx Input Output ClientStruct U Pg MC).
Local Abbreviation Ev := (Event Input Output).
Local Abbreviation mk := (@Build_State Ctx Input Output ClientStruct U Pg MC).
Local Abbreviation key := sdpcache.CacheKeyFromParts.
Local Abbreviation storeAll := (storeItems (Ctx:=Ctx) (C:=MC)).

(** A lookup that would miss misses all the more when the cache is to be
    ignored. *)
Lemma model_Lookup_miss_any n m sc ty q ic (c : MC) :
  sdpcache.cacheHit (fst (modelcache.Lookup n m sc ty q false c)) = false ->
  modelcache.Lookup n m sc ty q ic c = (modelcache.miss (key n m sc ty q), c).
Proof.
  intros H. destruct ic; [reflexivity|]. apply model_Lookup_miss. exact H.
Qed.

(** X10: when the cache holds nothing live under the key of the query and
    the callbacks yield exactly one item (after the filter of
    [UseListForGet], when set), [Get] returns that item and stores it, and a
    second [Get] for the same query with [ignoreCache = false], run on the
    state the first one left, returns the same item after a single cache
    lookup: no callback runs and the upstream state is untouched. *)
Theorem Get_stores_its_item_and_serves_it_again
    (st : St) (ctx : Ctx) (scope query : string) (ignoreCache : bool)
    describeFunc inputMapperGet outputMapper input u1 output u2 items u3 item :
  let s := self st in
  scope = sourceScope s ->
  DescribeFunc s = Some describeFunc ->
  InputMapperGet s = Some inputMapperGet ->
  OutputMapper s = Some outputMapper ->
  0 <= CacheDuration s ->
  sdpcache.cacheHit
    (fst (sdpcache.Lookup ctx (Name s) sdp.QueryMethod_GET scope (ItemType s) query
            false (theCache s))) = false ->
  inputMapperGet scope query (upstream st) = (inl input, u1) ->
  describeFunc ctx (Client s) input u1 = (inl output, u2) ->
  outputMapper ctx (Client s) scope input output u2 = (inl items, u3) ->
  (if UseListForGet s then filterItems query items else items) = [item] ->
  let ck := key (Name s) sdp.QueryMethod_GET scope (ItemType s) query in
  let d := cacheDuration s in
  exists st1 : St,
    Get ctx scope query ignoreCache st = (Ok (Some item, None), st1) /\
    trace st1 = (trace st ++ getEvents s scope query ignoreCache input output ++
                 [CacheStoreItem item d ck])%list /\
    upstream st1 = u3 /\
    Get ctx scope query false st1 =
    (Ok (Some item, None),
     mk (self st1) (upstream st1)
        (trace st1 ++ [CacheLookup (Name s) sdp.QueryMethod_GET scope (ItemType s)
                         query false])).
Proof.
  intros s Hscope HD HG HO Hdur Hmiss HiG HdF HoM Hone ck d.
  pose proof (cacheDuration_pos s Hdur) as Hd.
  pose proof (model_Lookup_miss_any _ _ _ _ _ ignoreCache _ Hmiss) as HL.
  pose proof (model_Lookup_miss_liveItems _ _ _ _ _ _ Hmiss) as Hlive.
  pose proof (Get_miss st ctx scope query ignoreCache _ _ _ _ _ _ _ _ _ _ _
                Hscope HD HG HO HL eq_refl eq_refl HiG HdF HoM) as Hrun.
  cbv zeta in Hrun. fold s d in Hrun. rewrite Hone in Hrun.
  cbn [sdpcache.ck modelcache.miss] in Hrun. fold ck in Hrun.
  set (c' := modelcache.StoreItem item d ck (theCache s)) in *.
  eexists. split; [exact Hrun|]. split; [reflexivity|]. split; [reflexivity|].
  destruct (left_source s c') as (LS & LN & LT & _ & LW & LC & _).
  cbv zeta in LS, LN, LT, LW, LC.
  rewrite (Get_hit (leaves s c' u3 _) ctx scope query false
             {| sdpcache.cacheHit := true; sdpcache.ck := ck;
                sdpcache.cachedItems := [item]; sdpcache.qErr := None |} c').
  - unfold leaves. cbn [self upstream trace sdpcache.cachedItems head].
    rewrite LN, LT, validated_set_cache, validated_idem. reflexivity.
  - unfold leaves; cbn [self]. rewrite LS. exact Hscope.
  - unfold leaves; cbn [self]. rewrite LW. eapply wellFormed_of; eassumption.
  - unfold leaves; cbn [self]. rewrite LN, LT, LC.
    exact (model_Lookup_storeItems (Ctx:=Ctx) _ _ _ _ _ [item] d (theCache s) Hd
             ltac:(discriminate) Hlive).
  - reflexivity.
  - reflexivity.
Qed.

(** A [List] on the state a validated call left, when the cache then
    answers with an error. *)
Lemma List_again_error (s : Source) (c : MC) (u : U) (t : list Ev) (fuel : nat) (ctx : Ctx)
    (scope : string) (hit : sdpcache.LookupResult) (q : sdp.QueryError) inputMapperList :
  scope = sourceScope s ->
  InputMapperList s = Some inputMapperList ->
  wellFormed s = true ->
  modelcache.Lookup (Name s) sdp.QueryMethod_LIST scope (ItemType s) EmptyString false c
    = (hit, c) ->
  sdpcache.qErr hit = Some q ->
  let st1 := leaves s c u t in
  List fuel ctx scope false st1 =
  (Ok ([], Some (QueryErr q)),
   mk (self st1) (upstream st1)
      (trace st1 ++ [CacheLookup (Name s) sdp.QueryMethod_LIST scope (ItemType s)
                       EmptyString false])).
Proof.
  intros Hscope HL Hwf Hlook Hq st1.
  destruct (left_source s c) as (LS & LN & LT & _ & LW & LC & _).
  destruct (leaves_fields s c) as (_ & _ & FL & _).
  cbv zeta in LS, LN, LT, LW, LC, FL.
  rewrite (List_answered_by_cache st1 fuel ctx scope false inputMapperList hit c).
  - rewrite Hq.
    unfold st1, leaves. cbn [self upstream trace].
    rewrite LN, LT, validated_set_cache, validated_idem. reflexivity.
  - unfold st1, leaves; cbn [self]. rewrite LS. exact Hscope.
  - unfold st1, leaves; cbn [self]. rewrite FL. exact HL.
  - unfold st1, leaves; cbn [self]. rewrite LW. exact Hwf.
  - unfold st1, leaves; cbn [self]. rewrite LN, LT, LC. exact Hlook.
  - left. rewrite Hq. discriminate.
Qed.

(** X11: errors of [List] are cached as well.  When a [List] with
    [ignoreCache = false] on a source that passes [Validate] and has a list
    mapper returns an error, a second [List] for the same scope with
    [ignoreCache = false], run on the state the first one left, returns the
    same error after a single cache lookup: neither the list mapper,
    [DescribeFunc] nor the paginator runs and the upstream state is
    untouched. *)
Theorem failed_List_is_served_by_the_cache
    (st st1 : St) (fuel fuel' : nat) (ctx : Ctx) (scope : string)
    (items : list sdp.Item) (e : error) inputMapperList :
  let s := self st in
  scope = sourceScope s ->
  0 <= CacheDuration s ->
  InputMapperList s = Some inputMapperList ->
  wellFormed s = true ->
  List fuel ctx scope false st = (Ok (items, Some e), st1) ->
  items = [] /\
  List fuel' ctx scope false st1 =
  (Ok ([], Some e),
   mk (self st1) (upstream st1)
      (trace st1 ++ [CacheLookup (Name s) sdp.QueryMethod_LIST scope (ItemType s)
                       EmptyString false])).
Proof.
  destruct st as [s u t]; cbn [self].
  intros Hscope Hdur HL Hwf Hrun.
  pose proof (cacheDuration_pos s Hdur) as Hd.
  set (ck := key (Name s) sdp.QueryMethod_LIST scope (ItemType s) EmptyString).
  destruct (modelcache.Lookup (Name s) sdp.QueryMethod_LIST scope (ItemType s)
              EmptyString false (theCache s)) as [hit c1] eqn:Hlook.
  pose proof (model_Lookup_unchanged (Name s) sdp.QueryMethod_LIST scope (ItemType s)
                EmptyString false (theCache s)) as Hsame.
  rewrite Hlook in Hsame; cbn [snd] in Hsame; subst c1.
  assert (Hstored : forall (err : sdp.QueryError) u2 t2,
            List fuel' ctx scope false
              (leaves s (modelcache.StoreError (QueryErr err) (cacheDuration s) ck
                           (theCache s)) u2 t2)
            = (Ok ([], Some (QueryErr err)),
               mk (self (leaves s (modelcache.StoreError (QueryErr err) (cacheDuration s)
                                     ck (theCache s)) u2 t2)) u2
                  (t2 ++ [CacheLookup (Name s) sdp.QueryMethod_LIST scope (ItemType s)
                            EmptyString false]))).
  { intros err u2 t2.
    exact (List_again_error s _ u2 t2 fuel' ctx scope _ err inputMapperList Hscope HL Hwf
             (model_Lookup_StoreError _ _ _ _ _ (QueryErr err) (cacheDuration s)
                (theCache s) Hd) eq_refl). }
  destruct (sdpcache.qErr hit) as [q|] eqn:Hq.
  - (* the first call was answered by a cached error *)
    rewrite (List_answered_by_cache (cacheImpl:=modelCache Ctx) (mk s u t) fuel ctx scope
               false _ hit (theCache s) Hscope HL Hwf Hlook) in Hrun
      by (left; rewrite Hq; discriminate).
    rewrite Hq in Hrun. cbn [self upstream trace] in Hrun.
    inversion Hrun; subst items e st1. clear Hrun. split; [reflexivity|].
    exact (List_again_error s (theCache s) u _ fuel' ctx scope hit q inputMapperList
             Hscope HL Hwf Hlook Hq).
  - destruct (sdpcache.cacheHit hit) eqn:Hh.
    { rewrite (List_answered_by_cache (cacheImpl:=modelCache Ctx) (mk s u t) fuel ctx
                 scope false _ hit (theCache s) Hscope HL Hwf Hlook (or_intror Hh)) in Hrun.
      rewrite Hq in Hrun. congruence. }
    assert (Hmiss : sdpcache.cacheHit
                      (fst (modelcache.Lookup (Name s) sdp.QueryMethod_LIST scope
                              (ItemType s) EmptyString false (theCache s))) = false)
      by (rewrite Hlook; exact Hh).
    pose proof (model_Lookup_miss _ _ _ _ _ _ _ Hmiss) as Hlook'.
    fold ck in Hlook'.
    destruct (leaves_fields s (theCache s)) as (_ & _ & FL & _). cbv zeta in FL.
    destruct (inputMapperList scope u) as [[input|err] u1] eqn:Him.
    + rewrite (List_miss_bind (cacheImpl:=modelCache Ctx) (mk s u t) fuel ctx scope false
                 _ _ _ _ _ Hscope HL Hwf Hlook' eq_refl eq_refl Him) in Hrun.
      cbn [self upstream trace sdpcache.ck modelcache.miss] in Hrun.
      unfold bind at 1 in Hrun.
      destruct (describe fuel ctx input scope
                  (leaves s (theCache s) u1 (t ++ listEvents s scope false)))
        as [o st2] eqn:Hdesc.
      unfold leaves in Hdesc.
      destruct (CallbacksOnly_describe _ _ _ _ _ _ _ _ _ Hdesc)
        as [(u2 & events & -> & _) _].
      destruct o as [[its [err|]]| |]; cbv beta iota zeta in Hrun.
      * erewrite bind_Ok in Hrun; [|eapply cache_StoreError_run].
        unfold ret in Hrun. inversion Hrun; subst items e st1. clear Hrun.
        split; [reflexivity|].
        rewrite stored_set_cache. apply Hstored.
      * erewrite bind_Ok in Hrun; [|eapply forRange_StoreItem].
        unfold ret in Hrun. congruence.
      * congruence.
      * congruence.
    + (* the list mapper failed *)
      rewrite (List_mapper_error_run (cacheImpl:=modelCache Ctx) (mk s u t) fuel ctx scope
                 false _ _ _ _ _ Hscope HL Hwf Hlook' eq_refl eq_refl Him) in Hrun.
      cbn [self upstream trace sdpcache.ck modelcache.miss] in Hrun.
      inversion Hrun; subst items e st1. clear Hrun.
      split; [reflexivity|]. apply Hstored.
Qed.

End MoreWithModelCache.

(** * The capacity-provider paginator *)

Section CapacityProvidersPaginator.

Context {Ctx U : Type}.

Local Abbreviation Paginator := (ecs.DescribeCapacityProvidersPaginator Ctx U).
Local Abbreviation Client := (ecs.ECSClient Ctx U).
Local Abbreviation Request := ecs.DescribeCapacityProvidersInput.t.
Local Abbreviation Result := ecs.DescribeCapacityProvidersOutput.t.
Local Abbreviation requestToken := ecs.DescribeCapacityProvidersInput.NextToken.
Local Abbreviation resultToken := ecs.DescribeCapacityProvidersOutput.NextToken.

Lemma withNextToken_own (input : Request) :
  ecs.withNextToken (requestToken input) input = input.
Proof. destruct input; reflexivity. Qed.

Lemma NextPage_exhausted (ctx : Ctx) (p : Paginator) (u : U) :
  ecs.HasMorePages p = false ->
  ecs.NextPage ctx p u = (inr (errors_New "no more pages available"), p, u).
Proof. intros H. unfold ecs.NextPage. rewrite H. reflexivity. Qed.

Lemma NextPage_answer (ctx : Ctx) (p : Paginator) (u u' : U) (result : Result) :
  ecs.HasMorePages p = true ->
  ecs.DescribeCapacityProviders (ecs.client p) ctx
    (Some (ecs.withNextToken (ecs.nextToken p) (ecs.params p))) u = (inl result, u') ->
  ecs.NextPage ctx p u =
  (inl result,
   {| ecs.client := ecs.client p; ecs.params := ecs.params p;
      ecs.nextToken := match resultToken result with
                       | Some token =>
                           match ecs.nextToken p with
                           | Some prev => if String.eqb prev token then None else Some token
                           | None => Some token
                           end
                       | None => None
                       end;
      ecs.firstPage := false |},
   u').
Proof.
  intros H Hc. unfold ecs.NextPage. rewrite H, Hc. cbn [negb].
  destruct (ecs.nextToken p), (resultToken result); reflexivity.
Qed.

Lemma HasMorePages_after (p : Paginator) (result : Result) :
  let p' := {| ecs.client := ecs.client p; ecs.params := ecs.params p;
               ecs.nextToken := match resultToken result with
                                | Some token =>
                                    match ecs.nextToken p with
                                    | Some prev =>
                                        if String.eqb prev token then None else Some token
                                    | None => Some token
                                    end
                                | None => None
                                end;
               ecs.firstPage := false |} in
  ecs.HasMorePages p' = match ecs.continues (ecs.nextToken p) result with
                        | Some _ => true
                        | None => false
                        end /\
  (forall token, ecs.continues (ecs.nextToken p) result = Some token ->
                 ecs.nextToken p' = Some token).
Proof.
  cbv zeta. unfold ecs.HasMorePages, ecs.continues. cbn [ecs.firstPage ecs.nextToken orb].
  destruct (resultToken result) as [token|]; [|split; [reflexivity|discriminate]].
  destruct (ecs.nextToken p) as [prev|].
  - destruct (String.eqb prev token) eqn:E.
    + destruct (Nat.eqb (String.length token) 0); split; try reflexivity; discriminate.
    + destruct (Nat.eqb (String.length token) 0); split; try reflexivity;
        try discriminate. intros t Ht. exact Ht.
  - destruct (Nat.eqb (String.length token) 0); split; try reflexivity;
      try discriminate. intros t Ht. exact Ht.
Qed.

(** X12: a [NextPage] that fails leaves the paginator as it was.  On a
    paginator without more pages it fails with "no more pages available"
    and the client is not called; when the client fails its error is
    returned as it is and the next call sends the same request again. *)
Theorem failed_NextPage_leaves_the_paginator (ctx : Ctx) (p : Paginator) (u : U) :
  (ecs.HasMorePages p = false ->
   ecs.NextPage ctx p u = (inr (errors_New "no more pages available"), p, u)) /\
  (forall err p' u',
     ecs.NextPage ctx p u = (inr err, p', u') ->
     p' = p /\
     (ecs.HasMorePages p = true ->
      ecs.DescribeCapacityProviders (ecs.client p) ctx
        (Some (ecs.withNextToken (ecs.nextToken p) (ecs.params p))) u = (inr err, u'))).
Proof.
  split; [apply NextPage_exhausted|].
  intros err p' u' Hrun. unfold ecs.NextPage in Hrun.
  destruct (ecs.HasMorePages p); cbn [negb] in Hrun.
  - destruct (ecs.DescribeCapacityProviders (ecs.client p) ctx
                (Some (ecs.withNextToken (ecs.nextToken p) (ecs.params p))) u)
      as [[result|err'] u1]; [discriminate Hrun|].
    inversion Hrun; subst. split; [reflexivity|]. intros _. reflexivity.
  - inversion Hrun; subst. split; [reflexivity|]. discriminate.
Qed.

(** X13: a [NextPage] that succeeds has sent the request of the paginator
    with the token of the previous answer, and returns what the client
    answered.  The paginator then has more pages exactly when the answer
    carries a token that is neither empty nor the token just sent, and that
    token is the one the next request carries. *)
Theorem NextPage_threads_the_token_and_stops_on_a_repeat
    (ctx : Ctx) (p p' : Paginator) (u u' : U) (result : Result) :
  ecs.NextPage ctx p u = (inl result, p', u') ->
  ecs.HasMorePages p = true /\
  ecs.DescribeCapacityProviders (ecs.client p) ctx
    (Some (ecs.withNextToken (ecs.nextToken p) (ecs.params p))) u = (inl result, u') /\
  ecs.client p' = ecs.client p /\
  ecs.params p' = ecs.params p /\
  ecs.firstPage p' = false /\
  ecs.HasMorePages p' = match ecs.continues (ecs.nextToken p) result with
                        | Some _ => true
                        | None => false
                        end /\
  (forall token,
     ecs.continues (ecs.nextToken p) result = Some token ->
     ecs.nextToken p' = Some token /\
     String.length token <> 0%nat /\
     ecs.nextToken p <> Some token /\
     resultToken result = Some token).
Proof.
  intros Hrun.
  destruct (ecs.HasMorePages p) eqn:H.
  2:{ rewrite (NextPage_exhausted ctx p u H) in Hrun. discriminate Hrun. }
  destruct (ecs.DescribeCapacityProviders (ecs.client p) ctx
              (Some (ecs.withNextToken (ecs.nextToken p) (ecs.params p))) u)
    as [[result'|err] u1] eqn:Hc.
  2:{ unfold ecs.NextPage in Hrun. rewrite H, Hc in Hrun. discriminate Hrun. }
  rewrite (NextPage_answer ctx p u u1 result' H Hc) in Hrun.
  inversion Hrun; subst result' u1. clear Hrun.
  destruct (HasMorePages_after p result) as [Hmore Htoken]. cbv zeta in Hmore, Htoken.
  split; [reflexivity|]. split; [reflexivity|].
  subst p'. cbn [ecs.client ecs.params ecs.firstPage].
  split; [reflexivity|]. split; [reflexivity|]. split; [reflexivity|].
  split; [exact Hmore|].
  intros token Ht. split; [exact (Htoken token Ht)|].
  unfold ecs.continues in Ht.
  destruct (resultToken result) as [token'|]; [|discriminate Ht].
  destruct (Nat.eqb (String.length token') 0) eqn:El; [discriminate Ht|].
  apply Nat.eqb_neq in El.
  destruct (ecs.nextToken p) as [prev|].
  - destruct (String.eqb prev token') eqn:E; [discriminate Ht|].
    inversion Ht; subst token'. apply String.eqb_neq in E.
    repeat split; [exact El|congruence].
  - inversion Ht; subst token'. repeat split; [exact El|discriminate].
Qed.

(** X14: a new paginator always has a first page, whatever token the
    parameters carry, an empty one included; its first request is the
    parameters as they were given, or the empty input when they are nil. *)
Theorem new_paginator_requests_the_parameters_as_given
    (client : Client) (params : option Request) (ctx : Ctx) (u : U) :
  let p := ecs.NewDescribeCapacityProvidersPaginator client params in
  let input := match params with Some input => input | None => ecs.emptyInput end in
  let answer := ecs.DescribeCapacityProviders client ctx (Some input) u in
  ecs.HasMorePages p = true /\
  fst (fst (ecs.NextPage ctx p u)) = fst answer /\
  snd (ecs.NextPage ctx p u) = snd answer.
Proof.
  cbv zeta. split; [reflexivity|].
  unfold ecs.NextPage, ecs.NewDescribeCapacityProvidersPaginator.
  cbn [ecs.HasMorePages ecs.firstPage orb negb ecs.nextToken ecs.params ecs.client].
  rewrite withNextToken_own.
  destruct (ecs.DescribeCapacityProviders client ctx _ u) as [[result|err] u'];
    split; reflexivity.
Qed.

End CapacityProvidersPaginator.

Section CapacityProvidersInTheEngine.

Context {Ctx Input ClientStruct U C : Type}.

Local Abbreviation Paginator := (ecs.DescribeCapacityProvidersPaginator Ctx U).
Local Abbreviation Result := ecs.DescribeCapacityProvidersOutput.t.
Local Abbreviation Source :=
  (DescribeOnlySource Ctx Input Result ClientStruct U Paginator C).
Local Abbreviation St := (State Ctx Input Result ClientStruct U Paginator C).
Local Abbreviation Ev := (Event Input Result).
Local Abbreviation mk := (@Build_State Ctx Input Result ClientStruct U Paginator C).
Local Abbreviation requestToken := ecs.DescribeCapacityProvidersInput.NextToken.
Local Abbreviation resultToken := ecs.DescribeCapacityProvidersOutput.NextToken.

(** X15: when the service answers every request with the same non-empty
    token, the loop of [describe] over the capacity-provider paginator ends
    after exactly two pages: the first answer is new, the second repeats the
    token just sent.  The items of both pages are returned. *)
Theorem repeated_token_ends_the_paging_after_two_pages
    (s : Source) (u : U) (t : list Ev) (fuel : nat) (ctx : Ctx) (scope : string)
    (input : Input) (acc : list sdp.Item)
    (p : Paginator) (result : Result) (token : string) (serve : U -> U)
    outputMapper (items : list sdp.Item) :
  (forall request v,
     ecs.DescribeCapacityProviders (ecs.client p) ctx request v = (inl result, serve v)) ->
  resultToken result = Some token ->
  String.length token <> 0%nat ->
  ecs.HasMorePages p = true ->
  ecs.nextToken p <> Some token ->
  OutputMapper s = Some outputMapper ->
  (forall v, outputMapper ctx (Client s) scope input result v = (inl items, v)) ->
  (2 < fuel)%nat ->
  describePages fuel ctx input scope p acc (mk s u t) =
  (Ok ((acc ++ items ++ items)%list, None),
   mk s (serve (serve u))
     (t ++ [CallNextPage; CallOutputMapper scope input result;
            CallNextPage; CallOutputMapper scope input result])).
Proof.
  intros Hserve Htoken Hlen Hmore Hprev HO Hom Hfuel.
  assert (Hl : Nat.eqb (String.length token) 0 = false) by (apply Nat.eqb_neq; exact Hlen).
  pose proof (NextPage_answer ctx p u (serve u) result Hmore (Hserve _ _)) as H1.
  set (p1 := {| ecs.client := ecs.client p; ecs.params := ecs.params p;
                ecs.nextToken := Some token; ecs.firstPage := false |}).
  assert (H1' : ecs.NextPage ctx p u = (inl result, p1, serve u)).
  { rewrite H1, Htoken. unfold p1. destruct (ecs.nextToken p) as [prev|]; [|reflexivity].
    destruct (String.eqb prev token) eqn:E; [|reflexivity].
    apply String.eqb_eq in E. congruence. }
  assert (Hmore1 : ecs.HasMorePages p1 = true).
  { unfold ecs.HasMorePages, p1. cbn. rewrite Hl. reflexivity. }
  pose proof (NextPage_answer ctx p1 (serve u) (serve (serve u)) result Hmore1
                (Hserve _ _)) as H2.
  rewrite Htoken in H2. cbn [ecs.nextToken p1] in H2. unfold p1 at 2 in H2.
  cbn [ecs.nextToken] in H2. rewrite String.eqb_refl in H2.
  set (p2 := {| ecs.client := ecs.client p1; ecs.params := ecs.params p1;
                ecs.nextToken := None; ecs.firstPage := false |}) in H2.
  assert (Hmore2 : ecs.HasMorePages p2 = false) by reflexivity.
  assert (HD : Drains s ctx scope input p u [(result, items); (result, items)]
                 (serve (serve u))).
  { eapply Drains_page; [exact Hmore|exact H1'|exact HO|apply Hom|].
    eapply Drains_page; [exact Hmore1|exact H2|exact HO|apply Hom|].
    apply Drains_done. exact Hmore2. }
  rewrite (describePages_Drains s ctx scope input p u _ _ HD fuel t acc)
    by (cbn [length]; lia).
  cbn [map snd fst concat pageEvents flat_map app]. rewrite app_nil_r. reflexivity.
Qed.

(** X16: the paginator only stops on an empty token or on the token it has
    just sent.  When every answer of the service carries a token that is
    neither, for instance because it alternates between two tokens, and
    the output mapper accepts every page, the loop of [describe] never ends
    by itself: whatever the fuel, it is used up. *)
Theorem fresh_tokens_are_paged_for_ever
    (s : Source) (ctx : Ctx) (scope : string) (input : Input) outputMapper :
  OutputMapper s = Some outputMapper ->
  (forall output v, exists items v',
     outputMapper ctx (Client s) scope input output v = (inl items, v')) ->
  forall (fuel : nat) (p : Paginator) (u : U) (t : list Ev) (acc : list sdp.Item),
    (forall request v, exists result v',
       ecs.DescribeCapacityProviders (ecs.client p) ctx (Some request) v
         = (inl result, v') /\
       ecs.continues (requestToken request) result <> None) ->
    ecs.HasMorePages p = true ->
    fst (describePages fuel ctx input scope p acc (mk s u t)) = OutOfFuel.
Proof.
  intros HO Hom. induction fuel as [|fuel IH]; intros p u t acc Hfresh Hmore;
    [reflexivity|].
  cbn [describePages]. cbn [HasMorePages capacityProvidersPaginator]. rewrite Hmore.
  destruct (Hfresh (ecs.withNextToken (ecs.nextToken p) (ecs.params p)) u)
    as (result & u1 & Hc & Hcont).
  cbn [requestToken ecs.withNextToken] in Hcont.
  pose proof (NextPage_answer ctx p u u1 result Hmore Hc) as H1.
  destruct (HasMorePages_after p result) as [Hafter _]. cbv zeta in Hafter.
  erewrite bind_Ok; [|eapply call_NextPage_run; exact H1].
  cbv beta iota.
  destruct (Hom result u1) as (items & u2 & Hmap).
  erewrite bind_Ok; [|eapply call_OutputMapper_run; [exact HO|exact Hmap]].
  cbv beta iota.
  apply IH.
  - exact Hfresh.
  - rewrite Hafter. destruct (ecs.continues (ecs.nextToken p) result); congruence.
Qed.

End CapacityProvidersInTheEngine.

(** * The launch-template-version source *)

Section LaunchTemplateVersion.

Local Abbreviation dot := "."%char.

Lemma Split_nonempty (s : string) (sep : Ascii.ascii) : strings.Split s sep <> [].
Proof.
  destruct s as [|c rest]; cbn; [discriminate|].
  destruct (Ascii.eqb c sep); [discriminate|].
  destruct (strings.Split rest sep); discriminate.
Qed.

(** Splitting yields one piece more than there are separators. *)
Lemma Split_length (s : string) (sep : Ascii.ascii) :
  length (strings.Split s sep) = S (countByte sep s).
Proof.
  induction s as [|c rest IH]; cbn; [reflexivity|].
  destruct (Ascii.eqb c sep); cbn [length Nat.add]; [rewrite IH; reflexivity|].
  destruct (strings.Split rest sep) as [|piece pieces] eqn:E; [|exact IH].
  cbn in IH. discriminate IH.
Qed.

(** Joining the pieces with the separator gives the string back. *)
Lemma Split_join (s : string) (sep : Ascii.ascii) :
  String.concat (String sep EmptyString) (strings.Split s sep) = s.
Proof.
  induction s as [|c rest IH]; cbn [strings.Split]; [reflexivity|].
  destruct (Ascii.eqb c sep) eqn:E.
  - apply Ascii.eqb_eq in E. subst c.
    pose proof (Split_nonempty rest sep) as Hne.
    destruct (strings.Split rest sep) as [|piece pieces]; [congruence|].
    cbn in *. rewrite IH. reflexivity.
  - pose proof (Split_nonempty rest sep) as Hne.
    destruct (strings.Split rest sep) as [|piece pieces]; [congruence|].
    destruct pieces; cbn in *; rewrite <- IH; reflexivity.
Qed.

(** No piece holds the separator. *)
Lemma Split_pieces (s : string) (sep : Ascii.ascii) :
  Forall (fun piece => countByte sep piece = 0%nat) (strings.Split s sep).
Proof.
  induction s as [|c rest IH]; cbn [strings.Split].
  - repeat constructor.
  - destruct (Ascii.eqb c sep) eqn:E; [constructor; [reflexivity|exact IH]|].
    destruct (strings.Split rest sep) as [|piece pieces].
    + repeat constructor. cbn. rewrite E. reflexivity.
    + inversion IH; subst. constructor; [|assumption].
      cbn. rewrite E. assumption.
Qed.

Lemma Split_without (s : string) (sep : Ascii.ascii) :
  countByte sep s = 0%nat -> strings.Split s sep = [s].
Proof.
  induction s as [|c rest IH]; cbn; [reflexivity|].
  destruct (Ascii.eqb c sep); [discriminate|]. cbn. intros H.
  rewrite (IH H). reflexivity.
Qed.

Lemma Split_app (a b : string) (sep : Ascii.ascii) :
  countByte sep a = 0%nat ->
  strings.Split (a +:+ String sep b) sep = a :: strings.Split b sep.
Proof.
  induction a as [|c rest IH].
  - intros _. change (EmptyString +:+ String sep b) with (String sep b).
    cbn [strings.Split]. rewrite Ascii.eqb_refl. reflexivity.
  - change (String c rest +:+ String sep b) with (String c (rest +:+ String sep b)).
    cbn [strings.Split countByte].
    destruct (Ascii.eqb c sep); [discriminate|]. cbn [Nat.add]. intros H.
    rewrite (IH H). reflexivity.
Qed.

Lemma string_of_uint_no_dot (d : Decimal.uint) :
  countByte dot (DecimalString.NilEmpty.string_of_uint d) = 0%nat.
Proof. induction d; cbn; auto. Qed.

(** A printed number holds no dot. *)
Lemma Sprint_int64_no_dot (n : Z) : countByte dot (fmt.Sprint_int64 n) = 0%nat.
Proof.
  unfold fmt.Sprint_int64, DecimalString.NilZero.string_of_int,
    DecimalString.NilZero.string_of_uint.
  destruct (Z.to_int n) as [d|d]; destruct d; cbn; auto using string_of_uint_no_dot.
Qed.

Lemma launchTemplateVersionInputMapperGet_refuses (scope query : string) :
  countByte dot query <> 1%nat ->
  ec2.launchTemplateVersionInputMapperGet scope query
  = inr (errors_New "input did not have 2 sections").
Proof.
  intros Hdots. unfold ec2.launchTemplateVersionInputMapperGet. cbv zeta.
  pose proof (Split_length query dot) as Hlen.
  destruct (strings.Split query dot) as [|id [|version [|third rest]]];
    try reflexivity.
  cbn in Hlen. lia.
Qed.

(** X17: [launchTemplateVersionInputMapperGet] accepts exactly the queries
    with one dot.  Such a query is cut at its dot: the part before it is the
    launch template id and the part after it the one version asked for;
    neither holds a dot and together they give the query back.  Every other
    query, the empty one included, is refused with "input did not have 2
    sections". *)
Theorem launchTemplateVersionInputMapperGet_needs_exactly_one_dot
    (scope query : string) :
  match ec2.launchTemplateVersionInputMapperGet scope query with
  | inl input =>
      countByte dot query = 1%nat /\
      exists id version,
        input = {| ec2.DescribeLaunchTemplateVersionsInput.LaunchTemplateId := Some id;
                   ec2.DescribeLaunchTemplateVersionsInput.Versions := [version] |} /\
        query = id +:+ "." +:+ version /\
        countByte dot id = 0%nat /\
        countByte dot version = 0%nat
  | inr err =>
      countByte dot query <> 1%nat /\
      err = errors_New "input did not have 2 sections"
  end.
Proof.
  unfold ec2.launchTemplateVersionInputMapperGet. cbv zeta.
  pose proof (Split_length query dot) as Hlen.
  pose proof (Split_join query dot) as Hjoin.
  pose proof (Split_pieces query dot) as Hpieces.
  destruct (strings.Split query dot) as [|id [|version [|third rest]]].
  - cbn in Hlen. discriminate Hlen.
  - cbn in Hlen. split; [lia|reflexivity].
  - cbn in Hlen. split; [lia|]. exists id, version.
    inversion Hpieces as [|? ? Hid Hrest].
    inversion Hrest as [|? ? Hv _].
    split; [reflexivity|]. split; [|split; assumption].
    rewrite <- Hjoin. reflexivity.
  - cbn in Hlen. split; [lia|reflexivity].
Qed.

(** X18: the get mapper undoes the unique attribute value of the output
    mapper.  For a launch template id without dot and any version number,
    the query [id.version] that the output mapper sets as unique attribute
    value of the item is mapped to a request for that id and that version. *)
Theorem launchTemplateVersion_unique_attribute_value_maps_back
    (scope id : string) (version : Z) :
  countByte dot id = 0%nat ->
  ec2.launchTemplateVersionInputMapperGet scope (ec2.versionIdCombo id version) =
  inl {| ec2.DescribeLaunchTemplateVersionsInput.LaunchTemplateId := Some id;
         ec2.DescribeLaunchTemplateVersionsInput.Versions := [fmt.Sprint_int64 version] |}.
Proof.
  intros Hid. unfold ec2.launchTemplateVersionInputMapperGet, ec2.versionIdCombo.
  cbv zeta.
  change ("." +:+ fmt.Sprint_int64 version) with (String dot (fmt.Sprint_int64 version)).
  rewrite (Split_app id _ dot Hid).
  rewrite (Split_without _ dot (Sprint_int64_no_dot version)). reflexivity.
Qed.

End LaunchTemplateVersion.

Section LaunchTemplateVersionInTheEngine.

Context {Ctx Output ClientStruct U Pg C : Type}.
Context {cacheImpl : sdpcache.Cache Ctx C}.
Context {paginatorImpl : Paginator Ctx Output U Pg}.
Context {helpers : Helpers}.

Local Abbreviation Request := ec2.DescribeLaunchTemplateVersionsInput.t.
Local Abbreviation St := (State Ctx Request Output ClientStruct U Pg C).

(** X19: on a source whose get mapper is
    [launchTemplateVersionInputMapperGet], as the launch-template-version
    source is built, a [Get] that misses the cache for a query that does not
    hold exactly one dot returns "input did not have 2 sections" wrapped by
    [WrapAWSError] and stores that error under the key of the lookup;
    neither [DescribeFunc] nor [OutputMapper] is called. *)
Theorem malformed_launch_template_version_query_is_refused_and_cached
    (st : St) (ctx : Ctx) (scope query : string) (ignoreCache : bool) hit c1 :
  let s := self st in
  scope = sourceScope s ->
  wellFormed s = true ->
  InputMapperGet s =
    Some (fun scope query u => (ec2.launchTemplateVersionInputMapperGet scope query, u)) ->
  sdpcache.Lookup ctx (Name s) sdp.QueryMethod_GET scope (ItemType s) query
    ignoreCache (theCache s) = (hit, c1) ->
  sdpcache.qErr hit = None ->
  sdpcache.cacheHit hit = false ->
  countByte "."%char query <> 1%nat ->
  let wrapped :=
    QueryErr (WrapAWSError (errors_New "input did not have 2 sections")) in
  Get ctx scope query ignoreCache st =
  (Ok (None, Some wrapped),
   leaves s (sdpcache.StoreError wrapped (cacheDuration s) (sdpcache.ck hit) c1)
     (upstream st)
     (trace st ++
      [CacheLookup (Name s) sdp.QueryMethod_GET scope (ItemType s) query ignoreCache;
       CallInputMapperGet scope query;
       CacheStoreError wrapped (cacheDuration s) (sdpcache.ck hit)])).
Proof.
  intros s Hscope Hwf HG HL Hq Hh Hdots wrapped.
  apply (Get_InputMapperGet_error st ctx scope query ignoreCache _ hit c1
           (errors_New "input did not have 2 sections") (upstream st)
           Hscope Hwf HG HL Hq Hh).
  pose proof (launchTemplateVersionInputMapperGet_refuses scope query Hdots) as H.
  rewrite H. reflexivity.
Qed.

End LaunchTemplateVersionInTheEngine.

(** * The links of a security group *)

Section SecurityGroupLinks.

Context (ParseScope : string -> (string * string) + error).
Context {helpers : Helpers}.

Local Abbreviation Link := links.LinkedItemQuery.t.
Local Abbreviation target := (fun l : Link => links.LinkedItemQuery.Query l).

(** The links of the pairs of one permission. *)
Lemma links_of_pairs (currentAccount region : string)
    (pairs : list ec2.types.UserIdGroupPair) :
  let linksOf :=
    flat_map
      (fun idGroup =>
         let relatedAccount :=
           match ec2.types.UserId idGroup with
           | Some userId => userId
           | None => currentAccount
           end in
         match ec2.types.GroupId idGroup with
         | Some groupId =>
             [{| links.LinkedItemQuery.Query :=
                   {| links.Query.Type_ := "ec2-security-group";
                      links.Query.Method := sdp.QueryMethod_GET;
                      links.Query.Query := groupId;
                      links.Query.Scope := FormatScope relatedAccount region |};
                 links.LinkedItemQuery.BlastPropagation :=
                   {| links.BlastPropagation.In_ := true;
                      links.BlastPropagation.Out := true |} |}]
         | None => []
         end) pairs in
  map (fun l => links.Query.Query (target l)) linksOf = omap ec2.types.GroupId pairs /\
  map (fun l => links.Query.Scope (target l)) linksOf
  = omap (fun pair =>
            match ec2.types.GroupId pair with
            | Some _ =>
                Some (FormatScope
                        (match ec2.types.UserId pair with
                         | Some userId => userId
                         | None => currentAccount
                         end) region)
            | None => None
            end) pairs /\
  Forall (fun l =>
            links.Query.Type_ (target l) = "ec2-security-group" /\
            links.Query.Method (target l) = sdp.QueryMethod_GET /\
            links.LinkedItemQuery.BlastPropagation l
            = {| links.BlastPropagation.In_ := true; links.BlastPropagation.Out := true |})
         linksOf.
Proof.
  cbv zeta. induction pairs as [|pair rest (IH1 & IH2 & IH3)].
  - repeat split. constructor.
  - cbn. destruct (ec2.types.GroupId pair) as [groupId|]; cbn.
    + split; [f_equal; exact IH1|]. split; [f_equal; exact IH2|].
      constructor; [repeat split|exact IH3].
    + repeat split; assumption.
Qed.

(** X20: [extractLinkedSecurityGroups] returns no link when the scope cannot
    be parsed.  Otherwise it returns, in the order of the permissions and of
    their pairs, one link for every pair that names a group and none for
    the others; every link is a GET query for an [ec2-security-group] that
    propagates both ways, asks for the group id of its pair, and is scoped
    to the region of the given scope and to the account of the pair, or to
    the account of the given scope when the pair names none. *)
Theorem extractLinkedSecurityGroups_links_every_named_group
    (permissions : list ec2.types.IpPermission) (scope : string) :
  let result := ec2.extractLinkedSecurityGroups ParseScope permissions scope in
  match ParseScope scope with
  | inr _ => result = []
  | inl (currentAccount, region) =>
      map (fun l => links.Query.Query (target l)) result
      = omap ec2.types.GroupId (ec2.pairsOf permissions) /\
      map (fun l => links.Query.Scope (target l)) result
      = omap (fun pair =>
                match ec2.types.GroupId pair with
                | Some _ =>
                    Some (FormatScope
                            (match ec2.types.UserId pair with
                             | Some userId => userId
                             | None => currentAccount
                             end) region)
                | None => None
                end) (ec2.pairsOf permissions) /\
      Forall (fun l =>
                links.Query.Type_ (target l) = "ec2-security-group" /\
                links.Query.Method (target l) = sdp.QueryMethod_GET /\
                links.LinkedItemQuery.BlastPropagation l
                = {| links.BlastPropagation.In_ := true;
                     links.BlastPropagation.Out := true |})
             result
  end.
Proof.
  cbv zeta. unfold ec2.extractLinkedSecurityGroups, ec2.pairsOf.
  destruct (ParseScope scope) as [[currentAccount region]|err]; [|reflexivity].
  induction permissions as [|permission rest (IH1 & IH2 & IH3)]; cbn [flat_map].
  - repeat split. constructor.
  - destruct (links_of_pairs currentAccount region (ec2.types.UserIdGroupPairs permission))
      as (H1 & H2 & H3).
    cbv zeta in H1, H2, H3.
    rewrite !map_app, !omap_app, H1, H2, IH1, IH2.
    repeat split. apply Forall_app. split; assumption.
Qed.

End SecurityGroupLinks.

(** * No nil callback is called *)

Section NoPanic.

Context {Ctx Input Output ClientStruct U Pg C : Type}.
Context {cacheImpl : sdpcache.Cache Ctx C}.
Context {paginatorImpl : Paginator Ctx Output U Pg}.
Context {helpers : Helpers}.

Local Abbreviation Source := (DescribeOnlySource Ctx Input Output ClientStruct U Pg C).
Local Abbreviation St := (State Ctx Input Output ClientStruct U Pg C).
Local Abbreviation Ev := (Event Input Output).
Local Abbreviation mk := (@Build_State Ctx Input Output ClientStruct U Pg C).

Implicit Types (J : Source -> Prop) (b : bool).

Lemma Returns_ret b J {A : Type} (a : A) : Returns b J (ret a).
Proof. intros st o st' HJ Hrun. inversion Hrun; subst. split; [exact HJ|exact I]. Qed.


Lemma Returns_bind b J {A B : Type} (m : M St A) (k : A -> M St B) :
  Returns b J m -> (forall a, Returns b J (k a)) -> Returns b J (bind m k).
Proof.
  intros Hm Hk st o st' HJ Hrun. unfold bind in Hrun.
  destruct (m st) as [om st1] eqn:Hm1.
  destruct (Hm _ _ _ HJ Hm1) as (HJ1 & Ho).
  destruct om as [a| |].
  - exact (Hk a _ _ _ HJ1 Hrun).
  - destruct Ho.
  - injection Hrun as <- <-. split; [exact HJ1|exact Ho].
Qed.

Lemma Returns_self b J {A : Type} (k : Source -> M St A) :
  (forall s, J s -> Returns b J (k s)) -> Returns b J (bind (gets self) k).
Proof.
  intros Hk st o st' HJ Hrun. unfold bind, gets in Hrun.
  exact (Hk _ HJ _ _ _ HJ Hrun).
Qed.

Lemma Returns_log b J (e : Ev) : Returns b J (log e).
Proof. intros st o st' HJ Hrun. inversion Hrun; subst. split; [exact HJ|exact I]. Qed.

Lemma Returns_setSelf b J (f : Source -> Source) :
  (forall s, J s -> J (f s)) -> Returns b J (setSelf f).
Proof.
  intros Hf st o st' HJ Hrun. inversion Hrun; subst. split; [apply Hf; exact HJ|exact I].
Qed.

Lemma Returns_upcall b J {A : Type} (f : U -> A * U) : Returns b J (upcall f).
Proof.
  intros st o st' HJ Hrun. unfold upcall in Hrun.
  destruct (f (upstream st)) as [a u]. inversion Hrun; subst. split; [exact HJ|exact I].
Qed.

Lemma Returns_callField b J {F A : Type} (name : string) (e : Ev)
    (field : Source -> option F) (app : F -> U -> A * U) :
  (forall s, J s -> field s <> None) -> Returns b J (callField name e field app).
Proof.
  intros Hf. unfold callField. apply Returns_self. intros s Hs.
  destruct (field s) eqn:E; [|destruct (Hf s Hs E)].
  apply Returns_bind; [apply Returns_log|intros _; apply Returns_upcall].
Qed.

Lemma Returns_cache_Lookup b J ctx srcName method scope typ query ignoreCache :
  cacheBlind J ->
  Returns b J (cache_Lookup ctx srcName method scope typ query ignoreCache).
Proof.
  intros HJ. unfold cache_Lookup.
  apply Returns_bind; [apply Returns_log|intros _].
  apply Returns_self. intros s _. destruct (cache s) as [c|]; [|apply Returns_ret].
  destruct (sdpcache.Lookup ctx srcName method scope typ query ignoreCache c) as [r c'].
  apply Returns_bind; [apply Returns_setSelf; intros; apply HJ; assumption|].
  intros _; apply Returns_ret.
Qed.

Lemma Returns_cache_StoreItem b J item d ck :
  cacheBlind J -> Returns b J (cache_StoreItem item d ck).
Proof.
  intros HJ. unfold cache_StoreItem.
  apply Returns_bind; [apply Returns_log|intros _].
  apply Returns_self. intros s _. destruct (cache s) as [c|]; [|apply Returns_ret].
  apply Returns_setSelf; intros; apply HJ; assumption.
Qed.

Lemma Returns_cache_StoreError b J err d ck :
  cacheBlind J -> Returns b J (cache_StoreError err d ck).
Proof.
  intros HJ. unfold cache_StoreError.
  apply Returns_bind; [apply Returns_log|intros _].
  apply Returns_self. intros s _. destruct (cache s) as [c|]; [|apply Returns_ret].
  apply Returns_setSelf; intros; apply HJ; assumption.
Qed.

Lemma Returns_ensureCache b J : cacheBlind J -> Returns b J ensureCache.
Proof.
  intros HJ. unfold ensureCache. apply Returns_self. intros s _.
  destruct (cache s); [apply Returns_ret|].
  apply Returns_setSelf; intros; apply HJ; assumption.
Qed.


Lemma Returns_call_OutputMapper b (s0 : Source) ctx scope input output :
  OutputMapper s0 <> None ->
  Returns b (sameConfig s0) (call_OutputMapper ctx scope input output).
Proof.
  intros HO. unfold call_OutputMapper. apply Returns_self. intros s _.
  apply Returns_callField. intros s1 (_ & _ & _ & _ & _ & _ & _ & H & _).
  rewrite H. exact HO.
Qed.

Lemma Returns_call_DescribeFunc b (s0 : Source) ctx input :
  DescribeFunc s0 <> None ->
  Returns b (sameConfig s0) (call_DescribeFunc ctx input).
Proof.
  intros HD. unfold call_DescribeFunc. apply Returns_self. intros s _.
  apply Returns_callField. intros s1 (_ & _ & H & _).
  rewrite H. exact HD.
Qed.



(** What is left of [Get] once [Validate] has passed. *)
Lemma Returns_Get_validated (s0 s : Source) ctx scope query ignoreCache :
  wellFormed s0 = true ->
  Returns false (sameConfig s0)
    (run ensureCache in
     let* hit := cache_Lookup ctx (Name s) sdp.QueryMethod_GET scope (ItemType s)
                   query ignoreCache in
     let ck := sdpcache.ck hit in
     match sdpcache.qErr hit with
     | Some qErr => ret (None, Some (QueryErr qErr))
     | None =>
     if sdpcache.cacheHit hit then
       match sdpcache.cachedItems hit with
       | item :: _ => ret (Some item, None)
       | [] => ret (None, None)
       end
     else
     let* input := call_InputMapperGet scope query in
     match input with
     | inr err =>
         let err := QueryErr (WrapAWSError err) in
         run cache_StoreError err (cacheDuration s) ck in
         ret (None, Some err)
     | inl input =>
     let* output := call_DescribeFunc ctx input in
     match output with
     | inr err =>
         let err := QueryErr (WrapAWSError err) in
         run cache_StoreError err (cacheDuration s) ck in
         ret (None, Some err)
     | inl output =>
     let* items := call_OutputMapper ctx scope input output in
     match items with
     | inr err =>
         let err := QueryErr (WrapAWSError err) in
         run cache_StoreError err (cacheDuration s) ck in
         ret (None, Some err)
     | inl items =>
     let items := if UseListForGet s then filterItems query items else items in
     match items with
     | _ :: _ :: _ =>
         let qErr := QueryErr (tooManyItems items) in
         run cache_StoreError qErr (cacheDuration s) ck in
         ret (None, Some qErr)
     | [] =>
         let qErr := QueryErr (notFound s query) in
         run cache_StoreError qErr (cacheDuration s) ck in
         ret (None, Some qErr)
     | [item] =>
         run cache_StoreItem item (cacheDuration s) ck in
         ret (Some item, None)
     end end end end end).
Proof.
  intros Hwf. pose proof (sameConfig_set_cache s0) as HC.
  unfold wellFormed in Hwf.
  destruct (DescribeFunc s0) as [f|] eqn:HD; [|discriminate].
  destruct (InputMapperGet s0) as [g|] eqn:HG; [|discriminate].
  destruct (OutputMapper s0) as [h|] eqn:HO; [|discriminate].
  assert (Hstore : forall err (r : option sdp.Item * option error) ck,
            Returns false (sameConfig s0)
              (run cache_StoreError err (cacheDuration s) ck in ret r)).
  { intros err r ck. apply Returns_bind; [|intros _; apply Returns_ret].
    apply Returns_cache_StoreError. exact HC. }
  apply Returns_bind; [apply Returns_ensureCache; exact HC|intros _].
  apply Returns_bind; [apply Returns_cache_Lookup; exact HC|intros hit].
  destruct (sdpcache.qErr hit); [apply Returns_ret|].
  destruct (sdpcache.cacheHit hit).
  { destruct (sdpcache.cachedItems hit); apply Returns_ret. }
  apply Returns_bind.
  { unfold call_InputMapperGet. apply Returns_callField.
    intros s1 (_ & _ & _ & H & _). rewrite H, HG. discriminate. }
  intros [input|err]; [|apply Hstore].
  apply Returns_bind.
  { apply Returns_call_DescribeFunc. rewrite HD. discriminate. }
  intros [output|err]; [|apply Hstore].
  apply Returns_bind.
  { apply Returns_call_OutputMapper. rewrite HO. discriminate. }
  intros [items|err]; [|apply Hstore].
  cbv zeta.
  destruct (if UseListForGet s then filterItems query items else items)
    as [|item [|item' rest]]; [apply Hstore| |apply Hstore].
  apply Returns_bind; [|intros _; apply Returns_ret].
  apply Returns_cache_StoreItem. exact HC.
Qed.

Lemma Get_returns (st : St) (ctx : Ctx) (scope query : string) (ignoreCache : bool) :
  exists r st', Get ctx scope query ignoreCache st = (Ok r, st').
Proof.
  destruct st as [s u t]. unfold Get.
  erewrite bind_Ok; [|apply gets_run].
  erewrite bind_Ok; [|apply index_Scopes_run].
  cbn [self].
  destruct (negb (String.eqb scope (sourceScope s))); [eexists _, _; reflexivity|].
  erewrite bind_Ok; [|apply Validate_eq].
  destruct (validationError s) as [err|] eqn:HV; [eexists _, _; reflexivity|].
  apply validationError_wellFormed in HV.
  assert (HD : DescribeFunc s <> None)
    by (unfold wellFormed in HV; destruct (DescribeFunc s); [discriminate|discriminate HV]).
  destruct (DescribeFunc s) as [f|] eqn:E; [clear HD|congruence].
  match goal with
  | |- exists r st', ?m ?st0 = _ =>
      destruct (m st0) as [o st1] eqn:Hrun;
      destruct (Returns_Get_validated s s ctx scope query ignoreCache HV st0 o st1
                  (sameConfig_validated s) Hrun) as [_ Ho]
  end.
  destruct o as [r| |]; [eexists _, _; reflexivity|destruct Ho|discriminate Ho].
Qed.

(** X21: [Get] never panics, whatever the source and whatever the callbacks
    and the cache answer: every callback it calls has been checked by
    [Validate], and the one scope of the source is always there.  The same
    holds for the default [Search], which is a [Get] at most. *)
Theorem Get_always_returns
    (st : St) (fuel : nat) (ctx : Ctx) (scope query : string) (ignoreCache : bool) :
  (exists r st', Get ctx scope query ignoreCache st = (Ok r, st')) /\
  (InputMapperSearch (self st) = None ->
   exists r st', Search fuel ctx scope query ignoreCache st = (Ok r, st')).
Proof.
  split; [apply Get_returns|].
  intros HS. destruct st as [s u t]. cbn [self] in HS. unfold Search.
  erewrite bind_Ok; [|apply gets_run].
  erewrite bind_Ok; [|apply index_Scopes_run].
  cbn [self]. rewrite HS.
  destruct (negb (String.eqb scope (sourceScope s))); [eexists _, _; reflexivity|].
  unfold searchARN.
  destruct (ParseARN query) as [a|err]; [|eexists _, _; reflexivity].
  destruct (negb _); [eexists _, _; reflexivity|].
  destruct (Get_returns (mk s u t) ctx scope (ResourceID a) ignoreCache)
    as ([item err] & st' & Hget).
  erewrite bind_Ok; [|exact Hget].
  destruct err; eexists _, _; reflexivity.
Qed.



End NoPanic.

(** * The shape of a run *)

Section Shapes.

Context {Ctx Input Output ClientStruct U Pg C : Type}.
Context {cacheImpl : sdpcache.Cache Ctx C}.
Context {paginatorImpl : Paginator Ctx Output U Pg}.
Context {helpers : Helpers}.

Local Abbreviation Source := (DescribeOnlySource Ctx Input Output ClientStruct U Pg C).
Local Abbreviation St := (State Ctx Input Output ClientStruct U Pg C).
Local Abbreviation Ev := (Event Input Output).
Local Abbreviation mk := (@Build_State Ctx Input Output ClientStruct U Pg C).

Lemma wellFormed_validationError (s : Source) :
  wellFormed s = false -> exists err, validationError s = Some err.
Proof.
  unfold wellFormed, validationError.
  destruct (DescribeFunc s), (InputMapperGet s), (OutputMapper s);
    intros H; try discriminate H; eexists; reflexivity.
Qed.


(** X24: what a [List] that returns has done and returns is settled by the
    source and by what the lookup reports.  When the scope is not the scope
    of the source, the source has no list mapper or [Validate] rejects it,
    [List] logs nothing and returns an error and no item.  Otherwise it
    looks the cache up once; when the lookup reports an error or a hit,
    that is the only event, and [List] returns that error, or the cached
    items.  When the lookup misses, [InputMapperList] is called, then
    [describe] runs without any cache event, and the cache is written only
    once [describe] is over, under the key of the lookup: with the one
    error that [List] returns, or with one [StoreItem] for each item that
    [List] returns, in their order, and not at all when it returns no
    item. *)
Theorem List_stores_exactly_what_it_returns_after_a_miss
    (st st' : St) (fuel : nat) (ctx : Ctx) (scope : string) (ignoreCache : bool)
    (r : list sdp.Item * option error) :
  List fuel ctx scope ignoreCache st = (Ok r, st') ->
  let s := self st in
  let lookup := CacheLookup (Name s) sdp.QueryMethod_LIST scope (ItemType s) EmptyString
                  ignoreCache in
  let d := cacheDuration s in
  let hit := fst (sdpcache.Lookup ctx (Name s) sdp.QueryMethod_LIST scope (ItemType s)
                    EmptyString ignoreCache (theCache s)) in
  exists events : list Ev,
    trace st' = (trace st ++ events)%list /\
    if negb (String.eqb scope (sourceScope s))
       || match InputMapperList s with Some _ => false | None => true end
       || negb (wellFormed s)
    then
      events = [] /\ upstream st' = upstream st /\ exists e, r = ([], Some e)
    else
      match sdpcache.qErr hit with
      | Some qErr =>
          events = [lookup] /\ upstream st' = upstream st /\
          r = ([], Some (QueryErr qErr))
      | None =>
          if sdpcache.cacheHit hit then
            events = [lookup] /\ upstream st' = upstream st /\
            r = (sdpcache.cachedItems hit, None)
          else
            exists described,
              events = (lookup :: CallInputMapperList scope :: described ++
                        match r with
                        | (_, Some e) => [CacheStoreError e d (sdpcache.ck hit)]
                        | (items, None) => storeEvents items d (sdpcache.ck hit)
                        end)%list /\
              noCacheEvent described /\
              match r with
              | (items, Some _) => items = []
              | (_, None) => True
              end
      end.
Proof.
  destruct st as [s u t]; cbn [self trace upstream]. intros Hrun. cbv zeta.
  destruct (String.eqb scope (sourceScope s)) eqn:Hsc; cbn [negb orb].
  2:{ exists [].
      unfold List in Hrun.
      erewrite bind_Ok in Hrun; [|apply gets_run].
      erewrite bind_Ok in Hrun; [|apply index_Scopes_run].
      cbn [self] in Hrun. rewrite Hsc in Hrun. cbn [negb] in Hrun.
      inversion Hrun; subst. cbn [trace upstream].
      split; [symmetry; apply app_nil_r|]. split; [reflexivity|].
      split; [reflexivity|]. eexists; reflexivity. }
  apply String.eqb_eq in Hsc.
  destruct (InputMapperList s) as [l|] eqn:HL; cbn [orb].
  2:{ exists [].
      unfold List in Hrun.
      erewrite bind_Ok in Hrun; [|apply gets_run].
      erewrite bind_Ok in Hrun; [|apply index_Scopes_run].
      cbn [self] in Hrun. rewrite <- Hsc, String.eqb_refl, HL in Hrun. cbn [negb] in Hrun.
      inversion Hrun; subst. cbn [trace upstream].
      split; [symmetry; apply app_nil_r|]. split; [reflexivity|].
      split; [reflexivity|]. eexists; reflexivity. }
  destruct (wellFormed s) eqn:HV; cbn [negb].
  2:{ destruct (wellFormed_validationError s HV) as [err Herr].
      exists [].
      unfold List in Hrun.
      erewrite bind_Ok in Hrun; [|apply gets_run].
      erewrite bind_Ok in Hrun; [|apply index_Scopes_run].
      cbn [self] in Hrun. rewrite <- Hsc, String.eqb_refl, HL in Hrun. cbn [negb] in Hrun.
      erewrite bind_Ok in Hrun; [|apply Validate_eq].
      rewrite Herr in Hrun. inversion Hrun; subst. cbn [trace upstream].
      split; [symmetry; apply app_nil_r|]. split; [reflexivity|].
      split; [reflexivity|]. eexists; reflexivity. }
  destruct (sdpcache.Lookup ctx (Name s) sdp.QueryMethod_LIST scope (ItemType s)
              EmptyString ignoreCache (theCache s)) as [hit c1] eqn:Hlook.
  cbn [fst].
  destruct (sdpcache.qErr hit) as [q|] eqn:Hq.
  { rewrite (List_answered_by_cache (mk s u t) fuel ctx scope ignoreCache l hit c1
               Hsc HL HV Hlook) in Hrun by (left; rewrite Hq; discriminate).
    rewrite Hq in Hrun. inversion Hrun; subst.
    eexists. cbn [self trace upstream leaves]. repeat split. }
  destruct (sdpcache.cacheHit hit) eqn:Hh.
  { rewrite (List_answered_by_cache (mk s u t) fuel ctx scope ignoreCache l hit c1
               Hsc HL HV Hlook (or_intror Hh)) in Hrun.
    rewrite Hq in Hrun. inversion Hrun; subst.
    eexists. cbn [self trace upstream leaves]. repeat split. }
  destruct (l scope u) as [[input|err] u1] eqn:Him.
  2:{ rewrite (List_mapper_error_run (mk s u t) fuel ctx scope ignoreCache l hit c1 err u1
                 Hsc HL HV Hlook Hq Hh Him) in Hrun.
      inversion Hrun; subst. eexists. split; [reflexivity|].
      exists []. split; [reflexivity|]. split; [constructor|reflexivity]. }
  rewrite (List_miss_bind (mk s u t) fuel ctx scope ignoreCache l hit c1 input u1
             Hsc HL HV Hlook Hq Hh Him) in Hrun.
  cbn [self upstream trace] in Hrun. unfold bind at 1 in Hrun.
  destruct (describe fuel ctx input scope
              (leaves s c1 u1 (t ++ listEvents s scope ignoreCache)))
    as [o st2] eqn:Hdesc.
  unfold leaves in Hdesc.
  destruct (CallbacksOnly_describe _ _ _ _ _ _ _ _ _ Hdesc)
    as [(u2 & described & -> & Hquiet) _].
  destruct o as [[items [err|]]| |]; cbv beta iota zeta in Hrun.
  - erewrite bind_Ok in Hrun; [|eapply cache_StoreError_run].
    unfold ret in Hrun. inversion Hrun; subst. cbn [trace].
    eexists. split; [unfold listEvents; repeat rewrite <- app_assoc; reflexivity|].
    exists described. split; [reflexivity|]. split; [exact Hquiet|reflexivity].
  - erewrite bind_Ok in Hrun; [|eapply forRange_StoreItem].
    unfold ret in Hrun. inversion Hrun; subst. cbn [trace].
    eexists. split; [unfold listEvents; repeat rewrite <- app_assoc; reflexivity|].
    exists described. split; [reflexivity|]. split; [exact Hquiet|exact I].
  - discriminate Hrun.
  - discriminate Hrun.
Qed.

End Shapes.

(** * More of the engine on the test sources *)

Section MoreOnTheTestSources.

Local Abbreviation MC := modelcache.ModelCache.
Local Abbreviation St C :=
  (State Demo.Ctx Demo.Input Demo.Output Demo.ClientT Demo.Upstream Demo.Pages C).
Local Existing Instance Demo.helpers.

Lemma Get_on_a_paginated_source_witness :
  let st : St MC := Demo.start Demo.paginated in
  let r := Get Demo.ctx Demo.scope "x" false st in
  sameConfig (self st) (self (snd r)) /\
  exists events,
    trace (snd r) = (trace st ++ events)%list /\
    Forall (allowedInGet (self st) Demo.scope "x") events.
Proof.
  intros st r.
  exact (Get_never_lists_nor_paginates (helpers:=Demo.helpers) st (snd r) Demo.ctx
           Demo.scope "x" false (fst r) (surjective_pairing r)).
Defined.

Lemma List_on_a_paginated_source_witness :
  let st : St MC := Demo.start Demo.paginated in
  let r := List 4 Demo.ctx Demo.scope false st in
  sameConfig (self st) (self (snd r)) /\
  exists events,
    trace (snd r) = (trace st ++ events)%list /\
    Forall (allowedInList (self st) Demo.scope) events.
Proof.
  intros st r.
  exact (List_describes_one_way_only (helpers:=Demo.helpers) st (snd r) 4 Demo.ctx
           Demo.scope false (fst r) (surjective_pairing r)).
Defined.

Lemma custom_Search_stays_within_its_method_witness :
  let st : St MC := Demo.start Demo.searchable in
  let r := Search 1 Demo.ctx Demo.scope "a" false st in
  sameConfig (self st) (self (snd r)) /\
  exists events,
    trace (snd r) = (trace st ++ events)%list /\
    MaxResultsPerPage (self (snd r)) = 0 /\
    Forall (allowedInCustomSearch (self st) Demo.scope "a") events.
Proof.
  intros st r.
  exact (Search_stays_within_its_method (helpers:=Demo.helpers) st (snd r) 1 Demo.ctx
           Demo.scope "a" false (fst r) (surjective_pairing r)).
Defined.

Lemma misconfigured_source_witness :
  exists s',
    Get Demo.ctx Demo.scope "x" false (Demo.start (C:=MC) Examples.noDescribeFunc)
    = (Ok (None,
           Some (QueryErr (WrapAWSError (errors_New "source describe func is nil")))),
       {| self := s'; upstream := 0%nat; trace := [] |}) /\
    cache s' = None.
Proof.
  destruct (misconfigured_source_fails_before_cache_and_upstream (helpers:=Demo.helpers)
              (Demo.start (C:=MC) Examples.noDescribeFunc) 1 Demo.ctx Demo.scope "x" false
              (errors_New "source describe func is nil") eq_refl eq_refl)
    as (s' & _ & Hcache & HGet & _).
  exists s'. split; [exact HGet|exact Hcache].
Defined.

Lemma custom_Search_panics_witness :
  (exists msg,
     Search 1 Demo.ctx Demo.scope "a" false (Demo.start (C:=MC) Examples.noDescribeFunc)
     = (Panic msg,
        {| self := Examples.noDescribeFunc; upstream := 0%nat;
           trace := [CallInputMapperSearch Demo.scope "a"] |})) /\
  (exists msg,
     Search 1 Demo.ctx Demo.scope "a" false (Demo.start (C:=MC) Examples.noOutputMapper)
     = (Panic msg,
        {| self := Examples.noOutputMapper; upstream := 1%nat;
           trace := [CallInputMapperSearch Demo.scope "a"; CallDescribeFunc "a"] |})).
Proof.
  destruct (custom_Search_on_a_misconfigured_source_panics (helpers:=Demo.helpers)
              (Demo.start (C:=MC) Examples.noDescribeFunc) 1 Demo.ctx Demo.scope "a" false
              (fun _ _ _ query u => (inl query, u)) "a" 0%nat
              eq_refl eq_refl eq_refl eq_refl) as [Hnone _].
  destruct (custom_Search_on_a_misconfigured_source_panics (helpers:=Demo.helpers)
              (Demo.start (C:=MC) Examples.noOutputMapper) 1 Demo.ctx Demo.scope "a" false
              (fun _ _ _ query u => (inl query, u)) "a" 0%nat
              eq_refl eq_refl eq_refl eq_refl) as [_ Hmapper].
  split.
  - exact (proj1 (Hnone eq_refl)).
  - exact (proj1 (Hmapper Examples.describeOne [Demo.item "a"] 1%nat
                    eq_refl eq_refl eq_refl)).
Defined.

Lemma Get_mapper_error_witness :
  fst (Get Demo.ctx Demo.scope "x" false (Demo.start (C:=MC) Examples.refusing))
    = Ok (None, Some (QueryErr (WrapAWSError (errors_New "bad query")))) /\
  fst (Get Demo.ctx Demo.scope "x" false (Demo.start (C:=MC) Examples.unmappable))
    = Ok (None, Some (QueryErr (WrapAWSError (errors_New "bad output")))).
Proof.
  destruct (Get_mapper_error_is_returned_wrapped_and_stored
              (cacheImpl:=modelCache Demo.Ctx) (helpers:=Demo.helpers)
              (Demo.start (C:=MC) Examples.refusing) Demo.ctx Demo.scope "x" false
              Examples.describeOne Examples.refuseGet Examples.mapOutput
              (modelcache.miss (sdpcache.CacheKeyFromParts "ec2-thing-source"
                                  sdp.QueryMethod_GET Demo.scope "ec2-thing" "x"))
              modelcache.NewCache
              eq_refl eq_refl eq_refl eq_refl eq_refl eq_refl eq_refl) as [Hget _].
  destruct (Get_mapper_error_is_returned_wrapped_and_stored
              (cacheImpl:=modelCache Demo.Ctx) (helpers:=Demo.helpers)
              (Demo.start (C:=MC) Examples.unmappable) Demo.ctx Demo.scope "x" false
              Examples.describeOne Examples.mapGet Examples.refuseOutput
              (modelcache.miss (sdpcache.CacheKeyFromParts "ec2-thing-source"
                                  sdp.QueryMethod_GET Demo.scope "ec2-thing" "x"))
              modelcache.NewCache
              eq_refl eq_refl eq_refl eq_refl eq_refl eq_refl eq_refl) as [_ Hout].
  rewrite (Hget (errors_New "bad query") 0%nat eq_refl).
  rewrite (Hout "x" 0%nat [Demo.item "a"] 1%nat (errors_New "bad output") 1%nat
             eq_refl eq_refl eq_refl).
  split; reflexivity.
Defined.

Lemma unpaginated_List_witness :
  let r := List 1 Demo.ctx Demo.scope false (Demo.start (C:=MC) Demo.searchable) in
  let ck := sdpcache.CacheKeyFromParts "ec2-thing-source" sdp.QueryMethod_LIST
              Demo.scope "ec2-thing" EmptyString in
  fst r = Ok ([Demo.item "a"; Demo.item "b"], None) /\
  trace (snd r) =
    [CacheLookup "ec2-thing-source" sdp.QueryMethod_LIST Demo.scope "ec2-thing"
       EmptyString false;
     CallInputMapperList Demo.scope;
     CallDescribeFunc EmptyString;
     CallOutputMapper Demo.scope EmptyString [Demo.item "a"; Demo.item "b"];
     CacheStoreItem (Demo.item "a") 3600000000000 ck;
     CacheStoreItem (Demo.item "b") 3600000000000 ck].
Proof.
  intros r ck. unfold r.
  rewrite (unpaginated_List_returns_and_stores_what_OutputMapper_made
             (cacheImpl:=modelCache Demo.Ctx) (helpers:=Demo.helpers)
             (Demo.start (C:=MC) Demo.searchable) 1 Demo.ctx Demo.scope false
             (fun _ _ _ u => (inl [Demo.item "a"; Demo.item "b"], S u))
             (fun _ query u => (inl query, u))
             (fun _ u => (inl EmptyString, u))
             (fun _ _ _ _ output u => (inl output, u))
             (modelcache.miss (sdpcache.CacheKeyFromParts "ec2-thing-source"
                                 sdp.QueryMethod_LIST Demo.scope "ec2-thing" EmptyString))
             modelcache.NewCache
             EmptyString 0%nat [Demo.item "a"; Demo.item "b"] 1%nat
             [Demo.item "a"; Demo.item "b"] 1%nat
             eq_refl eq_refl eq_refl eq_refl eq_refl eq_refl eq_refl eq_refl eq_refl
             eq_refl eq_refl eq_refl).
  split; reflexivity.
Defined.

Lemma Get_twice_witness :
  exists st1 : St MC,
    Get Demo.ctx Demo.scope "abc" false (Demo.start Demo.single)
      = (Ok (Some (Demo.item "abc"), None), st1) /\
    fst (Get Demo.ctx Demo.scope "abc" false st1) = Ok (Some (Demo.item "abc"), None) /\
    upstream (snd (Get Demo.ctx Demo.scope "abc" false st1)) = upstream st1.
Proof.
  assert (Hdur : 0 <= CacheDuration (self (Demo.start (C:=MC) Demo.single)))
    by (cbn; lia).
  destruct (Get_stores_its_item_and_serves_it_again (helpers:=Demo.helpers)
              (Demo.start (C:=MC) Demo.single) Demo.ctx Demo.scope "abc" false
              (fun _ _ _ u => (inl [Demo.item "abc"], S u))
              (fun _ query u => (inl query, u))
              (fun _ _ _ _ output u => (inl output, u))
              "abc" 0%nat [Demo.item "abc"] 1%nat [Demo.item "abc"] 1%nat
              (Demo.item "abc")
              eq_refl eq_refl eq_refl eq_refl Hdur eq_refl eq_refl eq_refl eq_refl eq_refl)
    as (st1 & Hfirst & _ & _ & Hsecond).
  exists st1. split; [exact Hfirst|].
  rewrite Hsecond. split; reflexivity.
Defined.

Lemma failed_List_witness :
  let st1 := snd (List 1 Demo.ctx Demo.scope false (Demo.start (C:=MC) Demo.cancelled)) in
  List 1 Demo.ctx Demo.scope false st1 =
  (Ok ([], Some (QueryErr (WrapAWSError context_Canceled))),
   {| self := self st1; upstream := upstream st1;
      trace := trace st1 ++
               [CacheLookup "ec2-thing-source" sdp.QueryMethod_LIST Demo.scope "ec2-thing"
                  EmptyString false] |}).
Proof.
  intros st1.
  assert (Hdur : 0 <= CacheDuration (self (Demo.start (C:=MC) Demo.cancelled)))
    by (cbn; lia).
  assert (Hfirst : List 1 Demo.ctx Demo.scope false (Demo.start (C:=MC) Demo.cancelled)
                   = (Ok ([], Some (QueryErr (WrapAWSError context_Canceled))), st1))
    by (lazy; reflexivity).
  exact (proj2 (failed_List_is_served_by_the_cache (helpers:=Demo.helpers)
                  (Demo.start (C:=MC) Demo.cancelled) st1 1 1 Demo.ctx Demo.scope []
                  (QueryErr (WrapAWSError context_Canceled))
                  (fun _ u => (inl EmptyString, u))
                  eq_refl Hdur eq_refl eq_refl Hfirst)).
Defined.

Lemma NextPage_witness :
  let p := ecs.NewDescribeCapacityProvidersPaginator Examples.stuck None in
  let p1 := snd (fst (ecs.NextPage tt p 0%nat)) in
  let p2 := snd (fst (ecs.NextPage tt p1 1%nat)) in
  (ecs.HasMorePages p1 = true /\ ecs.nextToken p1 = Some "t") /\
  ecs.HasMorePages p2 = false.
Proof.
  intros p p1 p2.
  destruct (NextPage_threads_the_token_and_stops_on_a_repeat tt p p1 0%nat 1%nat
              (Examples.page "t") eq_refl) as (_ & _ & _ & _ & _ & Hmore1 & Htoken1).
  destruct (NextPage_threads_the_token_and_stops_on_a_repeat tt p1 p2 1%nat 2%nat
              (Examples.page "t") eq_refl) as (_ & _ & _ & _ & _ & Hmore2 & _).
  split; [split|].
  - rewrite Hmore1. reflexivity.
  - exact (proj1 (Htoken1 "t" eq_refl)).
  - rewrite Hmore2. reflexivity.
Defined.

Lemma repeated_token_witness :
  let s := Examples.capacityProviders (C:=MC) Examples.stuck in
  let p := ecs.NewDescribeCapacityProvidersPaginator Examples.stuck None in
  let item := {| sdp.Type_ := "ecs-capacity-provider"; sdp.UniqueAttribute := "name";
                 sdp.Attributes := [("name", "t")]; sdp.Scope := Demo.scope |} in
  describePages 3 tt None Demo.scope p []
    {| self := s; upstream := 0%nat; trace := [] |}
  = (Ok ([item; item], None),
     {| self := s; upstream := 2%nat;
        trace := [CallNextPage; CallOutputMapper Demo.scope None (Examples.page "t");
                  CallNextPage; CallOutputMapper Demo.scope None (Examples.page "t")] |}).
Proof.
  intros s p item.
  assert (Hlen : String.length "t" <> 0%nat) by (cbn; lia).
  assert (Hprev : ecs.nextToken p <> Some "t") by (intros H; discriminate H).
  assert (Hfuel : (2 < 3)%nat) by lia.
  exact (repeated_token_ends_the_paging_after_two_pages
           s 0%nat [] 3 tt Demo.scope None [] p (Examples.page "t") "t" S
           Examples.namesOnly [item]
           (fun _ _ => eq_refl) eq_refl Hlen eq_refl Hprev eq_refl (fun _ => eq_refl)
           Hfuel).
Defined.

Lemma alternating_tokens_witness :
  let s := Examples.capacityProviders (C:=MC) Examples.alternating in
  let p := ecs.NewDescribeCapacityProvidersPaginator Examples.alternating None in
  fst (describePages 50 tt None Demo.scope p []
         {| self := s; upstream := 0%nat; trace := [] |}) = OutOfFuel.
Proof.
  intros s p.
  apply (fresh_tokens_are_paged_for_ever
           s tt Demo.scope None Examples.namesOnly eq_refl).
  - intros output v. eexists _, _. reflexivity.
  - intros request v.
    destruct request as [providers include maxResults [token|]].
    + destruct (String.eqb token "a") eqn:E.
      * exists (Examples.page "b"), (S v). split.
        { cbn. rewrite E. reflexivity. }
        apply String.eqb_eq in E. subst token. cbn. intros H. discriminate H.
      * exists (Examples.page "a"), (S v). split.
        { cbn. rewrite E. reflexivity. }
        cbn. rewrite E. intros H. discriminate H.
    + exists (Examples.page "a"), (S v). split; [reflexivity|].
      cbn. intros H. discriminate H.
  - reflexivity.
Defined.

Lemma launchTemplateVersion_round_trip_witness :
  ec2.launchTemplateVersionInputMapperGet Demo.scope (ec2.versionIdCombo "lt-0abc" 12) =
  inl {| ec2.DescribeLaunchTemplateVersionsInput.LaunchTemplateId := Some "lt-0abc";
         ec2.DescribeLaunchTemplateVersionsInput.Versions := ["12"] |}.
Proof.
  exact (launchTemplateVersion_unique_attribute_value_maps_back Demo.scope "lt-0abc" 12
           eq_refl).
Defined.

Lemma malformed_launch_template_version_query_witness :
  let wrapped :=
    QueryErr (WrapAWSError (errors_New "input did not have 2 sections")) in
  let r := Get Demo.ctx Demo.scope "lt-0abc" false
             {| self := Examples.launchTemplateVersions (C:=MC); upstream := 0%nat;
                trace := [] |} in
  fst r = Ok (None, Some wrapped) /\
  trace (snd r) =
    [CacheLookup "ec2-launch-template-version-source" sdp.QueryMethod_GET Demo.scope
       "ec2-launch-template-version" "lt-0abc" false;
     CallInputMapperGet Demo.scope "lt-0abc";
     CacheStoreError wrapped 3600000000000
       (sdpcache.CacheKeyFromParts "ec2-launch-template-version-source"
          sdp.QueryMethod_GET Demo.scope "ec2-launch-template-version" "lt-0abc")].
Proof.
  intros wrapped r. unfold r.
  assert (Hdots : countByte "."%char "lt-0abc" <> 1%nat) by (cbn; lia).
  rewrite (malformed_launch_template_version_query_is_refused_and_cached
             (cacheImpl:=modelCache Demo.Ctx) (helpers:=Demo.helpers)
             {| self := Examples.launchTemplateVersions (C:=MC); upstream := 0%nat;
                trace := [] |} Demo.ctx Demo.scope "lt-0abc" false
             (modelcache.miss
                (sdpcache.CacheKeyFromParts "ec2-launch-template-version-source"
                   sdp.QueryMethod_GET Demo.scope "ec2-launch-template-version"
                   "lt-0abc"))
             modelcache.NewCache
             eq_refl eq_refl eq_refl eq_refl eq_refl eq_refl Hdots).
  split; reflexivity.
Defined.


Lemma List_shape_witness :
  let st : St MC := Demo.start Demo.searchable in
  let r := List 1 Demo.ctx Demo.scope false st in
  let lookup := CacheLookup "ec2-thing-source" sdp.QueryMethod_LIST Demo.scope "ec2-thing"
                  EmptyString false in
  let ck := sdpcache.CacheKeyFromParts "ec2-thing-source" sdp.QueryMethod_LIST Demo.scope
              "ec2-thing" EmptyString in
  fst r = Ok ([Demo.item "a"; Demo.item "b"], None) /\
  exists events,
    trace (snd r) = (trace st ++ events)%list /\
    exists described,
      events = (lookup :: CallInputMapperList Demo.scope :: described ++
                storeEvents [Demo.item "a"; Demo.item "b"] 3600000000000 ck)%list /\
      noCacheEvent described /\
      True.
Proof.
  intros st r lookup ck.
  assert (Hrun : List 1 Demo.ctx Demo.scope false st
                 = (Ok ([Demo.item "a"; Demo.item "b"], None), snd r))
    by (lazy; reflexivity).
  split; [unfold r; rewrite Hrun; reflexivity|].
  exact (List_stores_exactly_what_it_returns_after_a_miss
           (cacheImpl:=modelCache Demo.Ctx) (helpers:=Demo.helpers)
           st (snd r) 1 Demo.ctx Demo.scope false _ Hrun).
Defined.

End MoreOnTheTestSources.
